(** * nombot: a shallow embedding of the response shaper, the CCXT facade
    and the API adapters

    Sources embedded here:
    - [api/response.py]: [Result], [ResponseSchema.populate_data]
    - [nombot/api/services/ccxt.py]: [CCXTExchange], [CCXT]
    - [app/api.py]: [ApiProduct], [ApiAdapter], [WsAdapter]

    Python dictionaries keep their insertion order and the code iterates
    over them, so they are association lists whose keys [dict_set] keeps
    distinct.  Exceptions are an explicit [outcome].  What the code consumes
    from outside (the ccxt clients, the marshmallow schemas, the operation
    handle, the callback) enters as fields of records or as section
    variables. *)

From Stdlib Require Import List String Ascii Bool Arith PeanoNat Lia.
Import ListNotations.
Set Warnings "-register-all".
Open Scope string_scope.

(* ===================================================================== *)
(** ** Python values, exceptions and dictionaries                         *)
(* ===================================================================== *)

Module Py.

(** Plain data as it travels through requests and responses. *)
Inductive value : Type :=
| VNone
| VBool (b : bool)
| VInt (n : nat)
| VStr (s : string)
| VList (l : list value)
| VDict (d : list (string * value)).

(** A piece of an f-string: literal text, or a string, a payload or an
    object interpolated between braces.  A message keeps its pieces, so that
    what it carries can be read back without fixing how Python prints it. *)
Inductive fragment (O : Type) : Type :=
| FLit (s : string)
| FStr (s : string)
| FVal (v : value)
| FObj (o : O).
Arguments FLit {O} s.
Arguments FStr {O} s.
Arguments FVal {O} v.
Arguments FObj {O} o.

(** The exception classes the three files raise, catch or let through.
    [ExchangeNotAvailable] and [ExchangeError] are the two ccxt classes named
    in the [except] clauses of [ccxt.py]; [NetworkError] stands for the other
    ccxt failures; [Exception_] is the builtin [Exception] with its message. *)
Inductive exn_of (O : Type) : Type :=
| ExchangeNotAvailable (msg : string)
| ExchangeError (msg : string)
| NetworkError (msg : string)
| TypeError (msg : string)
| AttributeError (msg : string)
| KeyError (key : option string)
| RuntimeError (msg : string)
| KeyboardInterrupt
| Exception_ (msg : list (fragment O)).
Arguments ExchangeNotAvailable {O} msg.
Arguments ExchangeError {O} msg.
Arguments NetworkError {O} msg.
Arguments TypeError {O} msg.
Arguments AttributeError {O} msg.
Arguments KeyError {O} key.
Arguments RuntimeError {O} msg.
Arguments KeyboardInterrupt {O}.
Arguments Exception_ {O} msg.

Inductive outcome_of (O A : Type) : Type :=
| Ok (a : A)
| Raise (e : exn_of O).
Arguments Ok {O A} a.
Arguments Raise {O A} e.

(** What an attribute of an operation handle can hold: nothing, a name, a
    table, or something callable (with the text Python prints for it). *)
Inductive obj : Type :=
| ONone
| OStr (s : string)
| ODict (d : list (string * obj))
| OCallable (repr : string) (f : value -> outcome_of obj value).

Definition exn := exn_of obj.
Definition outcome := outcome_of obj.

(** [except (ExchangeNotAvailable, ExchangeError):] *)
Definition is_exchange_failure (e : exn) : bool :=
  match e with
  | ExchangeNotAvailable _ | ExchangeError _ => true
  | _ => false
  end.

Section Dict.
Context {V : Type}.

Definition dict := list (string * V).

(** [d.get(k)], [None] when the key is absent. *)
Fixpoint dict_get (d : list (string * V)) (k : string) : option V :=
  match d with
  | [] => None
  | (k', v) :: d' => if String.eqb k' k then Some v else dict_get d' k
  end.

(** [k in d] *)
Definition dict_mem (d : list (string * V)) (k : string) : bool :=
  match dict_get d k with Some _ => true | None => false end.

(** [d[k] = v]: an existing key keeps its place, a new one goes last. *)
Fixpoint dict_set (d : list (string * V)) (k : string) (v : V)
  : list (string * V) :=
  match d with
  | [] => [(k, v)]
  | (k', v') :: d' =>
      if String.eqb k' k then (k', v) :: d' else (k', v') :: dict_set d' k v
  end.

(** [d[k]] *)
Definition dict_getitem (d : list (string * V)) (k : string) : outcome V :=
  match dict_get d k with
  | Some v => Ok v
  | None => Raise (KeyError (Some k))
  end.

Definition dict_keys (d : list (string * V)) : list string := map fst d.
Definition dict_values (d : list (string * V)) : list V := map snd d.
End Dict.
Arguments dict V : clear implicits.

(** ["/".join(pair)] for a pair. *)
Definition slash_join (p : string * string) : string :=
  fst p ++ "/" ++ snd p.

(** [x in l] for a list of strings. *)
Definition str_in (x : string) (l : list string) : bool :=
  existsb (String.eqb x) l.

End Py.
Import Py.

(* ===================================================================== *)
(** ** api/response.py                                                    *)
(* ===================================================================== *)

Module Response.

(** The schema objects of [generics.exchange] are outside these sources; an
    entry of [RESPONSE_MAP] records the class and its [many] flag, and what
    [dump] does with it is a parameter of the section below. *)
Record Schema := { schema_cls : string; many : bool }.

Definition RESPONSE_MAP : dict Schema :=
  [ ("accounts",        {| schema_cls := "AccountSchema";        many := true  |});
    ("balances",        {| schema_cls := "BalanceSchema";        many := true  |});
    ("orders",          {| schema_cls := "AllOrdersSchema";      many := false |});
    ("alerts",          {| schema_cls := "AllAlertsSchema";      many := false |});
    ("newsFeed",        {| schema_cls := "NewsItemSchema";       many := true  |});
    ("orderTypes",      {| schema_cls := "OrderTypesCallSchema"; many := false |});
    ("refreshBalance",  {| schema_cls := "BalanceSchema";        many := false |});
    ("addOrder",        {| schema_cls := "OrderReferenceSchema"; many := false |});
    ("exchanges",       {| schema_cls := "ExchangeSchema";       many := true  |});
    ("markets",         {| schema_cls := "MarketSchema";         many := true  |});
    ("data",            {| schema_cls := "AllMarketDataSchema";  many := false |});
    ("ticker",          {| schema_cls := "TickSchema";           many := false |});
    ("ws_trade_ticker", {| schema_cls := "WsTradeChannel";       many := false |}) ].

(** What marshmallow's [dump] hands back: a [(data, errors)] pair. *)
Record MarshalResult := { mr_data : value; mr_errors : value }.

(** [class Result]: every field defaults to [None]. *)
Record Result := {
  channel  : option string;
  callname : option string;
  result   : option MarshalResult;
  errors   : option (dict value)
}.

(** The constructor of [Result], called with keywords: a keyword that is
    not passed reads as [None]. *)
Definition Result_init (channel callname : option string)
    (result : option MarshalResult) (errors : option (dict value)) : Result :=
  {| channel := channel; callname := callname;
   result := result; errors := errors |}.

(** The data [ResponseSchema] has loaded: its declared field
    [errors = fields.Dict()] and the additional field [result], each present
  or not. *)
Record Loaded := {
  l_errors : option (dict value);
  l_result : option value
}.

(** [RESPONSE_MAP[self.context.get('callname')]] *)
Definition response_schema_for (cn : option string) : outcome Schema :=
  match cn with
  | None => Raise (KeyError None)
  | Some c => dict_getitem RESPONSE_MAP c
  end.

Section Populate.
Variable dump : Schema -> value -> outcome MarshalResult.

(** [get_result]: [data.get("result", "")] *)
Definition get_result (data : Loaded) : value :=
  match l_result data with
  | Some v => v
  | None => VStr ""
  end.

(** [populate_data], with [ctx] for [self.context]. *)
Definition populate_data (ctx : dict string) (data : Loaded)
  : outcome Result :=
  match l_errors data with
  | Some e => Ok (Result_init None None None (Some e))
  | None =>
      let ch := dict_get ctx "channel" in
      let cn := dict_get ctx "callname" in
      match response_schema_for cn with
      | Raise e => Raise e
      | Ok schema =>
          match dump schema (get_result data) with
          | Raise e => Raise e
          | Ok dumped => Ok (Result_init ch cn (Some dumped) None)
          end
      end
  end.
End Populate.

(** A [dump] that wraps its argument, for concrete runs. *)
Definition dump_echo (_ : Schema) (v : value) : outcome MarshalResult :=
  Ok {| mr_data := v; mr_errors := VDict [] |}.

End Response.

(* ===================================================================== *)
(** ** nombot/api/services/ccxt.py: [CCXTExchange]                        *)
(* ===================================================================== *)

Module Exchange.

(** What the ccxt client shows once a [load_markets] call has returned: the
    markets it returns and its [currencies] and [symbols] attributes ([None]
    when the client has no such attribute). *)
Record Catalogue := {
  cat_markets    : dict value;
  cat_currencies : option (dict value);
  cat_symbols    : option (list string)
}.

(** The ccxt client object held in [self._ex].  The client is the external
    capability: [cl_script n] is what its [n]-th [load_markets] call does and
    [cl_invoke] what calling one of its methods does; [cl_loads] counts the
    [load_markets] calls made so far. *)
Record Client := {
  cl_name              : string;
  cl_rate_limit        : option nat;
  cl_enable_rate_limit : bool;
  cl_currencies        : option (dict value);
  cl_symbols           : option (list string);
  cl_loads             : nat;
  cl_script            : nat -> outcome Catalogue;
  cl_invoke            : string -> list value -> outcome value
}.

Definition set_rate_limit (c : Client) (r : nat) : Client :=
  {| cl_name := cl_name c; cl_rate_limit := Some r;
     cl_enable_rate_limit := cl_enable_rate_limit c;
     cl_currencies := cl_currencies c; cl_symbols := cl_symbols c;
     cl_loads := cl_loads c; cl_script := cl_script c;
     cl_invoke := cl_invoke c |}.

Definition set_enable_rate_limit (c : Client) : Client :=
  {| cl_name := cl_name c; cl_rate_limit := cl_rate_limit c;
     cl_enable_rate_limit := true;
     cl_currencies := cl_currencies c; cl_symbols := cl_symbols c;
     cl_loads := cl_loads c; cl_script := cl_script c;
     cl_invoke := cl_invoke c |}.

(** [await self._ex.load_markets()] *)
Definition load_markets (c : Client) : Client * outcome (dict value) :=
  match cl_script c (cl_loads c) with
  | Ok cat =>
      ({| cl_name := cl_name c; cl_rate_limit := cl_rate_limit c;
          cl_enable_rate_limit := cl_enable_rate_limit c;
          cl_currencies := cat_currencies cat;
          cl_symbols := cat_symbols cat;
          cl_loads := S (cl_loads c); cl_script := cl_script c;
          cl_invoke := cl_invoke c |},
       Ok (cat_markets cat))
  | Raise e =>
      ({| cl_name := cl_name c; cl_rate_limit := cl_rate_limit c;
          cl_enable_rate_limit := cl_enable_rate_limit c;
          cl_currencies := cl_currencies c; cl_symbols := cl_symbols c;
          cl_loads := S (cl_loads c); cl_script := cl_script c;
          cl_invoke := cl_invoke c |},
       Raise e)
  end.

(** The dataclass.  [currencies] is what the caller configured ([None] when
    [CCXT] was given no symbols); the metadata fields are [None] until a
    load fills them. *)
Record CCXTExchange := {
  name             : string;
  currencies       : option (list string);
  rate_limit       : option nat;
  _ex              : Client;
  avail_currencies : option (dict value);
  _currencies      : option (dict value);
  avail_markets    : option (dict value);
  markets          : option (dict value);
  avail_symbols    : option (list string);
  symbols          : option (list string)
}.

Definition with_client (self : CCXTExchange) (c : Client) : CCXTExchange :=
  {| name := name self; currencies := currencies self;
     rate_limit := rate_limit self; _ex := c;
     avail_currencies := avail_currencies self;
     _currencies := _currencies self;
     avail_markets := avail_markets self; markets := markets self;
     avail_symbols := avail_symbols self; symbols := symbols self |}.

(** [not self.currencies] *)
Definition no_currencies (cs : option (list string)) : bool :=
  match cs with
  | None | Some [] => true
  | Some (_ :: _) => false
  end.

(** The comprehension
    [{curr: avail[curr] for curr in self.currencies if curr in avail}],
    filling [acc] from left to right. *)
Fixpoint relevant_currencies (avail : dict value) (cs : list string)
    (acc : dict value) : dict value :=
  match cs with
  | [] => acc
  | curr :: cs' =>
      match dict_get avail curr with
      | Some v => relevant_currencies avail cs' (dict_set acc curr v)
      | None => relevant_currencies avail cs' acc
      end
  end.

(** [product(currencies, currencies)] *)
Definition product (l : list string) : list (string * string) :=
  list_prod l l.

(** The comprehension that derives [self.symbols]. *)
Definition derive_symbols (keys avail_syms : list string) : list string :=
  map slash_join
      (filter (fun pair => str_in (slash_join pair) avail_syms) (product keys)).

(** The comprehension [{sym: self.avail_markets[sym] for sym in self.symbols}];
    a symbol without a market raises [KeyError]. *)
Fixpoint restrict_markets (avail : dict value) (syms : list string)
    (acc : dict value) : outcome (dict value) :=
  match syms with
  | [] => Ok acc
  | sym :: syms' =>
      match dict_getitem avail sym with
      | Ok m => restrict_markets avail syms' (dict_set acc sym m)
      | Raise e => Raise e
      end
  end.

(** [load]: the exchange after the call, and how the call ended.  An
    exception leaves the assignments made before it in place. *)
Definition load (reload : bool) (self : CCXTExchange)
  : CCXTExchange * outcome unit :=
  match markets self, reload with
  | Some _, false => (self, Ok tt)
  | _, _ =>
      let (client, loaded) := load_markets (_ex self) in
      match loaded with
      | Raise e => (with_client self client, Raise e)
      | Ok mkts =>
          let avail_cur :=
            match cl_currencies client with Some d => d | None => [] end in
          let cur :=
            if no_currencies (currencies self) then avail_cur
            else relevant_currencies avail_cur
                   (match currencies self with Some cs => cs | None => [] end)
                   [] in
          let avail_sym :=
            match cl_symbols client with Some l => l | None => [] end in
          let syms := derive_symbols (dict_keys cur) avail_sym in
          let restricted := restrict_markets mkts syms [] in
          ({| name := name self; currencies := currencies self;
              rate_limit := rate_limit self; _ex := client;
              avail_currencies := Some avail_cur;
              _currencies := Some cur;
              avail_markets := Some mkts;
              markets := match restricted with
                         | Ok m => Some m
                         | Raise _ => markets self
                         end;
              avail_symbols := Some avail_sym;
              symbols := Some syms |},
           match restricted with
           | Ok _ => Ok tt
           | Raise e => Raise e
           end)
      end
  end.

(** [__post_init__], on the object the dataclass constructor has filled with
    [name], [currencies] and [rate_limit]; [ccxt_class] is the lookup of the
    exchange class in the ccxt module, instantiated. *)
Definition __post_init__ (ccxt_class : string -> option Client)
    (name_ : string) (currencies_ : option (list string))
    (rate_limit_ : option nat) : outcome CCXTExchange :=
  match ccxt_class name_ with
  | None => Raise (AttributeError name_)
  | Some fresh =>
      let c := match rate_limit_ with
               | Some r => set_rate_limit fresh r
               | None => fresh
               end in
      let c := set_enable_rate_limit c in
      let self := {| name := name_; currencies := currencies_;
                     rate_limit := rate_limit_; _ex := c;
                     avail_currencies := None; _currencies := None;
                     avail_markets := None; markets := None;
                     avail_symbols := None; symbols := None |} in
      match load false self with
      | (self', Ok _) => Ok self'
      | (_, Raise e) => Raise e
      end
  end.

(** [call]: a [TypeError] of the client comes out as an [AttributeError]. *)
Definition call (self : CCXTExchange) (callname : string)
    (args : list value) : outcome value :=
  match cl_invoke (_ex self) callname args with
  | Raise (TypeError _) =>
      Raise (AttributeError ("Failed to execute call " ++ callname ++
                             " on exchange " ++ cl_name (_ex self)))
  | r => r
  end.

(** The loop of [call_over_syms] over the keys of [self.markets]. *)
Fixpoint over_syms (self : CCXTExchange) (callname : string)
    (args : list value) (syms : list string) (results : dict value)
  : outcome (dict value) :=
  match syms with
  | [] => Ok results
  | sym :: syms' =>
      match call self callname (VStr sym :: args) with
      | Ok r => over_syms self callname args syms' (dict_set results sym r)
      | Raise e =>
          if is_exchange_failure e
          then over_syms self callname args syms' results
          else Raise e
      end
  end.

Definition call_over_syms (self : CCXTExchange) (callname : string)
    (args : list value) : outcome (dict value) :=
  match markets self with
  | None => Raise (AttributeError "'NoneType' object has no attribute 'keys'")
  | Some m => over_syms self callname args (dict_keys m) []
  end.

(** The exchange objects a program can hold: those the dataclass
    constructor returned, and what [load] calls, however they end, make of
    them. *)
Inductive reachable (ccxt_class : string -> option Client)
  : CCXTExchange -> Prop :=
| reach_new name_ currencies_ rate_limit_ ex :
    __post_init__ ccxt_class name_ currencies_ rate_limit_ = Ok ex ->
    reachable ccxt_class ex
| reach_load reload ex :
    reachable ccxt_class ex ->
    reachable ccxt_class (fst (load reload ex)).

(** The derived symbols are exactly the available joins of two keys of
    [_currencies]. *)
Definition symbols_derived (ex : CCXTExchange) : Prop :=
  exists syms avail cur,
    symbols ex = Some syms /\ avail_symbols ex = Some avail
    /\ _currencies ex = Some cur
    /\ forall s, In s syms <->
                 In s avail /\
                 exists a b, In a (dict_keys cur) /\ In b (dict_keys cur)
                             /\ s = slash_join (a, b).

(** The keys of [_currencies] are available currencies, and configured ones
    when any were configured. *)
Definition currencies_configured (ex : CCXTExchange) : Prop :=
  exists avail cur,
    avail_currencies ex = Some avail /\ _currencies ex = Some cur
    /\ forall a, In a (dict_keys cur) ->
                 In a (dict_keys avail) /\
                 forall cs, currencies ex = Some cs -> cs <> [] -> In a cs.

End Exchange.

(* ===================================================================== *)
(** ** nombot/api/services/ccxt.py: [CCXT]                                *)
(* ===================================================================== *)

Module CCXT.
Import Exchange.

(** The class object.  Its body runs once and binds [_ex] to one dictionary;
    every later [self._ex] that finds no binding on the instance reads this
    same dictionary. *)
Record Class := { _ex : dict CCXTExchange }.

Definition class_body : Class := {| _ex := [] |}.

(** An instance, as far as [_ex] goes: the binding of [_ex] in the
    instance's own dictionary, if it has one. *)
Record Instance := { own_ex : option (dict CCXTExchange) }.

(** Reading [self._ex]: the instance's binding, else the class's. *)
Definition self_ex (self : Instance) (cls : Class) : dict CCXTExchange :=
  match own_ex self with
  | Some d => d
  | None => _ex cls
  end.

(** [self._ex[exch] = ex]: the dictionary that [self._ex] reads is updated
    in place. *)
Definition self_ex_setitem (self : Instance) (cls : Class) (exch : string)
    (ex : CCXTExchange) : Instance * Class :=
  match own_ex self with
  | Some d => ({| own_ex := Some (dict_set d exch ex) |}, cls)
  | None => (self, {| _ex := dict_set (_ex cls) exch ex |})
  end.

Section Module_ccxt.
(** The ccxt module: its exchange classes, instantiated, and its list
    [ccxt.exchanges] of all exchange names. *)
Variable ccxt_class : string -> option Client.
Variable ccxt_exchanges : list string.

(** The [for exch in exchanges] loop of [__init__]. *)
Fixpoint init_loop (exchanges : list string) (symbols : option (list string))
    (rate_limit : option nat) (self : Instance) (cls : Class)
  : Instance * Class * outcome unit :=
  match exchanges with
  | [] => (self, cls, Ok tt)
  | exch :: rest =>
      match __post_init__ ccxt_class exch symbols rate_limit with
      | Raise e => (self, cls, Raise e)
      | Ok ex =>
          let (self', cls') := self_ex_setitem self cls exch ex in
          init_loop rest symbols rate_limit self' cls'
      end
  end.

(** [if exchanges is None or not exchanges: exchanges = ccxt.exchanges] *)
Definition exchanges_or_all (exchanges : option (list string))
  : list string :=
  match exchanges with
  | None | Some [] => ccxt_exchanges
  | Some l => l
  end.

(** [CCXT(exchanges, symbols, rate_limit)]: a new instance, with nothing
    bound on it, run through [__init__]. *)
Definition __init__ (exchanges symbols : option (list string))
    (rate_limit : option nat) (cls : Class) : Class * outcome Instance :=
  let exchanges := exchanges_or_all exchanges in
  match init_loop exchanges symbols rate_limit {| own_ex := None |} cls with
  | (self, cls', Ok _) => (cls', Ok self)
  | (_, cls', Raise e) => (cls', Raise e)
  end.
End Module_ccxt.

(** The loop of [call_on_exchanges].  [ex.loop.run_until_complete] runs the
    coroutine to its end and hands back its result or its exception. *)
Fixpoint on_exchanges (exs : list CCXTExchange) (callname : string)
    (args : list value) (results : dict value) : outcome (dict value) :=
  match exs with
  | [] => Ok results
  | ex :: rest =>
      match Exchange.call ex callname args with
      | Ok r => on_exchanges rest callname args (dict_set results (name ex) r)
      | Raise e =>
          if is_exchange_failure e
          then on_exchanges rest callname args results
          else Raise e
      end
  end.

Definition call_on_exchanges (self : Instance) (cls : Class)
    (callname : string) (args : list value) : outcome (dict value) :=
  on_exchanges (dict_values (self_ex self cls)) callname args [].

(** The loop of [CCXT.call_over_syms]: one inner mapping per exchange. *)
Fixpoint over_exchanges (exs : list CCXTExchange) (callname : string)
    (args : list value) (results : dict (dict value))
  : outcome (dict (dict value)) :=
  match exs with
  | [] => Ok results
  | ex :: rest =>
      match Exchange.call_over_syms ex callname args with
      | Ok r => over_exchanges rest callname args (dict_set results (name ex) r)
      | Raise e =>
          if is_exchange_failure e
          then over_exchanges rest callname args results
          else Raise e
      end
  end.

Definition call_over_syms (self : Instance) (cls : Class)
    (callname : string) (args : list value) : outcome (dict (dict value)) :=
  over_exchanges (dict_values (self_ex self cls)) callname args [].

(** How one exchange takes a call: it answers, or it fails with one of the
    two exchange-error kinds (or with something else, when neither holds). *)
Definition answers (callname : string) (args : list value)
    (ex : CCXTExchange) : bool :=
  match Exchange.call ex callname args with
  | Ok _ => true
  | Raise _ => false
  end.

Definition unavailable (callname : string) (args : list value)
    (ex : CCXTExchange) : bool :=
  match Exchange.call ex callname args with
  | Ok _ => false
  | Raise e => is_exchange_failure e
  end.

(** Every exchange sits under its own name, and no name sits twice. *)
Definition keyed_by_name (d : dict CCXTExchange) : Prop :=
  NoDup (dict_keys d) /\ Forall (fun kv => name (snd kv) = fst kv) d.

End CCXT.

(* ===================================================================== *)
(** ** app/api.py                                                         *)
(* ===================================================================== *)

Module Api.
Import Response.

(** A marshmallow schema object as the adapters use it: its [context]
    dictionary, and [dump], which reads that context. *)
Record SchemaObj := {
  sch_context : dict obj;
  sch_dump    : dict obj -> value -> outcome MarshalResult
}.

(** The operation handle [self.api].  [attrs] is what [getattr] finds on it
    by name; [api_call] and the three schema factories are the members the
    adapters reach by their fixed names.  Its logger writes to the trace of
    the process.  What the handle and its callables do is a function of
    their arguments: they leave the adapter object alone. *)
Record Handle := {
  attrs            : dict obj;
  api_call         : obj -> value -> outcome value;
  request_schema   : outcome SchemaObj;
  result_schema    : outcome SchemaObj;
  ws_result_schema : outcome SchemaObj
}.

(** The defunctionalised closure [mthd]: what it captured from [call]. *)
Record Thunk := { th_callname : string; th_action : obj }.

(** An entry of the queue of [sched.scheduler]. *)
Record Event := {
  ev_time     : nat;
  ev_priority : nat;
  ev_action   : Thunk;
  ev_argument : list value
}.

(** An entry of the context's [calls] mapping: the keywords for [call]. *)
Record CallData := {
  cd_arguments : value;
  cd_delay     : option nat;
  cd_priority  : option nat
}.

(** What a process does that can be seen from outside it. *)
Inductive event : Type :=
| Called (callname : string)
| Logged (callname : string) (action : obj)
| Dumped (tag : obj) (payload : value)
| Invoked (action : obj) (arg : value)
| Delivered (data : value).

(** [ApiProduct] and [ApiAdapter]: [api] is [None] until [run]; [cls] is
    what calling the context's [cls] entry with the context gives; [calls]
    and [callback] are read from the context, and the callback, like the
    handle, leaves the adapter object alone; [thread] is [None] until [run]
    stores the process it starts (here its place among the workers). *)
Record Adapter := {
  api        : option Handle;
  cls        : outcome Handle;
  calls      : dict CallData;
  callback   : option (value -> outcome unit);
  keep_going : bool;
  thread     : option nat
}.

(** One operating-system process: the adapter object in its memory, the
    class-level scheduler with its clock, and what it has done so far. *)
Record Process := {
  self      : Adapter;
  scheduler : list Event;
  clock     : nat;
  trace     : list event
}.

(** Computations of a process: a state they may change, and may raise. *)
Definition M (A : Type) : Type := Process -> Process * outcome A.

Definition ret {A} (a : A) : M A := fun p => (p, Ok a).
Definition raise {A} (e : exn) : M A := fun p => (p, Raise e).
Definition bind {A B} (m : M A) (k : A -> M B) : M B :=
  fun p => match m p with
           | (p', Ok a) => k a p'
           | (p', Raise e) => (p', Raise e)
           end.
Definition lift {A} (o : outcome A) : M A := fun p => (p, o).

(** [try: m except: h] with a bare [except], which catches everything. *)
Definition try_except {A} (m : M A) (h : exn -> M A) : M A :=
  fun p => match m p with
           | (p', Ok a) => (p', Ok a)
           | (p', Raise e) => h e p'
           end.

Declare Scope py_scope.
Delimit Scope py_scope with py.
Notation "x <- m ;; k" := (bind m (fun x => k))
  (at level 100, m at next level, right associativity) : py_scope.
Notation "m ;;; k" := (bind m (fun _ => k))
  (at level 100, right associativity) : py_scope.
Open Scope py_scope.

Definition emit (e : event) : M unit :=
  fun p => ({| self := self p; scheduler := scheduler p; clock := clock p;
               trace := trace p ++ [e] |}, Ok tt).

Definition get_self : M Adapter := fun p => (p, Ok (self p)).

Definition put_self (a : Adapter) : M unit :=
  fun p => ({| self := a; scheduler := scheduler p; clock := clock p;
               trace := trace p |}, Ok tt).

(** [self.api.<member>] *)
Definition the_api : M Handle :=
  a <- get_self ;;
  match api a with
  | Some h => ret h
  | None => raise (AttributeError "'NoneType' object has no attribute")
  end.

Definition newline : string := String (ascii_of_nat 10) EmptyString.

(** [data.get(key)] on dumped data. *)
Definition value_get (v : value) (k : string) : outcome value :=
  match v with
  | VDict d => Ok (match dict_get d k with Some x => x | None => VNone end)
  | _ => Raise (AttributeError "object has no attribute 'get'")
  end.

(** [self.callback(data, self.context)].  The context, in which [run] has
    stored the adapter under [inst], is not handed on: the callbacks
    embedded here answer from the data alone, and one that writes to the
    adapter through the context is outside this embedding. *)
Definition call_callback (data : value) : M unit :=
  a <- get_self ;;
  match callback a with
  | Some cb => emit (Delivered data) ;;; lift (cb data)
  | None => raise (TypeError "'NoneType' object is not callable")
  end.

(** The [try] block of [ApiAdapter._generate_request]. *)
Definition request_try (callname : obj) (request : value) : M value :=
  h <- the_api ;;
  schema <- lift (request_schema h) ;;
  let context := dict_set (sch_context schema) "callname" callname in
  emit (Dumped callname request) ;;;
  dumped <- lift (sch_dump schema context request) ;;
  lift (value_get (mr_data dumped) "payload").

(** The message of the [Exception] raised in its [except] block. *)
Definition request_failure (callname : obj) (request : value)
  : list (fragment obj) :=
  [FLit "Could not parse request for "; FObj callname;
   FLit ("; data:" ++ newline ++ "            "); FVal request].

(** [ApiAdapter._generate_request] *)
Definition _generate_request (callname : obj) (request : value) : M value :=
  try_except (request_try callname request)
             (fun _ => raise (Exception_ (request_failure callname request))).

(** The [try] block of [ApiAdapter._generate_result]. *)
Definition result_try (callname : string) (result : value) : M unit :=
  h <- the_api ;;
  schema <- lift (result_schema h) ;;
  let context := dict_set (sch_context schema) "callname" (OStr callname) in
  emit (Dumped (OStr callname) result) ;;;
  dumped <- lift (sch_dump schema context result) ;;
  call_callback (mr_data dumped).

Definition result_failure (callname : string) (result : value)
  : list (fragment obj) :=
  [FLit "Could not parse response for "; FStr callname;
   FLit ("; data:" ++ newline ++ "            "); FVal result].

(** [ApiAdapter._generate_result] *)
Definition _generate_result (callname : string) (result : value) : M unit :=
  try_except (result_try callname result)
             (fun _ => raise (Exception_ (result_failure callname result))).

(** The [try] block of [WsAdapter._generate_result]. *)
Definition ws_result_try (channel : string) (result : value) : M unit :=
  h <- the_api ;;
  schema <- lift (ws_result_schema h) ;;
  let context := dict_set (sch_context schema) "channel" (OStr channel) in
  emit (Dumped (OStr channel) result) ;;;
  dumped <- lift (sch_dump schema context result) ;;
  call_callback (mr_data dumped).

Definition ws_result_failure (channel : string) (result : value)
  : list (fragment obj) :=
  [FLit "Could not parse item on channel "; FStr channel;
   FLit ("; data:" ++ newline ++ "                      "); FVal result].

(** [WsAdapter._generate_result] *)
Definition ws_generate_result (channel : string) (result : value) : M unit :=
  try_except (ws_result_try channel result)
             (fun _ => raise (Exception_ (ws_result_failure channel result))).

(** [getattr(self.api, callname, None)] *)
Definition getattr (h : Handle) (n : string) : obj :=
  match dict_get (attrs h) n with
  | Some o => o
  | None => ONone
  end.

(** The lines of [call] under "See if a method override exists": reading
    [ENDPOINT_OVERRIDES] off a handle without it, or calling [get] on
    something that is not a dictionary, raises the [AttributeError] that the
    [except] clause answers with the call's own name. *)
Definition resolve_action (h : Handle) (callname : string) : obj :=
  match getattr h callname with
  | ONone =>
      match dict_get (attrs h) "ENDPOINT_OVERRIDES" with
      | Some (ODict overrides) =>
          match dict_get overrides callname with
          | Some o => o
          | None => ONone
          end
      | Some _ | None => OStr callname
      end
  | action => action
  end.

(** [mthd], the closure built by [call]; the first branch is the one for a
    callable [action]. *)
Definition mthd (th : Thunk) (args : value) : M unit :=
  match th_action th with
  | OCallable _ f =>
      request <- _generate_request (OStr (th_callname th)) args ;;
      emit (Invoked (th_action th) request) ;;;
      raw <- lift (f request) ;;
      _generate_result (th_callname th) raw
  | action =>
      _ <- _generate_request action args ;;
      h <- the_api ;;
      emit (Invoked action args) ;;;
      raw <- lift (api_call h action args) ;;
      _generate_result (th_callname th) raw
  end.

(** The keyword dictionary [sched_args] that [call] fills. *)
Record SchedArgs := {
  sa_delay    : option nat;
  sa_priority : option nat;
  sa_action   : option Thunk;
  sa_argument : option (list value)
}.

(** [bool(sched_args)]: some key is set. *)
Definition sched_args_nonempty (kw : SchedArgs) : bool :=
  match sa_delay kw, sa_priority kw, sa_action kw, sa_argument kw with
  | None, None, None, None => false
  | _, _, _, _ => true
  end.

(** Events wait in the order of [(time, priority)]; among equal ones the
    earlier entered comes first. *)
Definition event_le (a b : Event) : bool :=
  Nat.ltb (ev_time a) (ev_time b)
  || (Nat.eqb (ev_time a) (ev_time b)
      && Nat.leb (ev_priority a) (ev_priority b)).

Fixpoint enqueue (e : Event) (q : list Event) : list Event :=
  match q with
  | [] => [e]
  | e' :: q' => if event_le e' e then e' :: enqueue e q' else e :: q
  end.

(** [self.scheduler.enter(sched_args...)] with the keywords of [sched_args].
    Python's [sched.scheduler.enter(delay, priority, action, argument=())]
    has no default for [delay], [priority] and [action]: a call that leaves
    one of them out raises [TypeError] before anything is queued.  The
    clock stands still between two calls of [enter]; the interpreter reads
    the time anew at each, so that the order of two events entered with the
    same delay is not settled by this embedding. *)
Definition scheduler_enter (kw : SchedArgs) : M unit :=
  match sa_delay kw, sa_priority kw, sa_action kw with
  | Some delay, Some priority, Some action =>
      fun p =>
        let e := {| ev_time := (clock p + delay)%nat; ev_priority := priority;
                    ev_action := action;
                    ev_argument := match sa_argument kw with
                                   | Some t => t
                                   | None => []
                                   end |} in
        ({| self := self p; scheduler := enqueue e (scheduler p);
            clock := clock p; trace := trace p |}, Ok tt)
  | _, _, _ =>
      raise (TypeError "enter() missing required positional argument")
  end.

(** [action(argument...)] for a queued [mthd]: its one parameter [args]
    defaults to [None]. *)
Definition apply_mthd (th : Thunk) (argument : list value) : M unit :=
  match argument with
  | [] => mthd th VNone
  | [a] => mthd th a
  | _ => raise (TypeError "mthd() takes from 0 to 1 positional arguments")
  end.

(** [ApiAdapter.call] *)
Definition call (callname : string) (arguments : value)
    (delay priority : option nat) : M unit :=
  emit (Called callname) ;;;
  let sched_args := {| sa_delay := delay; sa_priority := priority;
                       sa_action := None; sa_argument := None |} in
  a <- get_self ;;
  let action := match api a with
                | Some h => resolve_action h callname
                | None => OStr callname
                end in
  match action with
  | ONone => ret tt
  | _ => _ <- the_api ;; emit (Logged callname action)
  end ;;;
  let mthd_ := {| th_callname := callname; th_action := action |} in
  if sched_args_nonempty sched_args then
    scheduler_enter
      {| sa_delay := delay; sa_priority := priority;
         sa_action := Some mthd_;
         sa_argument := match arguments with
                        | VNone => None
                        | _ => Some [arguments]
                        end |}
  else
    match arguments with
    | VNone => mthd mthd_ VNone
    | _ => mthd mthd_ arguments
    end.

(** [self.scheduler.run()]: the events that are waiting are taken off the
    queue in order; the clock is moved on to an event's time before its
    action runs; an exception of an action ends the run. *)
Fixpoint run_events (evs : list Event) : M unit :=
  match evs with
  | [] => ret tt
  | e :: rest =>
      (fun p => ({| self := self p; scheduler := rest;
                    clock := Nat.max (clock p) (ev_time e);
                    trace := trace p |}, Ok tt)) ;;;
      apply_mthd (ev_action e) (ev_argument e) ;;;
      run_events rest
  end.

Definition scheduler_run : M unit :=
  fun p => run_events (scheduler p) p.

(** The [for call, calldata in ...items()] of [loop]. *)
Fixpoint dispatch_calls (cs : list (string * CallData)) : M unit :=
  match cs with
  | [] => ret tt
  | (callname, calldata) :: rest =>
      call callname (cd_arguments calldata) (cd_delay calldata)
           (cd_priority calldata) ;;;
      dispatch_calls rest
  end.

(** How a bounded run of [loop] ended: the [while] test failed, or the
    bound on the number of passes was reached with the test still true. *)
Inductive loop_end : Type := Left_loop | Still_looping.

(** [loop], the target of the worker process, for at most [passes] passes. *)
Fixpoint loop (passes : nat) : M loop_end :=
  fun p =>
    if keep_going (self p) then
      match passes with
      | 0 => (p, Ok Still_looping)
      | S n =>
          (dispatch_calls (calls (self p)) ;;;
           scheduler_run ;;;
           loop n) p
      end
    else (p, Ok Left_loop).

Definition set_keep_going (a : Adapter) (b : bool) : Adapter :=
  {| api := api a; cls := cls a; calls := calls a; callback := callback a;
     keep_going := b; thread := thread a |}.

(** [ApiProduct.shutdown].  The handle's own [shutdown] is taken for what it
    returns or raises; what it logs, and what it could write to the adapter
    through the context it was built with, is outside this embedding. *)
Definition shutdown : M unit :=
  a <- get_self ;;
  put_self (set_keep_going a false) ;;;
  match api a with
  | None => ret tt
  | Some h =>
      match dict_get (attrs h) "shutdown" with
      | None => ret tt
      | Some (OCallable _ f) => _ <- lift (f VNone) ;; ret tt
      | Some _ => raise (TypeError "object is not callable")
      end
  end.

(** The processes of one adapter: the one that built it and calls [run] and
    [shutdown] on it, and the workers that [run] has started.
    [multiprocessing.Process] gives a worker its own memory, holding the
    adapter as it was when the worker started. *)
Record System := {
  parent  : Process;
  workers : list Process
}.

(** [ApiAdapter.run]: the handle is built in the calling process, and a new
    process is started on [loop]. *)
Definition run (s : System) : System * outcome unit :=
  let p := parent s in
  let a := self p in
  match cls a with
  | Raise e => (s, Raise e)
  | Ok h =>
      let a' := {| api := Some h; cls := cls a; calls := calls a;
                   callback := callback a; keep_going := keep_going a;
                   thread := Some (List.length (workers s)) |} in
      let p' := {| self := a'; scheduler := scheduler p; clock := clock p;
                   trace := trace p |} in
      let worker := {| self := a'; scheduler := scheduler p;
                       clock := clock p; trace := [] |} in
      ({| parent := p'; workers := workers s ++ [worker] |}, Ok tt)
  end.

(** A call of [shutdown] made in the parent process, as [ApiMetaAdapter]
    does. *)
Definition shutdown_in_parent (s : System) : System * outcome unit :=
  let (p', r) := shutdown (parent s) in
  ({| parent := p'; workers := workers s |}, r).

(** The worker processes each go through at most [passes] passes. *)
Definition workers_loop (passes : nat) (s : System) : System :=
  {| parent := parent s;
     workers := map (fun w => fst (loop passes w)) (workers s) |}.

(** The name [mthd] hands to the request shaper: the operation name when the
    resolved action is callable, the resolved action itself when not. *)
Definition request_tag (th : Thunk) : obj :=
  match th_action th with
  | OCallable _ _ => OStr (th_callname th)
  | action => action
  end.

(** What [call] has done by the time it chooses between the scheduler and
    the call in place: it was entered, and it has logged the action it
    resolved, unless that is [None]. *)
Definition announced (callname : string) (action : obj) : list event :=
  Called callname ::
  match action with
  | ONone => []
  | _ => [Logged callname action]
  end.

Definition after_announcing (callname : string) (action : obj)
    (p : Process) : Process :=
  {| self := self p; scheduler := scheduler p; clock := clock p;
     trace := trace p ++ announced callname action |}.

(** A computation that leaves the adapter object as it is. *)
Definition keeps_self {A} (m : M A) : Prop :=
  forall p, self (fst (m p)) = self p.

(** How many times [call] was entered. *)
Definition dispatched (t : list event) : nat :=
  List.length (filter (fun e => match e with Called _ => true | _ => false end) t).

(** How many times a schema was asked to dump. *)
Definition dumps (t : list event) : nat :=
  List.length (filter (fun e => match e with Dumped _ _ => true | _ => false end) t).

(** How many times an action was invoked. *)
Definition invocations (t : list event) : nat :=
  List.length (filter (fun e => match e with Invoked _ _ => true | _ => false end) t).

(** What [mthd] invokes its action with, and what the action answers: a
    callable action is given the shaped request, the handle's [call] the
    action and the arguments as they came. *)
Definition action_argument (th : Thunk) (request args : value) : value :=
  match th_action th with
  | OCallable _ _ => request
  | _ => args
  end.

Definition action_answer (h : Handle) (th : Thunk) (request args : value)
  : outcome value :=
  match th_action th with
  | OCallable _ f => f request
  | action => api_call h action args
  end.

(** A message that interpolates the name [n], as a string or as the object
    a shaper was handed for a name; a message that interpolates a
    payload. *)
Definition carries_name (n : string) (msg : list (fragment obj)) : Prop :=
  In (FStr n) msg \/ In (FObj (OStr n)) msg.

Definition carries_payload (v : value) (msg : list (fragment obj)) : Prop :=
  In (FVal v) msg.

End Api.

(* ===================================================================== *)
(** ** nombot/api/services/ccxt.py: per-symbol calls, [CCXTApi], teardown  *)
(* ===================================================================== *)

Module Fanout.
Import Exchange.

(** An exchange object as the dataclass constructor fills it, before
    [__post_init__] has run. *)
Definition unloaded (name_ : string) (currencies_ : option (list string))
    (rate_limit_ : option nat) (client : Client) : CCXTExchange :=
  {| name := name_; currencies := currencies_; rate_limit := rate_limit_;
     _ex := client;
     avail_currencies := None; _currencies := None;
     avail_markets := None; markets := None;
     avail_symbols := None; symbols := None |}.

(** How an exchange takes the call that [call_over_syms] makes for one
    symbol: the symbol goes first among the arguments. *)
Definition symbol_answers (ex : CCXTExchange) (callname : string)
    (args : list value) (sym : string) : bool :=
  match Exchange.call ex callname (VStr sym :: args) with
  | Ok _ => true
  | Raise _ => false
  end.

Definition symbol_unavailable (ex : CCXTExchange) (callname : string)
    (args : list value) (sym : string) : bool :=
  match Exchange.call ex callname (VStr sym :: args) with
  | Ok _ => false
  | Raise e => is_exchange_failure e
  end.

(** The per-symbol calls of one exchange all answer or fail with one of the
    two exchange-error kinds. *)
Definition symbols_settle (callname : string) (args : list value)
    (ex : CCXTExchange) : Prop :=
  exists m, markets ex = Some m
            /\ forall sym, In sym (dict_keys m) ->
                  symbol_answers ex callname args sym
                  || symbol_unavailable ex callname args sym = true.

End Fanout.

Module CCXTApi.

(** The class attribute [local_overrides]. *)
Definition local_overrides : dict string :=
  [("fetch_order_book", "call_over_syms");
   ("default", "call_on_exchanges")].

(** What a dispatch hands back: one answer per exchange, or per exchange
    one answer per symbol. *)
Inductive results : Type :=
| ByExchange (r : dict value)
| BySymbol (r : dict (dict value)).

(** [getattr(self.ccxt, method)(callname, args...)] on a [CCXT] instance,
    whose methods are [call_on_exchanges], [call_over_syms] and [shutdown];
    the last one takes no argument. *)
Definition ccxt_method (method : string) (ccxt : CCXT.Instance)
    (cls : CCXT.Class) (callname : string) (args : list value)
  : outcome results :=
  if String.eqb method "call_on_exchanges" then
    match CCXT.call_on_exchanges ccxt cls callname args with
    | Ok r => Ok (ByExchange r)
    | Raise e => Raise e
    end
  else if String.eqb method "call_over_syms" then
    match CCXT.call_over_syms ccxt cls callname args with
    | Ok r => Ok (BySymbol r)
    | Raise e => Raise e
    end
  else if String.eqb method "shutdown" then
    Raise (TypeError "shutdown() takes 1 positional argument")
  else Raise (AttributeError method).

(** [CCXTApi.call], with [ccxt] for [self.ccxt]: the default is read before
    the table is asked for the call's name. *)
Definition call (ccxt : CCXT.Instance) (cls : CCXT.Class)
    (callname : string) (args : list value) : outcome results :=
  match dict_getitem local_overrides "default" with
  | Raise e => Raise e
  | Ok default =>
      let method := match dict_get local_overrides callname with
                    | Some m => m
                    | None => default
                    end in
      ccxt_method method ccxt cls callname args
  end.

End CCXTApi.

Module Teardown.
Import Exchange.

(** What closing connections changes.  [CCXTExchange.loop] is bound once,
    when the class body runs, so every exchange object reads the same event
    loop: [loop_closed] is that loop's state.  [closed] lists the clients
    whose [close] has returned, by exchange name. *)
Record World := {
  loop_closed : bool;
  closed      : list string
}.

Section Client_close.
(** What awaiting [close] on a client gives. *)
Variable client_close : Client -> outcome unit.

(** [CCXTExchange.close] *)
Definition close (self : CCXTExchange) (w : World) : World * outcome unit :=
  match client_close (_ex self) with
  | Ok _ => ({| loop_closed := loop_closed w;
                closed := closed w ++ [name self] |}, Ok tt)
  | Raise e => (w, Raise e)
  end.

(** [self.loop.run_until_complete(coro)]: a closed loop refuses with
    [RuntimeError] and the coroutine never starts. *)
Definition run_until_complete {A} (coro : World -> World * outcome A)
    (w : World) : World * outcome A :=
  if loop_closed w then (w, Raise (RuntimeError "Event loop is closed"))
  else coro w.

(** [self.loop.close()] *)
Definition loop_close (w : World) : World :=
  {| loop_closed := true; closed := closed w |}.

(** [CCXTExchange.shutdown] *)
Definition exchange_shutdown (self : CCXTExchange) (w : World)
  : World * outcome unit :=
  match run_until_complete (close self) w with
  | (w', Ok _) => (loop_close w', Ok tt)
  | (w', Raise e) => (w', Raise e)
  end.

(** The loop of [CCXT.shutdown] over the items of [self._ex]. *)
Fixpoint shutdown_all (exs : list CCXTExchange) (w : World)
  : World * outcome unit :=
  match exs with
  | [] => (w, Ok tt)
  | ex :: rest =>
      match exchange_shutdown ex w with
      | (w', Ok _) => shutdown_all rest w'
      | (w', Raise e) => (w', Raise e)
      end
  end.

(** [CCXT.shutdown] *)
Definition shutdown (self : CCXT.Instance) (cls : CCXT.Class) (w : World)
  : World * outcome unit :=
  shutdown_all (dict_values (CCXT.self_ex self cls)) w.
End Client_close.

End Teardown.

(* ===================================================================== *)
(** ** app/api.py: the scheduler seen from the calls                      *)
(* ===================================================================== *)

Module Schedule.
Import Api.

(** The same process with another queue and another clock. *)
Definition reschedule (q : list Event) (c : nat) (p : Process) : Process :=
  {| self := self p; scheduler := q; clock := c; trace := trace p |}.

(** A computation that neither reads nor writes the queue and the clock. *)
Definition ignores_schedule {A} (m : M A) : Prop :=
  forall q c p,
    m (reschedule q c p) = (reschedule q c (fst (m p)), snd (m p)).

(** One pass of [loop]: the configured calls, then [scheduler.run()]. *)
Definition pass : M unit :=
  fun p => (dispatch_calls (calls (self p)) ;;; scheduler_run)%py p.

End Schedule.

(* ===================================================================== *)
(** ** app/api.py: [ApiProduct.interface], [WsAdapter.run],               *)
(** ** [ApiMetaAdapter]                                                   *)
(* ===================================================================== *)

Module Meta.
Import Api.
Local Open Scope list_scope.

(** A context, as far as the adapters read it: what calling its [cls] entry
    gives, its [calls], its [callback], and the [subscriptions] of its
    [conf] ([None] when [conf] or its [subscriptions] are missing). *)
Record Context := {
  ctx_cls           : outcome Handle;
  ctx_calls         : dict CallData;
  ctx_callback      : option (value -> outcome unit);
  ctx_subscriptions : option (dict string)
}.

(** A new product, [ApiProduct.__init__], put through
    [interface(context)]. *)
Definition interface (context : Context) : Adapter :=
  {| api := None; cls := ctx_cls context; calls := ctx_calls context;
     callback := ctx_callback context; keep_going := true;
     thread := None |}.

(** [WsAdapter]: an [ApiProduct], and what its [run] reads from the
    context's [conf]. *)
Record WsAdapter := {
  product       : Adapter;
  subscriptions : option (dict string)
}.

Definition ws_interface (context : Context) : WsAdapter :=
  {| product := interface context;
     subscriptions := ctx_subscriptions context |}.

(** [ApiMetaAdapter] *)
Record ApiMetaAdapter := {
  apis   : list Adapter;
  wsocks : list WsAdapter
}.

(** Modelled from the spec: the creation functions [WsAdapterFactory] and
    [ApiAdapterFactory] derive from [common.factory.Creator], which is not
    among the sources; each hands back, as its [product], what its
    [_factory_method] returns, a new adapter.  The loop of
    [ApiMetaAdapter.__init__] over [contexts.items()]. *)
Fixpoint init_loop (contexts : list (string * Context))
    (self : ApiMetaAdapter) : ApiMetaAdapter :=
  match contexts with
  | [] => self
  | (_, context) :: rest =>
      let self := {| apis := apis self;
                     wsocks := wsocks self ++ [ws_interface context] |} in
      let self := {| apis := apis self ++ [interface context];
                     wsocks := wsocks self |} in
      init_loop rest self
  end.

(** [ApiMetaAdapter.__init__] *)
Definition __init__ (contexts : dict Context) : ApiMetaAdapter :=
  init_loop contexts {| apis := []; wsocks := [] |}.

(** The process a [WsAdapter] starts: the handle whose [connect_ws] it runs
    and the channels handed to it, each a channel name and the result type
    expected on it. *)
Record WsWorker := {
  ws_handle   : Handle;
  ws_channels : list (string * string)
}.

Definition with_api (a : Adapter) (h : Handle) (t : option nat) : Adapter :=
  {| api := Some h; cls := cls a; calls := calls a; callback := callback a;
     keep_going := keep_going a; thread := t |}.

(** [WsAdapter.run], when [started] processes of this kind run already.
    The handle is stored first; reading [connect_ws] or [on_ws_connect]
    off a handle without them, or the items of missing subscriptions,
    raises [AttributeError] and no process is started. *)
Definition ws_run (self : WsAdapter) (started : nat)
  : WsAdapter * outcome WsWorker :=
  match cls (product self) with
  | Raise e => (self, Raise e)
  | Ok h =>
      let stored := {| product := with_api (product self) h
                                           (thread (product self));
                       subscriptions := subscriptions self |} in
      match dict_get (attrs h) "connect_ws" with
      | None => (stored, Raise (AttributeError "connect_ws"))
      | Some _ =>
          match dict_get (attrs h) "on_ws_connect" with
          | None => (stored, Raise (AttributeError "on_ws_connect"))
          | Some _ =>
              match subscriptions self with
              | None => (stored, Raise (AttributeError "items"))
              | Some subs =>
                  ({| product := with_api (product self) h (Some started);
                      subscriptions := subscriptions self |},
                   Ok {| ws_handle := h; ws_channels := subs |})
              end
          end
      end
  end.

(** The memory of the process that holds the [ApiMetaAdapter], with the
    class-level scheduler of [ApiAdapter], and the processes started from
    it. *)
Record Machine := {
  meta        : ApiMetaAdapter;
  scheduler   : list Event;
  clock       : nat;
  ws_workers  : list WsWorker;
  api_workers : list Process
}.

(** The adapter as an object in the parent's memory. *)
Definition in_parent (m : Machine) (a : Adapter) : Process :=
  {| Api.self := a; Api.scheduler := scheduler m; Api.clock := clock m;
     Api.trace := [] |}.

(** [for wsock in self.wsocks: wsock.run()]: [kept] are the adapters gone
    through. *)
Fixpoint run_wsocks (todo kept : list WsAdapter) (workers : list WsWorker)
  : list WsAdapter * list WsWorker * outcome unit :=
  match todo with
  | [] => (kept, workers, Ok tt)
  | w :: rest =>
      match ws_run w (List.length workers) with
      | (w', Ok worker) =>
          run_wsocks rest (kept ++ [w']) (workers ++ [worker])
      | (w', Raise e) => (kept ++ w' :: rest, workers, Raise e)
      end
  end.

(** [for api in self.apis: api.run()], each through [ApiAdapter.run]. *)
Fixpoint run_apis (m : Machine) (todo kept : list Adapter)
    (workers : list Process)
  : list Adapter * list Process * outcome unit :=
  match todo with
  | [] => (kept, workers, Ok tt)
  | a :: rest =>
      match Api.run {| parent := in_parent m a; workers := workers |} with
      | (s, Ok _) =>
          run_apis m rest (kept ++ [Api.self (parent s)]) (Api.workers s)
      | (s, Raise e) =>
          (kept ++ Api.self (parent s) :: rest, Api.workers s, Raise e)
      end
  end.

(** [ApiMetaAdapter.run] *)
Definition run (m : Machine) : Machine * outcome unit :=
  match run_wsocks (wsocks (meta m)) [] (ws_workers m) with
  | (ws, wworkers, Raise e) =>
      ({| meta := {| apis := apis (meta m); wsocks := ws |};
          scheduler := scheduler m; clock := clock m;
          ws_workers := wworkers; api_workers := api_workers m |},
       Raise e)
  | (ws, wworkers, Ok _) =>
      match run_apis m (apis (meta m)) [] (api_workers m) with
      | (adapters, aworkers, r) =>
          ({| meta := {| apis := adapters; wsocks := ws |};
              scheduler := scheduler m; clock := clock m;
              ws_workers := wworkers; api_workers := aworkers |}, r)
      end
  end.

(** [ApiProduct.shutdown] on adapter after adapter. *)
Fixpoint shutdown_each (m : Machine) (todo kept : list Adapter)
  : list Adapter * outcome unit :=
  match todo with
  | [] => (kept, Ok tt)
  | a :: rest =>
      match Api.shutdown (in_parent m a) with
      | (p, Ok _) => shutdown_each m rest (kept ++ [Api.self p])
      | (p, Raise e) => (kept ++ Api.self p :: rest, Raise e)
      end
  end.

Definition with_product (w : WsAdapter) (a : Adapter) : WsAdapter :=
  {| product := a; subscriptions := subscriptions w |}.

(** [ApiMetaAdapter.shutdown]: the streaming adapters, then the scheduled
    ones.  The line it prints first, with the number of scheduled
    adapters, is left out. *)
Definition shutdown (m : Machine) : Machine * outcome unit :=
  match shutdown_each m (map product (wsocks (meta m))) [] with
  | (products, Raise e) =>
      ({| meta := {| apis := apis (meta m);
                     wsocks := map (fun wa => with_product (fst wa) (snd wa))
                                   (combine (wsocks (meta m)) products) |};
          scheduler := scheduler m; clock := clock m;
          ws_workers := ws_workers m; api_workers := api_workers m |},
       Raise e)
  | (products, Ok _) =>
      match shutdown_each m (apis (meta m)) [] with
      | (adapters, r) =>
          ({| meta := {| apis := adapters;
                         wsocks := map (fun wa =>
                                          with_product (fst wa) (snd wa))
                                       (combine (wsocks (meta m))
                                                products) |};
              scheduler := scheduler m; clock := clock m;
              ws_workers := ws_workers m; api_workers := api_workers m |},
           r)
      end
  end.

(** The machine in which an [ApiMetaAdapter] has just been built. *)
Definition boot (self : ApiMetaAdapter) : Machine :=
  {| meta := self; scheduler := []; clock := 0;
     ws_workers := []; api_workers := [] |}.

(** A context whose streaming adapter can start: the handle can be built
    and has both entry points, and the subscriptions are there. *)
Definition streams (context : Context) : bool :=
  match ctx_cls context, ctx_subscriptions context with
  | Ok h, Some _ =>
      match dict_get (attrs h) "connect_ws",
            dict_get (attrs h) "on_ws_connect" with
      | Some _, Some _ => true
      | _, _ => false
      end
  | _, _ => false
  end.

End Meta.

(* ===================================================================== *)
(** ** Concrete inputs                                                    *)
(* ===================================================================== *)

Module Sample.
Import Response.
Local Open Scope list_scope.

(** A context naming an operation that [RESPONSE_MAP] does not list. *)
Definition ctx_order_book : dict string := [("callname", "fetch_order_book")].

Definition ctx_ticker : dict string :=
  [("channel", "trades"); ("callname", "ticker")].

Definition data_plain : Loaded :=
  {| l_errors := None; l_result := Some (VDict [("last", VInt 42)]) |}.

Definition data_errors : Loaded :=
  {| l_errors := Some [("code", VInt 7)];
     l_result := Some (VDict [("last", VInt 42)]) |}.

(** Exchange B is healthy and trades three pairs, one of them a currency
    against itself; exchange A loads its markets but answers no call. *)
Definition catalogue_B : Exchange.Catalogue :=
  {| Exchange.cat_markets := [("BTC/USD", VStr "btc-usd");
                              ("USD/USD", VStr "usd-usd");
                              ("ETH/BTC", VStr "eth-btc")];
     Exchange.cat_currencies := Some [("BTC", VNone); ("ETH", VNone);
                                      ("USD", VNone)];
     Exchange.cat_symbols := Some ["BTC/USD"; "USD/USD"; "ETH/BTC"] |}.

Definition client_B : Exchange.Client :=
  {| Exchange.cl_name := "B"; Exchange.cl_rate_limit := None;
     Exchange.cl_enable_rate_limit := false;
     Exchange.cl_currencies := None; Exchange.cl_symbols := None;
     Exchange.cl_loads := 0;
     Exchange.cl_script := fun _ => Ok catalogue_B;
     Exchange.cl_invoke := fun _ _ => Ok (VStr "ticker of B") |}.

Definition client_A : Exchange.Client :=
  {| Exchange.cl_name := "A"; Exchange.cl_rate_limit := None;
     Exchange.cl_enable_rate_limit := false;
     Exchange.cl_currencies := None; Exchange.cl_symbols := None;
     Exchange.cl_loads := 0;
     Exchange.cl_script := fun _ => Ok catalogue_B;
     Exchange.cl_invoke :=
       fun _ _ => Raise (ExchangeNotAvailable "A is down") |}.

(** Exchange T answers with a [TypeError]. *)
Definition client_T : Exchange.Client :=
  {| Exchange.cl_name := "T"; Exchange.cl_rate_limit := None;
     Exchange.cl_enable_rate_limit := false;
     Exchange.cl_currencies := None; Exchange.cl_symbols := None;
     Exchange.cl_loads := 0;
     Exchange.cl_script := fun _ => Ok catalogue_B;
     Exchange.cl_invoke := fun _ _ => Raise (TypeError "bad arguments") |}.

Definition ccxt_class (n : string) : option Exchange.Client :=
  if String.eqb n "A" then Some client_A
  else if String.eqb n "B" then Some client_B
  else if String.eqb n "T" then Some client_T
  else None.

Definition ccxt_exchanges : list string := ["A"; "B"; "T"].

Definition usd_btc : option (list string) := Some ["USD"; "BTC"].

(** Exchange B as its constructor leaves it, configured for USD and BTC. *)
Definition exchange_B : Exchange.CCXTExchange :=
  match Exchange.__post_init__ ccxt_class "B" usd_btc None with
  | Ok ex => ex
  | Raise _ =>
      {| Exchange.name := "B"; Exchange.currencies := usd_btc;
         Exchange.rate_limit := None; Exchange._ex := client_B;
         Exchange.avail_currencies := None; Exchange._currencies := None;
         Exchange.avail_markets := None; Exchange.markets := None;
         Exchange.avail_symbols := None; Exchange.symbols := None |}
  end.

(** The class after one instance was built for exchange A and a second
    one for exchange B, and those two instances. *)
Definition after_first : CCXT.Class * outcome CCXT.Instance :=
  CCXT.__init__ ccxt_class ccxt_exchanges (Some ["A"]) usd_btc None
            CCXT.class_body.

Definition after_second : CCXT.Class * outcome CCXT.Instance :=
  CCXT.__init__ ccxt_class ccxt_exchanges (Some ["B"]) usd_btc None
            (fst after_first).

Definition an_instance : CCXT.Instance := {| CCXT.own_ex := None |}.

(** A schema that wraps what it dumps under [payload], and one that cannot
    dump. *)
Definition wrapping_schema : Api.SchemaObj :=
  {| Api.sch_context := [];
     Api.sch_dump := fun _ v =>
       Ok {| mr_data := VDict [("payload", v)]; mr_errors := VDict [] |} |}.

Definition broken_schema : Api.SchemaObj :=
  {| Api.sch_context := [];
     Api.sch_dump := fun _ _ => Raise (TypeError "cannot serialise") |}.

(** A handle with an override table that has an entry for [balances] only,
    and no method of its own. *)
Definition handle_with_table : Api.Handle :=
  {| Api.attrs :=
       [("ENDPOINT_OVERRIDES", ODict [("balances", OStr "getbalances")])];
     Api.api_call := fun _ _ => Ok (VStr "raw");
     Api.request_schema := Ok wrapping_schema;
     Api.result_schema := Ok wrapping_schema;
     Api.ws_result_schema := Ok wrapping_schema |}.

(** The same table on a handle whose schemas cannot dump. *)
Definition handle_table_broken : Api.Handle :=
  {| Api.attrs :=
       [("ENDPOINT_OVERRIDES", ODict [("balances", OStr "getbalances")])];
     Api.api_call := fun _ _ => Ok (VStr "raw");
     Api.request_schema := Ok broken_schema;
     Api.result_schema := Ok broken_schema;
     Api.ws_result_schema := Ok broken_schema |}.

(** A handle whose request schema dumps and whose result schema cannot. *)
Definition handle_result_broken : Api.Handle :=
  {| Api.attrs := [];
     Api.api_call := fun _ _ => Ok (VStr "raw");
     Api.request_schema := Ok wrapping_schema;
     Api.result_schema := Ok broken_schema;
     Api.ws_result_schema := Ok broken_schema |}.

(** A handle without an override table. *)
Definition handle_plain : Api.Handle :=
  {| Api.attrs := [];
     Api.api_call := fun _ _ => Ok (VStr "raw");
     Api.request_schema := Ok wrapping_schema;
     Api.result_schema := Ok wrapping_schema;
     Api.ws_result_schema := Ok wrapping_schema |}.

(** A handle whose request schema cannot dump. *)
Definition handle_broken : Api.Handle :=
  {| Api.attrs := [];
     Api.api_call := fun _ _ => Ok (VStr "raw");
     Api.request_schema := Ok broken_schema;
     Api.result_schema := Ok broken_schema;
     Api.ws_result_schema := Ok broken_schema |}.

Definition plain_call : Api.CallData :=
  {| Api.cd_arguments := VNone; Api.cd_delay := None;
     Api.cd_priority := None |}.

Definition adapter_of (h : Api.Handle)
    (cb : value -> outcome unit) : Api.Adapter :=
  {| Api.api := Some h; Api.cls := Ok h;
     Api.calls := [("ticker", plain_call)];
     Api.callback := Some cb; Api.keep_going := true;
     Api.thread := None |}.

Definition process_of (h : Api.Handle)
    (cb : value -> outcome unit) : Api.Process :=
  {| Api.self := adapter_of h cb; Api.scheduler := []; Api.clock := 0;
     Api.trace := [] |}.

Definition accepting : value -> outcome unit := fun _ => Ok tt.
Definition rejecting : value -> outcome unit :=
  fun _ => Raise (RuntimeError "strategy failed").

(** An adapter as the factory and [interface] leave it, before [run]. *)
Definition system_before_run : Api.System :=
  {| Api.parent :=
       {| Api.self := {| Api.api := None; Api.cls := Ok handle_plain;
                         Api.calls := [("ticker", plain_call)];
                         Api.callback := Some accepting;
                         Api.keep_going := true; Api.thread := None |};
          Api.scheduler := []; Api.clock := 0; Api.trace := [] |};
     Api.workers := [] |}.

Definition system_after_shutdown : Api.System :=
  fst (Api.shutdown_in_parent (fst (Api.run system_before_run))).

(** Exchange S trades what B trades, but answers no call about [USD/USD]. *)
Definition client_S : Exchange.Client :=
  {| Exchange.cl_name := "S"; Exchange.cl_rate_limit := None;
     Exchange.cl_enable_rate_limit := false;
     Exchange.cl_currencies := None; Exchange.cl_symbols := None;
     Exchange.cl_loads := 0;
     Exchange.cl_script := fun _ => Ok catalogue_B;
     Exchange.cl_invoke :=
       fun _ args =>
         match args with
         | VStr "USD/USD" :: _ => Raise (ExchangeError "no such market")
         | VStr sym :: _ => Ok (VStr ("book of " ++ sym))
         | _ => Ok (VStr "ticker of S")
         end |}.

(** Exchange G lists the symbol [BTC/USD] but returns no market for it. *)
Definition catalogue_G : Exchange.Catalogue :=
  {| Exchange.cat_markets := [("ETH/BTC", VStr "eth-btc")];
     Exchange.cat_currencies := Some [("BTC", VNone); ("USD", VNone)];
     Exchange.cat_symbols := Some ["BTC/USD"] |}.

Definition client_G : Exchange.Client :=
  {| Exchange.cl_name := "G"; Exchange.cl_rate_limit := None;
     Exchange.cl_enable_rate_limit := false;
     Exchange.cl_currencies := None; Exchange.cl_symbols := None;
     Exchange.cl_loads := 0;
     Exchange.cl_script := fun _ => Ok catalogue_G;
     Exchange.cl_invoke := fun _ _ => Ok (VStr "ticker of G") |}.

(** Exchange D cannot load its markets. *)
Definition client_D : Exchange.Client :=
  {| Exchange.cl_name := "D"; Exchange.cl_rate_limit := None;
     Exchange.cl_enable_rate_limit := false;
     Exchange.cl_currencies := None; Exchange.cl_symbols := None;
     Exchange.cl_loads := 0;
     Exchange.cl_script := fun _ => Raise (NetworkError "timed out");
     Exchange.cl_invoke := fun _ _ => Ok (VStr "ticker of D") |}.

(** A ccxt module that also knows S, G and D. *)
Definition ccxt_class_more (n : string) : option Exchange.Client :=
  if String.eqb n "S" then Some client_S
  else if String.eqb n "G" then Some client_G
  else if String.eqb n "D" then Some client_D
  else ccxt_class n.

(** Exchange S as its constructor leaves it, with a rate limit of 200. *)
Definition exchange_S : Exchange.CCXTExchange :=
  fst (Exchange.load false
         (Fanout.unloaded "S" usd_btc (Some 200)
            (Exchange.set_enable_rate_limit
               (Exchange.set_rate_limit client_S 200)))).

(** A class mapping that already holds B, then asked for B, the unknown
    exchange Z and A, in this order. *)
Definition class_with_B : CCXT.Class :=
  fst (CCXT.__init__ ccxt_class_more ccxt_exchanges (Some ["B"]) usd_btc None
                     CCXT.class_body).

(** The class after S and A were constructed, by one instance. *)
Definition class_S_A : CCXT.Class :=
  fst (CCXT.__init__ ccxt_class_more ccxt_exchanges (Some ["S"; "A"])
                     usd_btc None CCXT.class_body).

Definition closes_well : Exchange.Client -> outcome unit := fun _ => Ok tt.

Definition open_world : Teardown.World :=
  {| Teardown.loop_closed := false; Teardown.closed := [] |}.

(** An adapter with a call due in five time units and a plain call. *)
Definition delayed_call : Api.CallData :=
  {| Api.cd_arguments := VInt 3; Api.cd_delay := Some 5;
     Api.cd_priority := Some 1 |}.

Definition process_scheduled : Api.Process :=
  {| Api.self :=
       {| Api.api := Some handle_plain; Api.cls := Ok handle_plain;
          Api.calls := [("ticker", delayed_call); ("balances", plain_call)];
          Api.callback := Some accepting; Api.keep_going := true;
          Api.thread := None |};
     Api.scheduler := []; Api.clock := 0; Api.trace := [] |}.

(** An adapter with two plain calls on a handle whose schemas cannot
    dump. *)
Definition process_broken : Api.Process :=
  {| Api.self :=
       {| Api.api := Some handle_broken; Api.cls := Ok handle_broken;
          Api.calls := [("ticker", plain_call); ("balances", plain_call)];
          Api.callback := Some accepting; Api.keep_going := true;
          Api.thread := None |};
     Api.scheduler := []; Api.clock := 0; Api.trace := [] |}.

(** A handle with a method of its own for [ticker]. *)
Definition ticker_method : value -> outcome value :=
  fun request => Ok (VList [VStr "tick"; request]).

Definition handle_with_method : Api.Handle :=
  {| Api.attrs := [("ticker", OCallable "<bound method ticker>"
                                        ticker_method)];
     Api.api_call := fun _ _ => Ok (VStr "raw");
     Api.request_schema := Ok wrapping_schema;
     Api.result_schema := Ok wrapping_schema;
     Api.ws_result_schema := Ok wrapping_schema |}.

(** A handle with the two streaming entry points, and a context for it;
    and a context around [handle_plain], which has neither. *)
Definition handle_streaming : Api.Handle :=
  {| Api.attrs := [("connect_ws", OCallable "<bound method connect_ws>"
                                            (fun _ => Ok VNone));
                   ("on_ws_connect", OCallable "<bound method on_ws_connect>"
                                               (fun _ => Ok VNone))];
     Api.api_call := fun _ _ => Ok (VStr "raw");
     Api.request_schema := Ok wrapping_schema;
     Api.result_schema := Ok wrapping_schema;
     Api.ws_result_schema := Ok wrapping_schema |}.

Definition context_streaming : Meta.Context :=
  {| Meta.ctx_cls := Ok handle_streaming;
     Meta.ctx_calls := [("ticker", plain_call)];
     Meta.ctx_callback := Some accepting;
     Meta.ctx_subscriptions := Some [("trades", "ws_trade_ticker")] |}.

Definition context_rest : Meta.Context :=
  {| Meta.ctx_cls := Ok handle_plain;
     Meta.ctx_calls := [("ticker", plain_call)];
     Meta.ctx_callback := Some accepting;
     Meta.ctx_subscriptions := None |}.

(** A handle that streams and whose own [shutdown] raises, and a context
    for it. *)
Definition handle_failing : Api.Handle :=
  {| Api.attrs := [("connect_ws", OCallable "<bound method connect_ws>"
                                            (fun _ => Ok VNone));
                   ("on_ws_connect", OCallable "<bound method on_ws_connect>"
                                               (fun _ => Ok VNone));
                   ("shutdown",
                    OCallable "<bound method shutdown>"
                              (fun _ => Raise (RuntimeError
                                                 "Event loop is closed")))];
     Api.api_call := fun _ _ => Ok (VStr "raw");
     Api.request_schema := Ok wrapping_schema;
     Api.result_schema := Ok wrapping_schema;
     Api.ws_result_schema := Ok wrapping_schema |}.

Definition context_failing : Meta.Context :=
  {| Meta.ctx_cls := Ok handle_failing;
     Meta.ctx_calls := [("ticker", plain_call)];
     Meta.ctx_callback := Some accepting;
     Meta.ctx_subscriptions := Some [("trades", "ws_trade_ticker")] |}.

(** The orchestrator of one streaming context, after [run]. *)
Definition machine_running : Meta.Machine :=
  fst (Meta.run (Meta.boot (Meta.__init__ [("ws", context_streaming)]))).

(** The streaming adapter of a context, once it holds its handle. *)
Definition ws_running (c : Meta.Context) : Meta.WsAdapter :=
  match Meta.ctx_cls c with
  | Ok h => {| Meta.product := Meta.with_api (Meta.interface c) h (Some 0);
               Meta.subscriptions := Meta.ctx_subscriptions c |}
  | Raise _ => Meta.ws_interface c
  end.

(** An orchestrator whose second streaming adapter has a handle that
    raises in [shutdown]. *)
Definition machine_failing : Meta.Machine :=
  {| Meta.meta :=
       {| Meta.apis := [Meta.with_api (Meta.interface context_streaming)
                                      handle_streaming (Some 0)];
          Meta.wsocks := [ws_running context_streaming;
                          ws_running context_failing;
                          ws_running context_streaming] |};
     Meta.scheduler := []; Meta.clock := 0;
     Meta.ws_workers := []; Meta.api_workers := [] |}.

End Sample.

(* ===================================================================== *)
(** * Properties                                                          *)
(* ===================================================================== *)

(** ** Dictionaries *)

Module PyFacts.
Local Open Scope list_scope.

Section DictFacts.
Context {V : Type}.
Implicit Types (d : list (string * V)) (k : string) (v : V).

Lemma dict_get_set_same d k v : dict_get (dict_set d k v) k = Some v.
Proof.
  induction d as [|[k' v'] d IH]; simpl.
  - now rewrite String.eqb_refl.
  - destruct (String.eqb k' k) eqn:E; simpl; rewrite E; auto.
Qed.

Lemma dict_get_set_other d k k' v :
  k <> k' -> dict_get (dict_set d k v) k' = dict_get d k'.
Proof.
  intros Hne. induction d as [|[k0 v0] d IH]; simpl.
  - destruct (String.eqb_spec k k'); congruence.
  - destruct (String.eqb_spec k0 k) as [->|Hk]; simpl.
    + destruct (String.eqb_spec k k'); congruence.
    + now rewrite IH.
Qed.

Lemma dict_get_in_keys d k :
  dict_get d k <> None <-> In k (dict_keys d).
Proof.
  induction d as [|[k' v'] d IH]; simpl.
  - split; [congruence | tauto].
  - destruct (String.eqb_spec k' k) as [->|Hk].
    + split; [auto | congruence].
    + rewrite IH. split; [auto | intros [?|?]; [congruence | auto]].
Qed.

Lemma dict_mem_in_keys d k : dict_mem d k = true <-> In k (dict_keys d).
Proof.
  rewrite <- dict_get_in_keys. unfold dict_mem.
  destruct (dict_get d k); split; congruence.
Qed.

Lemma dict_keys_set_old d k v :
  In k (dict_keys d) -> dict_keys (dict_set d k v) = dict_keys d.
Proof.
  induction d as [|[k' v'] d IH]; simpl; [tauto|].
  intros H. destruct (String.eqb_spec k' k) as [->|Hk]; simpl; auto.
  f_equal. apply IH. destruct H; congruence.
Qed.

Lemma dict_keys_set_new d k v :
  ~ In k (dict_keys d) -> dict_keys (dict_set d k v) = dict_keys d ++ [k].
Proof.
  induction d as [|[k' v'] d IH]; simpl; auto.
  intros H. destruct (String.eqb_spec k' k) as [->|Hk]; simpl.
  - tauto.
  - f_equal. apply IH. tauto.
Qed.

Lemma dict_keys_set_incl d k v k' :
  In k' (dict_keys d) -> In k' (dict_keys (dict_set d k v)).
Proof.
  intros H. destruct (in_dec string_dec k (dict_keys d)) as [Hin|Hnin].
  - now rewrite dict_keys_set_old.
  - rewrite dict_keys_set_new by assumption. apply in_or_app. now left.
Qed.

Lemma dict_keys_set_key d k v : In k (dict_keys (dict_set d k v)).
Proof.
  apply dict_get_in_keys. rewrite dict_get_set_same. congruence.
Qed.

Lemma dict_keys_set_inv d k v k' :
  In k' (dict_keys (dict_set d k v)) -> k' = k \/ In k' (dict_keys d).
Proof.
  destruct (in_dec string_dec k (dict_keys d)) as [Hin|Hnin].
  - rewrite dict_keys_set_old by assumption. auto.
  - rewrite dict_keys_set_new by assumption. intros H.
    apply in_app_or in H. destruct H as [H|[H|[]]]; auto.
Qed.

Lemma dict_set_NoDup d k v :
  NoDup (dict_keys d) -> NoDup (dict_keys (dict_set d k v)).
Proof.
  intros H. destruct (in_dec string_dec k (dict_keys d)) as [Hin|Hnin].
  - now rewrite dict_keys_set_old.
  - rewrite dict_keys_set_new by assumption.
    apply NoDup_app; auto.
    + constructor; [intros [] | constructor].
    + intros x Hx [<-|[]]. contradiction.
Qed.

Lemma dict_values_keys_length d :
  List.length (dict_values d) = List.length (dict_keys d).
Proof. unfold dict_values, dict_keys. now rewrite !length_map. Qed.

End DictFacts.

Lemma str_in_In x l : str_in x l = true <-> In x l.
Proof.
  unfold str_in. rewrite existsb_exists. split.
  - intros [y [Hy E]]. apply String.eqb_eq in E. now subst.
  - intros H. exists x. split; auto. apply String.eqb_refl.
Qed.

End PyFacts.

(** ** The result shaper *)

Module ResponseFacts.
Import Response Sample.

(** Reading [RESPONSE_MAP] succeeds exactly on its thirteen keys. *)
Lemma response_schema_for_listed (cn : option string) :
  (exists schema, response_schema_for cn = Ok schema)
  <-> exists c, cn = Some c /\ In c (dict_keys RESPONSE_MAP).
Proof.
  unfold response_schema_for, dict_getitem. destruct cn as [c|].
  - split.
    + intros [schema H]. exists c. split; [reflexivity|].
      apply (proj1 (PyFacts.dict_get_in_keys RESPONSE_MAP c)).
      destruct (dict_get RESPONSE_MAP c); congruence.
    + intros [c' [E H]]. injection E as <-.
      apply (proj2 (PyFacts.dict_get_in_keys RESPONSE_MAP c)) in H.
      destruct (dict_get RESPONSE_MAP c) as [s|]; [eauto | congruence].
  - split; [intros [s H]; discriminate | intros [c [E _]]; discriminate].
Qed.

(** Whatever [populate_data] returns has [result] or [errors] empty, and a
    result that carries errors carries nothing else. *)
Lemma populate_data_never_both dump ctx data r :
  populate_data dump ctx data = Ok r ->
  (result r = None /\ errors r = l_errors data /\ l_errors data <> None
   /\ channel r = None /\ callname r = None)
  \/ (errors r = None /\ result r <> None /\ l_errors data = None).
Proof.
  unfold populate_data. destruct (l_errors data) as [e|] eqn:E.
  - intros H. injection H as <-. left. simpl. repeat split; congruence.
  - destruct (response_schema_for _); [|discriminate].
    destruct (dump _ _); [|discriminate].
    intros H. injection H as <-. right. simpl. repeat split; congruence.
Qed.

(** C4, as the code has it.  With errors in the loaded data the shaper
    returns a Result whose only set field is [errors].  Without them it
    returns a Result with [result] set and [errors] empty when the context's
    operation name is a key of [RESPONSE_MAP] and that schema's dump
    returns; when the name is no key of the table the lookup raises and no
    Result is produced.  No Result it returns has both fields set. *)
Theorem populate_data_result_or_errors :
  forall (dump : Schema -> value -> outcome MarshalResult)
         (ctx : dict string) (data : Loaded),
    (forall e, l_errors data = Some e ->
       populate_data dump ctx data =
       Ok {| channel := None; callname := None;
             result := None; errors := Some e |})
    /\ (forall schema dumped,
          l_errors data = None ->
          response_schema_for (dict_get ctx "callname") = Ok schema ->
          dump schema (get_result data) = Ok dumped ->
          populate_data dump ctx data =
          Ok {| channel := dict_get ctx "channel";
                callname := dict_get ctx "callname";
                result := Some dumped; errors := None |})
    /\ (forall e,
          l_errors data = None ->
          response_schema_for (dict_get ctx "callname") = Raise e ->
          populate_data dump ctx data = Raise e)
    /\ (forall r, populate_data dump ctx data = Ok r ->
          ~ (result r <> None /\ errors r <> None)).
Proof.
  intros dump ctx data. repeat split.
  - intros e E. unfold populate_data. now rewrite E.
  - intros schema dumped E Hs Hd. unfold populate_data.
    now rewrite E, Hs, Hd.
  - intros e E Hs. unfold populate_data. now rewrite E, Hs.
  - intros r H [Hr He].
    destruct (populate_data_never_both _ _ _ _ H) as [[? _]|[? _]]; congruence.
Qed.

(** The theorem at the ticker context, once with errors and once without. *)
Lemma populate_data_result_or_errors_witness :
  populate_data dump_echo ctx_ticker data_errors =
    Ok {| channel := None; callname := None; result := None;
          errors := Some [("code", VInt 7)] |}
  /\ populate_data dump_echo ctx_ticker data_plain =
    Ok {| channel := Some "trades"; callname := Some "ticker";
          result := Some {| mr_data := VDict [("last", VInt 42)];
                            mr_errors := VDict [] |};
          errors := None |}.
Proof.
  destruct (populate_data_result_or_errors dump_echo ctx_ticker data_errors)
    as [H1 _].
  destruct (populate_data_result_or_errors dump_echo ctx_ticker data_plain)
    as [_ [H2 _]].
  split.
  - apply H1. reflexivity.
  - apply (H2 {| schema_cls := "TickSchema"; many := false |});
      reflexivity.
Defined.

(** C4 as stated fails for a payload without errors under an operation name
    that [RESPONSE_MAP] does not list: the lookup raises [KeyError], so no
    Result, with or without a populated [result], is returned. *)
Lemma populate_data_unlisted_operation_raises :
  populate_data dump_echo ctx_order_book data_plain
    = Raise (KeyError (Some "fetch_order_book"))
  /\ l_errors data_plain = None
  /\ ~ (exists r, populate_data dump_echo ctx_order_book data_plain = Ok r
                  /\ result r <> None /\ errors r = None).
Proof.
  split; [reflexivity|]. split; [reflexivity|].
  intros [r [H _]]. discriminate H.
Qed.

End ResponseFacts.

(** ** The exchange metadata loader *)

Module ExchangeFacts.
Import Exchange Sample.
Local Open Scope list_scope.

Lemma derive_symbols_spec keys avail s :
  In s (derive_symbols keys avail) <->
  In s avail /\ exists a b, In a keys /\ In b keys /\ s = slash_join (a, b).
Proof.
  unfold derive_symbols, product. rewrite in_map_iff. split.
  - intros [[a b] [<- H]]. apply filter_In in H. destruct H as [Hp Hin].
    apply in_prod_iff in Hp. apply PyFacts.str_in_In in Hin.
    split; [assumption|]. exists a, b. tauto.
  - intros [Hin [a [b [Ha [Hb ->]]]]]. exists (a, b). split; [reflexivity|].
    apply filter_In. split.
    + now apply in_prod_iff.
    + now apply PyFacts.str_in_In.
Qed.

Lemma relevant_currencies_keys avail cs :
  forall acc k,
    In k (dict_keys (relevant_currencies avail cs acc)) ->
    In k (dict_keys acc) \/ (In k cs /\ In k (dict_keys avail)).
Proof.
  induction cs as [|c cs IH]; simpl; intros acc k H; [now left|].
  destruct (dict_get avail c) as [v|] eqn:E.
  - apply IH in H. destruct H as [H|[H1 H2]]; [|now right; auto].
    apply PyFacts.dict_keys_set_inv in H. destruct H as [->|H]; [|now left].
    right. split; [now left|].
    apply PyFacts.dict_get_in_keys. congruence.
  - apply IH in H. destruct H as [H|[H1 H2]]; [now left | now right; auto].
Qed.

(** The two invariants together. *)
Lemma with_client_keeps ex c :
  symbols_derived ex /\ currencies_configured ex ->
  symbols_derived (with_client ex c)
  /\ currencies_configured (with_client ex c).
Proof. intros H. exact H. Qed.

(** A load that gets its markets from the client leaves both in place. *)
Lemma load_computes reload ex c mk :
  load_markets (_ex ex) = (c, Ok mk) ->
  markets ex = None \/ reload = true ->
  symbols_derived (fst (load reload ex))
  /\ currencies_configured (fst (load reload ex)).
Proof.
  intros Hl Hgo. unfold load.
  assert (E : forall (A : Type) (x y : A),
             match markets ex, reload with
             | Some _, false => x
             | _, _ => y
             end = y).
  { intros A x y. destruct Hgo as [->| ->]; [reflexivity|].
    destruct (markets ex); reflexivity. }
  rewrite E, Hl. cbn [fst]. split.
  - eexists _, _, _. cbn. split; [reflexivity|]. split; [reflexivity|].
    split; [reflexivity|]. intros s. apply derive_symbols_spec.
  - eexists _, _. cbn. split; [reflexivity|]. split; [reflexivity|].
    intros a Ha. destruct (no_currencies (currencies ex)) eqn:N.
    + split; [assumption|]. intros cs Hcs Hne. rewrite Hcs in N.
      destruct cs; [congruence | discriminate].
    + apply relevant_currencies_keys in Ha.
      destruct Ha as [[]|[Ha1 Ha2]]. split; [assumption|].
      intros cs Hcs _. now rewrite Hcs in Ha1.
Qed.

Lemma load_keeps reload ex :
  symbols_derived ex /\ currencies_configured ex ->
  symbols_derived (fst (load reload ex))
  /\ currencies_configured (fst (load reload ex)).
Proof.
  intros H. destruct (load_markets (_ex ex)) as [c [mk|e]] eqn:Hl.
  - destruct (markets ex) as [m|] eqn:Hm.
    + destruct reload.
      * apply (load_computes _ _ _ _ Hl). now right.
      * unfold load. rewrite Hm. exact H.
    + apply (load_computes _ _ _ _ Hl). now left.
  - unfold load. destruct (markets ex), reload; rewrite ?Hl; cbn [fst];
      try exact H; now apply with_client_keeps.
Qed.

Lemma reachable_sound ccxt_class ex :
  reachable ccxt_class ex ->
  symbols_derived ex /\ currencies_configured ex.
Proof.
  induction 1 as [n cs rl ex H | reload ex _ IH].
  - unfold __post_init__ in H. destruct (ccxt_class n) as [fresh|]; [|discriminate].
    set (c := set_enable_rate_limit _) in H.
    set (self := Build_CCXTExchange _ _ _ _ _ _ _ _ _ _) in H.
    destruct (load false self) as [self' [u|e]] eqn:Hload; [|discriminate].
    injection H as <-.
    destruct (load_markets (_ex self)) as [c' [mk|e]] eqn:Hl.
    + replace self' with (fst (load false self)) by now rewrite Hload.
      apply (load_computes _ _ _ _ Hl). now left.
    + unfold load in Hload. cbn [markets self] in Hload.
      rewrite Hl in Hload. discriminate.
  - now apply load_keeps.
Qed.

(** C3.  On every exchange object that the constructor has returned, also
    after further loads, the derived symbols are available symbols, each is
    the join [a/b] of two keys [a], [b] of the configured-currency mapping
    [_currencies], and every such join that is available is derived, [a/a]
    included.  Those keys are available currencies, and configured ones when
    the caller configured any. *)
Theorem derived_symbols_within_available :
  forall (ccxt_class : string -> option Client) (ex : CCXTExchange),
    reachable ccxt_class ex ->
    exists syms avail cur,
      symbols ex = Some syms /\ avail_symbols ex = Some avail
      /\ _currencies ex = Some cur
      /\ (forall s, In s syms ->
            In s avail /\
            exists a b, In a (dict_keys cur) /\ In b (dict_keys cur)
                        /\ s = (a ++ "/" ++ b)%string)
      /\ (forall a b, In a (dict_keys cur) -> In b (dict_keys cur) ->
            In (a ++ "/" ++ b)%string avail ->
            In (a ++ "/" ++ b)%string syms)
      /\ (forall a cs, In a (dict_keys cur) ->
            currencies ex = Some cs -> cs <> [] -> In a cs).
Proof.
  intros ccxt_class ex R. apply reachable_sound in R.
  destruct R as [[syms [avail [cur [Hs [Ha [Hc Hspec]]]]]]
                 [avail' [cur' [_ [Hc' Hconf]]]]].
  exists syms, avail, cur. repeat split; try assumption.
  - now apply Hspec.
  - apply Hspec in H. exact (proj2 H).
  - intros a b Ha' Hb' Hin. apply Hspec. split; [assumption|].
    exists a, b. auto.
  - intros a cs Ha' Hcs Hne. rewrite Hc in Hc'. injection Hc' as <-.
    now apply (proj2 (Hconf a Ha') cs).
Qed.

(** The theorem at exchange B configured for USD and BTC: its universe is
    [USD/USD] and [BTC/USD]. *)
Lemma derived_symbols_within_available_witness :
  symbols exchange_B = Some ["USD/USD"; "BTC/USD"]
  /\ exists syms avail cur,
      symbols exchange_B = Some syms /\ avail_symbols exchange_B = Some avail
      /\ _currencies exchange_B = Some cur
      /\ (forall s, In s syms ->
            In s avail /\
            exists a b, In a (dict_keys cur) /\ In b (dict_keys cur)
                        /\ s = (a ++ "/" ++ b)%string)
      /\ (forall a b, In a (dict_keys cur) -> In b (dict_keys cur) ->
            In (a ++ "/" ++ b)%string avail ->
            In (a ++ "/" ++ b)%string syms)
      /\ (forall a cs, In a (dict_keys cur) ->
            currencies exchange_B = Some cs -> cs <> [] -> In a cs).
Proof.
  split; [reflexivity|].
  apply (derived_symbols_within_available ccxt_class exchange_B).
  apply (reach_new ccxt_class "B" usd_btc None). reflexivity.
Defined.

(** A load that ends well leaves [markets] set. *)
Lemma load_populates reload ex :
  snd (load reload ex) = Ok tt -> markets (fst (load reload ex)) <> None.
Proof.
  unfold load. destruct (markets ex) as [m|] eqn:Hm.
  - destruct reload.
    + destruct (load_markets (_ex ex)) as [c [mk|e]]; cbn; [|discriminate].
      destruct (restrict_markets _ _ _); [congruence | discriminate].
    + cbn. congruence.
  - destruct (load_markets (_ex ex)) as [c [mk|e]]; cbn; [|discriminate].
    destruct (restrict_markets _ _ _); [congruence | discriminate].
Qed.

(** C7.  On an exchange whose markets are populated, [load] without the
    reload flag returns at once: the exchange, its client and the client's
    count of [load_markets] calls included, is what it was. *)
Theorem load_again_is_noop :
  forall ex : CCXTExchange,
    markets ex <> None ->
    load false ex = (ex, Ok tt)
    /\ cl_loads (_ex (fst (load false ex))) = cl_loads (_ex ex)
    /\ _currencies (fst (load false ex)) = _currencies ex
    /\ markets (fst (load false ex)) = markets ex
    /\ symbols (fst (load false ex)) = symbols ex.
Proof.
  intros ex H.
  assert (E : load false ex = (ex, Ok tt)).
  { unfold load. destruct (markets ex); [reflexivity | congruence]. }
  rewrite E. cbn [fst]. repeat split.
Qed.

Lemma load_again_is_noop_witness :
  markets exchange_B <> None
  /\ load false exchange_B = (exchange_B, Ok tt)
  /\ cl_loads (_ex exchange_B) = 1.
Proof.
  assert (H : markets exchange_B <> None) by (vm_compute; discriminate).
  split; [exact H|]. split.
  - exact (proj1 (load_again_is_noop exchange_B H)).
  - reflexivity.
Defined.

(** After any load that ended well, a load without the flag changes
    nothing. *)
Lemma load_idempotent reload ex :
  snd (load reload ex) = Ok tt ->
  load false (fst (load reload ex)) = (fst (load reload ex), Ok tt).
Proof.
  intros H. apply load_populates in H.
  unfold load at 1. destruct (markets (fst (load reload ex)));
    [reflexivity | congruence].
Qed.

(** With the flag the client is asked again. *)
Lemma load_reload_asks_client ex :
  cl_loads (_ex (fst (load true ex))) = S (cl_loads (_ex ex)).
Proof.
  unfold load, load_markets.
  destruct (markets ex); destruct (cl_script _ _); reflexivity.
Qed.

End ExchangeFacts.

(** ** The fan-out dispatcher *)

Module CCXTFacts.
Import Exchange CCXT Sample.
Local Open Scope list_scope.

Lemma load_keeps_name reload ex : name (fst (load reload ex)) = name ex.
Proof.
  unfold load. destruct (markets ex), reload;
    destruct (load_markets (Exchange._ex ex)) as [c [mk|e]]; reflexivity.
Qed.

Lemma post_init_name ccxt_class n cs rl ex :
  __post_init__ ccxt_class n cs rl = Ok ex -> name ex = n.
Proof.
  unfold __post_init__. destruct (ccxt_class n) as [fresh|]; [|discriminate].
  match goal with
  | |- context [load false ?s] =>
      pose proof (load_keeps_name false s) as Hn;
      destruct (load false s) as [self' [u|e]]
  end; [|discriminate].
  intros H. injection H as <-. exact Hn.
Qed.

Lemma keyed_by_name_set d exch ex :
  keyed_by_name d -> name ex = exch -> keyed_by_name (dict_set d exch ex).
Proof.
  intros [Hnd Hall] <-. split; [now apply PyFacts.dict_set_NoDup|].
  clear Hnd. induction Hall as [|[k v] d Hkv Hrest IH]; simpl.
  - constructor; [reflexivity | constructor].
  - destruct (String.eqb_spec k (name ex)) as [->|Hk].
    + constructor; [reflexivity | assumption].
    + constructor; assumption.
Qed.

Lemma keyed_by_name_distinct d :
  keyed_by_name d -> NoDup (map name (dict_values d)).
Proof.
  intros [Hnd Hall].
  replace (map name (dict_values d)) with (dict_keys d); [assumption|].
  unfold dict_keys, dict_values. rewrite map_map. clear Hnd.
  induction Hall as [|[k v] d Hkv _ IH]; simpl; [reflexivity|].
  simpl in Hkv. now rewrite Hkv, IH.
Qed.

Section Constructions.
Variable ccxt_class : string -> option Client.
Variable ccxt_exchanges : list string.

(** The loop of [__init__] on an instance without a binding of its own:
    the instance stays without one, and the class mapping takes every
    exchange constructed, keeping what it held. *)
Lemma init_loop_writes_class exchanges symbols rl :
  forall cls self' cls' r,
    init_loop ccxt_class exchanges symbols rl {| own_ex := None |} cls
      = (self', cls', r) ->
    self' = {| own_ex := None |}
    /\ (keyed_by_name (_ex cls) -> keyed_by_name (_ex cls'))
    /\ (forall n, In n (dict_keys (_ex cls)) -> In n (dict_keys (_ex cls')))
    /\ (r = Ok tt ->
        forall n, In n exchanges -> In n (dict_keys (_ex cls'))).
Proof.
  induction exchanges as [|exch rest IH]; simpl; intros cls self' cls' r H.
  - injection H as <- <- <-.
    refine (conj eq_refl (conj (fun K => K) (conj (fun n K => K) _))).
    intros _ n [].
  - destruct (__post_init__ ccxt_class exch symbols rl) as [ex|e] eqn:Hp.
    + cbn in H. apply IH in H. destruct H as [Hs [Hk [Hold Hnew]]].
      cbn in Hk, Hold, Hnew. refine (conj Hs (conj _ (conj _ _))).
      * intros K. apply Hk. apply keyed_by_name_set; [assumption|].
        now apply post_init_name in Hp.
      * intros n Hn. apply Hold. now apply PyFacts.dict_keys_set_incl.
      * intros Hr n [<-|Hn]; [|now apply Hnew].
        apply Hold. apply PyFacts.dict_keys_set_key.
    + injection H as <- <- <-.
      refine (conj eq_refl (conj (fun K => K) (conj (fun n K => K) _))).
      discriminate.
Qed.

Lemma init_writes_class exchanges symbols rl cls cls' self :
  __init__ ccxt_class ccxt_exchanges exchanges symbols rl cls = (cls', Ok self) ->
  own_ex self = None
  /\ (keyed_by_name (_ex cls) -> keyed_by_name (_ex cls'))
  /\ (forall n, In n (dict_keys (_ex cls)) -> In n (dict_keys (_ex cls')))
  /\ (forall n, In n (exchanges_or_all ccxt_exchanges exchanges) ->
                In n (dict_keys (_ex cls'))).
Proof.
  unfold __init__.
  destruct (init_loop _ _ _ _ _ _) as [[self0 cls0] [u|e]] eqn:Hl;
    intros H; [|discriminate].
  injection H as <- <-. destruct u.
  apply init_loop_writes_class in Hl. destruct Hl as [-> [Hk [Hold Hnew]]].
  refine (conj eq_refl (conj Hk (conj Hold (Hnew eq_refl)))).
Qed.

End Constructions.

Lemma class_body_keyed : keyed_by_name (_ex class_body).
Proof. split; constructor. Qed.

Section Dispatch.
Variable callname : string.
Variable args : list value.

(** When every exchange answers or is unavailable, the loop ends well, with
    one new entry per answering exchange, in order. *)
Lemma on_exchanges_partial exs :
  forall results,
    NoDup (map name exs) ->
    (forall ex, In ex exs -> ~ In (name ex) (dict_keys results)) ->
    (forall ex, In ex exs ->
       answers callname args ex || unavailable callname args ex = true) ->
    exists results',
      on_exchanges exs callname args results = Ok results'
      /\ dict_keys results' =
         dict_keys results ++ map name (filter (answers callname args) exs)
      /\ (forall k, In k (dict_keys results) ->
            ~ In k (map name exs) -> dict_get results' k = dict_get results k)
      /\ (forall ex, In ex exs -> answers callname args ex = true ->
            Ok (A:=value) (O:=obj)
               (match dict_get results' (name ex) with
                | Some r => r
                | None => VNone
                end) = Exchange.call ex callname args
            /\ dict_get results' (name ex) <> None).
Proof.
  induction exs as [|ex exs IH]; intros results Hnd Hfresh Hsoft.
  - exists results. simpl. rewrite app_nil_r.
    refine (conj eq_refl (conj eq_refl (conj (fun _ _ _ => eq_refl) _))).
    intros ex0 [].
  - simpl in Hnd. inversion Hnd as [|? ? Hnot Hnd']; subst.
    assert (Hex := Hsoft ex (or_introl eq_refl)).
    simpl. unfold answers, unavailable in Hex |- *.
    destruct (Exchange.call ex callname args) as [r|e] eqn:Hc.
    + destruct (IH (dict_set results (name ex) r)) as [res' [H1 [H2 [H3 H4]]]].
      * assumption.
      * intros ex' Hin Hk. apply PyFacts.dict_keys_set_inv in Hk.
        destruct Hk as [Hk|Hk].
        -- apply Hnot. rewrite <- Hk. now apply in_map.
        -- apply (Hfresh ex'); [now right | assumption].
      * intros ex' Hin. apply Hsoft. now right.
      * exists res'. split; [assumption|]. split.
        -- rewrite H2, PyFacts.dict_keys_set_new
             by (apply Hfresh; now left).
           now rewrite <- app_assoc.
        -- split.
           ++ intros k Hk Hnk. rewrite H3.
              ** apply PyFacts.dict_get_set_other. intros E. apply Hnk.
                 now left.
              ** now apply PyFacts.dict_keys_set_incl.
              ** intros Hin. apply Hnk. now right.
           ++ intros ex' [<-|Hin] Ha.
              ** rewrite H3, PyFacts.dict_get_set_same.
                 --- rewrite Hc. split; [reflexivity | congruence].
                 --- apply PyFacts.dict_keys_set_key.
                 --- assumption.
              ** now apply H4.
    + simpl in Hex. rewrite Hex.
      destruct (IH results) as [res' [H1 [H2 [H3 H4]]]].
      * assumption.
      * intros ex' Hin. apply Hfresh. now right.
      * intros ex' Hin. apply Hsoft. now right.
      * exists res'. split; [assumption|]. split; [assumption|]. split.
        -- intros k Hk Hnk. apply H3; [assumption|].
           intros Hin. apply Hnk. now right.
        -- intros ex' [<-|Hin] Ha; [|now apply H4].
           rewrite Hc in Ha. discriminate.
Qed.

(** An exception that leaves the loop is none of the two exchange-error
    kinds, and it is what one of the exchanges raised. *)
Lemma on_exchanges_raises exs :
  forall results e,
    on_exchanges exs callname args results = Raise e ->
    is_exchange_failure e = false
    /\ exists ex, In ex exs /\ Exchange.call ex callname args = Raise e.
Proof.
  induction exs as [|ex exs IH]; simpl; intros results e H; [discriminate|].
  destruct (Exchange.call ex callname args) as [r|e'] eqn:Hc.
  - apply IH in H. destruct H as [H1 [ex' [H2 H3]]]. eauto.
  - destruct (is_exchange_failure e') eqn:Hf.
    + apply IH in H. destruct H as [H1 [ex' [H2 H3]]]. eauto.
    + injection H as <-. eauto.
Qed.

(** One exchange failing in another way makes the whole loop fail. *)
Lemma on_exchanges_aborts exs :
  forall results ex,
    In ex exs ->
    answers callname args ex = false ->
    unavailable callname args ex = false ->
    exists e, on_exchanges exs callname args results = Raise e.
Proof.
  induction exs as [|ex0 exs IH]; simpl; intros results ex Hin Ha Hu;
    [contradiction|].
  destruct (Exchange.call ex0 callname args) as [r|e'] eqn:Hc.
  - destruct Hin as [->|Hin]; [|now apply (IH _ ex)].
    unfold answers in Ha. rewrite Hc in Ha. discriminate.
  - destruct (is_exchange_failure e') eqn:Hf.
    + destruct Hin as [->|Hin]; [|now apply (IH _ ex)].
      unfold unavailable in Hu. rewrite Hc in Hu. congruence.
    + eauto.
Qed.

Lemma filter_split_length exs :
  (forall ex, In ex exs ->
     answers callname args ex || unavailable callname args ex = true) ->
  List.length (filter (answers callname args) exs)
  = List.length exs - List.length (filter (unavailable callname args) exs).
Proof.
  induction exs as [|ex exs IH]; intros H; [reflexivity|].
  assert (Hex := H ex (or_introl eq_refl)).
  assert (IH' := IH (fun ex' Hin => H ex' (or_intror Hin))).
  assert (Hle := filter_length_le (unavailable callname args) exs).
  cbn [filter]. unfold answers, unavailable in *.
  destruct (Exchange.call ex callname args) as [r|e].
  - cbn [List.length]. rewrite IH'. lia.
  - cbn [orb] in Hex. rewrite Hex. cbn [List.length]. rewrite IH'. lia.
Qed.

End Dispatch.



(** An exchange whose client raises [TypeError] makes the dispatch fail with
    the [AttributeError] that [CCXTExchange.call] turns it into. *)
Example call_on_exchanges_aborts_on_type_error :
  call_on_exchanges an_instance
    (fst (__init__ ccxt_class ccxt_exchanges None usd_btc None class_body))
    "fetch_ticker" []
  = Raise (AttributeError
             "Failed to execute call fetch_ticker on exchange T").
Proof. reflexivity. Qed.

(** What the constructor builds is keyed by name, so that the names met by
    the dispatch are distinct. *)
Lemma init_keeps_names_distinct ccxt_class ccxt_exchanges
    exchanges symbols rl cls cls' self :
  keyed_by_name (_ex cls) ->
  __init__ ccxt_class ccxt_exchanges exchanges symbols rl cls = (cls', Ok self) ->
  keyed_by_name (_ex cls')
  /\ NoDup (map name (dict_values (self_ex self cls'))).
Proof.
  intros K H. apply init_writes_class in H.
  destruct H as [Hown [Hk _]]. split; [now apply Hk|].
  unfold self_ex. rewrite Hown. apply keyed_by_name_distinct. now apply Hk.
Qed.

(** C9.  After two constructions that both ended well, either instance
    reads the class's one mapping; it holds the exchanges of both
    constructions besides what it held before, and a dispatch through the
    first instance is the dispatch through the second. *)
Theorem class_mapping_is_shared :
  forall (ccxt_class : string -> option Client) (ccxt_exchanges : list string)
         (exchanges1 symbols1 : option (list string)) (rate_limit1 : option nat)
         (exchanges2 symbols2 : option (list string)) (rate_limit2 : option nat)
         (cls0 cls1 cls2 : Class) (first second : Instance),
    __init__ ccxt_class ccxt_exchanges exchanges1 symbols1 rate_limit1 cls0
      = (cls1, Ok first) ->
    __init__ ccxt_class ccxt_exchanges exchanges2 symbols2 rate_limit2 cls1
      = (cls2, Ok second) ->
    self_ex first cls2 = _ex cls2
    /\ self_ex second cls2 = _ex cls2
    /\ (forall n,
          In n (exchanges_or_all ccxt_exchanges exchanges1)
          \/ In n (exchanges_or_all ccxt_exchanges exchanges2)
          \/ In n (dict_keys (_ex cls0)) ->
          In n (dict_keys (self_ex first cls2)))
    /\ (forall callname args,
          call_on_exchanges first cls2 callname args
          = on_exchanges (dict_values (_ex cls2)) callname args [])
    /\ (forall callname args,
          call_on_exchanges first cls2 callname args
          = call_on_exchanges second cls2 callname args).
Proof.
  intros ccxt_class ccxt_exchanges e1 s1 r1 e2 s2 r2 cls0 cls1 cls2
         first second H1 H2.
  apply init_writes_class in H1. destruct H1 as [Ho1 [_ [Hold1 Hnew1]]].
  apply init_writes_class in H2. destruct H2 as [Ho2 [_ [Hold2 Hnew2]]].
  assert (E1 : self_ex first cls2 = _ex cls2)
    by (unfold self_ex; now rewrite Ho1).
  assert (E2 : self_ex second cls2 = _ex cls2)
    by (unfold self_ex; now rewrite Ho2).
  split; [exact E1|]. split; [exact E2|]. split; [|split].
  - rewrite E1. intros n [H|[H|H]]; auto.
  - intros callname args. unfold call_on_exchanges. now rewrite E1.
  - intros callname args. unfold call_on_exchanges. now rewrite E1, E2.
Qed.

(** The theorem with a first instance built for A alone and a second for B
    alone: a dispatch through the first instance returns B's ticker. *)
Lemma class_mapping_is_shared_witness :
  (exists first second,
      snd after_first = Ok first /\ snd after_second = Ok second
      /\ dict_keys (self_ex first (fst after_second)) = ["A"; "B"]
      /\ call_on_exchanges first (fst after_second) "fetch_ticker" []
         = Ok [("B", VStr "ticker of B")])
  /\ forall callname args,
      call_on_exchanges an_instance (fst after_second) callname args
      = on_exchanges (dict_values (_ex (fst after_second))) callname args [].
Proof.
  split.
  - exists an_instance, an_instance. repeat split; reflexivity.
  - apply (class_mapping_is_shared ccxt_class ccxt_exchanges
             (Some ["A"]) usd_btc None (Some ["B"]) usd_btc None
             class_body (fst after_first) (fst after_second)
             an_instance an_instance); reflexivity.
Defined.

End CCXTFacts.

(** ** The adapters *)

Module ApiFacts.
Import Response Api Sample.
Local Open Scope list_scope.

(** *** What leaves the adapter object alone *)

Lemma keeps_self_ret {A} (a : A) : keeps_self (ret a).
Proof. intros p. reflexivity. Qed.

Lemma keeps_self_raise {A} (e : exn) : keeps_self (raise (A:=A) e).
Proof. intros p. reflexivity. Qed.

Lemma keeps_self_lift {A} (o : outcome A) : keeps_self (lift o).
Proof. intros p. reflexivity. Qed.

Lemma keeps_self_emit (e : event) : keeps_self (emit e).
Proof. intros p. reflexivity. Qed.

Lemma keeps_self_get : keeps_self get_self.
Proof. intros p. reflexivity. Qed.

Lemma keeps_self_bind {A B} (m : M A) (k : A -> M B) :
  keeps_self m -> (forall a, keeps_self (k a)) -> keeps_self (bind m k).
Proof.
  intros Hm Hk p. unfold bind. specialize (Hm p).
  destruct (m p) as [p' [a|e]]; cbn [fst] in *.
  - now rewrite Hk.
  - exact Hm.
Qed.

Lemma keeps_self_try {A} (m : M A) (h : exn -> M A) :
  keeps_self m -> (forall e, keeps_self (h e)) -> keeps_self (try_except m h).
Proof.
  intros Hm Hh p. unfold try_except. specialize (Hm p).
  destruct (m p) as [p' [a|e]]; cbn [fst] in *.
  - exact Hm.
  - now rewrite Hh.
Qed.

Create HintDb keeps.
#[local] Hint Resolve keeps_self_ret keeps_self_raise keeps_self_lift
  keeps_self_emit keeps_self_get : keeps.

Ltac keeps :=
  repeat first
    [ apply keeps_self_bind; [|intros ?]
    | apply keeps_self_try; [|intros ?]
    | solve [auto with keeps]
    | match goal with
      | |- keeps_self (match ?x with _ => _ end) => destruct x
      | |- keeps_self (if ?b then _ else _) => destruct b
      end ].

Lemma keeps_self_the_api : keeps_self the_api.
Proof. unfold the_api. keeps. Qed.
#[local] Hint Resolve keeps_self_the_api : keeps.

Lemma keeps_self_callback data : keeps_self (call_callback data).
Proof. unfold call_callback. keeps. Qed.
#[local] Hint Resolve keeps_self_callback : keeps.

Lemma keeps_self_generate_request tag request :
  keeps_self (_generate_request tag request).
Proof. unfold _generate_request, request_try. keeps. Qed.

Lemma keeps_self_generate_result callname result :
  keeps_self (_generate_result callname result).
Proof. unfold _generate_result, result_try. keeps. Qed.
#[local] Hint Resolve keeps_self_generate_request
  keeps_self_generate_result : keeps.

Lemma keeps_self_mthd th args : keeps_self (mthd th args).
Proof. unfold mthd. keeps. Qed.
#[local] Hint Resolve keeps_self_mthd : keeps.

Lemma keeps_self_enter kw : keeps_self (scheduler_enter kw).
Proof.
  unfold scheduler_enter.
  destruct (sa_delay kw), (sa_priority kw), (sa_action kw);
    auto with keeps; intros p; reflexivity.
Qed.
#[local] Hint Resolve keeps_self_enter : keeps.

Lemma keeps_self_call callname arguments delay priority :
  keeps_self (call callname arguments delay priority).
Proof. unfold call. keeps. Qed.
#[local] Hint Resolve keeps_self_call : keeps.

Lemma keeps_self_apply th argument : keeps_self (apply_mthd th argument).
Proof.
  unfold apply_mthd. destruct argument as [|a [|b rest]]; auto with keeps.
Qed.
#[local] Hint Resolve keeps_self_apply : keeps.

Lemma keeps_self_run_events evs : keeps_self (run_events evs).
Proof.
  induction evs as [|e rest IH]; simpl; [auto with keeps|].
  apply keeps_self_bind; [intros p; reflexivity | intros _].
  apply keeps_self_bind; [auto with keeps | intros _; exact IH].
Qed.

Lemma keeps_self_scheduler_run : keeps_self scheduler_run.
Proof. intros p. unfold scheduler_run. apply keeps_self_run_events. Qed.

Lemma keeps_self_dispatch cs : keeps_self (dispatch_calls cs).
Proof.
  induction cs as [|[callname calldata] rest IH]; simpl; [auto with keeps|].
  apply keeps_self_bind; [auto with keeps | intros _; exact IH].
Qed.

(** A pass of [loop] never writes the flag, so the loop of a process whose
    flag is set goes on for as long as it is run, unless a call raises. *)
Lemma loop_never_leaves passes :
  forall p, keep_going (self p) = true ->
            snd (loop passes p) <> Ok Left_loop
            /\ keep_going (self (fst (loop passes p))) = true.
Proof.
  induction passes as [|n IH]; intros p Hk; simpl; rewrite Hk.
  - split; [discriminate | exact Hk].
  - unfold bind.
    pose proof (keeps_self_dispatch (calls (self p)) p) as Hd.
    destruct (dispatch_calls (calls (self p)) p) as [p1 [u|e]];
      cbn [fst snd] in *.
    + pose proof (keeps_self_scheduler_run p1) as Hs.
      destruct (scheduler_run p1) as [p2 [u'|e]]; cbn [fst snd] in *.
      * apply IH. now rewrite Hs, Hd.
      * split; [discriminate | now rewrite Hs, Hd].
    + split; [discriminate | now rewrite Hd].
Qed.

(** [shutdown] clears the flag of the adapter object it is called on. *)
Lemma shutdown_clears_flag p : keep_going (self (fst (shutdown p))) = false.
Proof.
  unfold shutdown, bind, get_self, put_self. cbn.
  destruct (api (self p)) as [h|]; [|reflexivity].
  destruct (dict_get (attrs h) "shutdown") as [[| | |repr f]|];
    try reflexivity.
  unfold lift. destruct (f VNone); reflexivity.
Qed.

(** A loop that finds the flag cleared makes no pass. *)
Lemma loop_leaves_when_cleared passes p :
  keep_going (self p) = false -> loop passes p = (p, Ok Left_loop).
Proof. intros H. destruct passes; simpl; now rewrite H. Qed.

(** So a [shutdown] made in the memory of the process that loops ends the
    loop at its next test, with no call dispatched after it. *)
Lemma shutdown_in_own_process_ends_loop passes p :
  loop passes (fst (shutdown p)) = (fst (shutdown p), Ok Left_loop).
Proof. apply loop_leaves_when_cleared, shutdown_clears_flag. Qed.

(** [run] starts one worker, with the flag and the calls of the adapter
    it was called on. *)
Lemma run_starts_worker s s1 :
  run s = (s1, Ok tt) ->
  exists w, workers s1 = workers s ++ [w]
            /\ keep_going (self w) = keep_going (self (parent s))
            /\ calls (self w) = calls (self (parent s)).
Proof.
  unfold run. destruct (cls (self (parent s))) as [h|e]; [|discriminate].
  intros H. injection H as <-. eexists. cbn. repeat split.
Qed.

(** A [shutdown] in the parent clears the parent's flag and touches no
    worker. *)
Lemma shutdown_in_parent_spec s1 s2 r :
  shutdown_in_parent s1 = (s2, r) ->
  keep_going (self (parent s2)) = false /\ workers s2 = workers s1.
Proof.
  unfold shutdown_in_parent.
  pose proof (shutdown_clears_flag (parent s1)) as Hc.
  destruct (shutdown (parent s1)) as [p' r']. intros H.
  injection H as <- <-. split; [exact Hc | reflexivity].
Qed.

(** C8, the part the code keeps: called in the worker's own memory,
    [shutdown] would end the loop at its next test.  The part it misses:
    [run] starts the loop in a process of its own, and a [shutdown] called in
    the parent, whose flag it clears, never reaches the worker's copy of the
    adapter; the worker's loop goes into a further pass however often it is
    run. *)
Theorem shutdown_in_parent_misses_worker :
  forall (s s1 s2 : System) (r : outcome unit),
    keep_going (self (parent s)) = true ->
    run s = (s1, Ok tt) ->
    shutdown_in_parent s1 = (s2, r) ->
    keep_going (self (parent s2)) = false
    /\ workers s2 = workers s1
    /\ exists w,
        In w (workers s2)
        /\ keep_going (self w) = true
        /\ calls (self w) = calls (self (parent s))
        /\ forall passes,
            snd (loop passes w) <> Ok Left_loop
            /\ loop (S passes) w
               = (dispatch_calls (calls (self w)) ;;;
                  scheduler_run ;;;
                  loop passes) w.
Proof.
  intros s s1 s2 r Hk Hrun Hsh.
  destruct (run_starts_worker _ _ Hrun) as [w [Hw [Hwk Hwc]]].
  destruct (shutdown_in_parent_spec _ _ _ Hsh) as [Hp Hws].
  split; [exact Hp|]. split; [exact Hws|].
  exists w. rewrite Hws, Hw. split; [apply in_or_app; right; now left|].
  rewrite Hwk. split; [exact Hk|]. split; [exact Hwc|].
  intros passes. split.
  - apply loop_never_leaves. now rewrite Hwk.
  - cbn [loop]. now rewrite Hwk, Hk.
Qed.

(** The theorem on an adapter with one plain call: after the parent's
    [shutdown] the worker still makes every pass it is given, three calls in
    three passes. *)
Lemma shutdown_in_parent_misses_worker_witness :
  map (fun w => dispatched (trace w))
      (workers (workers_loop 3 system_after_shutdown)) = [3]
  /\ keep_going (self (parent system_after_shutdown)) = false
  /\ workers system_after_shutdown = workers (fst (run system_before_run))
  /\ exists w,
      In w (workers system_after_shutdown)
      /\ keep_going (self w) = true
      /\ calls (self w) = calls (self (parent system_before_run))
      /\ forall passes,
          snd (loop passes w) <> Ok Left_loop
          /\ loop (S passes) w
             = (dispatch_calls (calls (self w)) ;;;
                scheduler_run ;;;
                loop passes) w.
Proof.
  split; [reflexivity|].
  apply (shutdown_in_parent_misses_worker
           system_before_run (fst (run system_before_run))
           system_after_shutdown (Ok tt)); reflexivity.
Defined.

(** *** Override resolution *)

(** A method, or any attribute, of the call's name wins. *)
Lemma resolve_action_method_first h callname :
  getattr h callname <> ONone ->
  resolve_action h callname = getattr h callname.
Proof.
  unfold resolve_action. destruct (getattr h callname); congruence.
Qed.

(** Without one, an entry of the override table is taken. *)
Lemma resolve_action_table_entry h callname overrides o :
  getattr h callname = ONone ->
  dict_get (attrs h) "ENDPOINT_OVERRIDES" = Some (ODict overrides) ->
  dict_get overrides callname = Some o ->
  resolve_action h callname = o.
Proof. intros H1 H2 H3. unfold resolve_action. now rewrite H1, H2, H3. Qed.

(** Without a table, the call's own name is taken. *)
Lemma resolve_action_no_table h callname :
  getattr h callname = ONone ->
  dict_get (attrs h) "ENDPOINT_OVERRIDES" = None ->
  resolve_action h callname = OStr callname.
Proof. intros H1 H2. unfold resolve_action. now rewrite H1, H2. Qed.

(** C1, where the code parts from it: on a handle that has an override
    table, but in it no entry for the call's name (and no method of that
    name), the action resolved is [None], not the call's name. *)
Theorem resolve_action_table_without_entry :
  forall (h : Handle) (callname : string) (overrides : list (string * obj)),
    getattr h callname = ONone ->
    dict_get (attrs h) "ENDPOINT_OVERRIDES" = Some (ODict overrides) ->
    dict_get overrides callname = None ->
    resolve_action h callname = ONone
    /\ resolve_action h callname <> OStr callname.
Proof.
  intros h callname overrides H1 H2 H3.
  assert (E : resolve_action h callname = ONone)
    by (unfold resolve_action; now rewrite H1, H2, H3).
  rewrite E. split; [reflexivity | discriminate].
Qed.

(** The theorem on a handle whose table lists [balances] only, asked for
    [ticker]; the call then reaches the handle with [None] for an endpoint. *)
Lemma resolve_action_table_without_entry_witness :
  (resolve_action handle_with_table "ticker" = ONone
   /\ resolve_action handle_with_table "ticker" <> OStr "ticker")
  /\ In (Invoked ONone VNone)
        (trace (fst (call "ticker" VNone None None
                          (process_of handle_with_table accepting)))).
Proof.
  split.
  - apply (resolve_action_table_without_entry
             handle_with_table "ticker" [("balances", OStr "getbalances")]);
      reflexivity.
  - vm_compute. right. right. left. reflexivity.
Defined.

(** *** Scheduling *)

Lemma call_unfolds p h callname arguments delay priority :
  api (self p) = Some h ->
  call callname arguments delay priority p
  = (if sched_args_nonempty
          {| sa_delay := delay; sa_priority := priority;
             sa_action := None; sa_argument := None |}
     then scheduler_enter
            {| sa_delay := delay; sa_priority := priority;
               sa_action := Some {| th_callname := callname;
                                    th_action := resolve_action h callname |};
               sa_argument := match arguments with
                              | VNone => None
                              | _ => Some [arguments]
                              end |}
     else mthd {| th_callname := callname;
                  th_action := resolve_action h callname |} arguments)
      (after_announcing callname (resolve_action h callname) p).
Proof.
  intros Hapi. unfold call, bind, emit, get_self, the_api, bind, get_self.
  cbn [self fst snd]. rewrite Hapi. unfold after_announcing, announced.
  assert (Hm : forall th,
             match arguments with
             | VNone => mthd th VNone
             | _ => mthd th arguments
             end = mthd th arguments) by (intros th; now destruct arguments).
  rewrite Hm.
  destruct (resolve_action h callname); cbn; rewrite ?Hapi; cbn;
    rewrite <- ?app_assoc; reflexivity.
Qed.

(** With a delay and a priority the call is queued, not made: the queue
    takes one event, due [delay] from now, that holds the closure and, for
    its one parameter, the arguments if there are any. *)
Lemma call_with_both_is_queued p h callname arguments delay priority :
  api (self p) = Some h ->
  call callname arguments (Some delay) (Some priority) p
  = ({| self := self p;
        scheduler :=
          enqueue {| ev_time := clock p + delay; ev_priority := priority;
                     ev_action :=
                       {| th_callname := callname;
                          th_action := resolve_action h callname |};
                     ev_argument := match arguments with
                                    | VNone => []
                                    | _ => [arguments]
                                    end |}
                  (scheduler p);
        clock := clock p;
        trace := trace p ++ announced callname (resolve_action h callname) |},
     Ok tt).
Proof.
  intros Hapi. rewrite (call_unfolds _ _ _ _ _ _ Hapi). cbn.
  now destruct arguments.
Qed.

(** With neither, the closure runs at once, inside [call]. *)
Lemma call_with_neither_is_inline p h callname arguments :
  api (self p) = Some h ->
  call callname arguments None None p
  = mthd {| th_callname := callname;
            th_action := resolve_action h callname |} arguments
         (after_announcing callname (resolve_action h callname) p).
Proof. intros Hapi. now rewrite (call_unfolds _ _ _ _ _ _ Hapi). Qed.

(** C5, where the code parts from it: a call given a delay without a
    priority, or a priority without a delay, is neither queued nor made;
    [scheduler.enter] refuses its keywords with a [TypeError], which leaves
    [call]. *)
Theorem call_with_one_of_delay_priority_raises :
  forall (p : Process) (h : Handle) (callname : string) (arguments : value)
         (delay priority : option nat),
    api (self p) = Some h ->
    (delay = None /\ priority <> None) \/ (delay <> None /\ priority = None) ->
    call callname arguments delay priority p
    = (after_announcing callname (resolve_action h callname) p,
       Raise (TypeError "enter() missing required positional argument"))
    /\ scheduler (fst (call callname arguments delay priority p))
       = scheduler p
    /\ forall action arg,
         In (Invoked action arg)
            (trace (fst (call callname arguments delay priority p))) ->
         In (Invoked action arg) (trace p).
Proof.
  intros p h callname arguments delay priority Hapi Hone.
  assert (E : call callname arguments delay priority p
              = (after_announcing callname (resolve_action h callname) p,
                 Raise (TypeError
                          "enter() missing required positional argument"))).
  { rewrite (call_unfolds _ _ _ _ _ _ Hapi).
    destruct Hone as [[-> Hp]|[Hd ->]].
    - destruct priority; [reflexivity | congruence].
    - destruct delay; [reflexivity | congruence]. }
  rewrite E. cbn [fst]. split; [reflexivity|]. split; [reflexivity|].
  intros action arg Hin. unfold after_announcing, announced in Hin.
  cbn [trace] in Hin. apply in_app_or in Hin. destruct Hin as [Hin|Hin];
    [assumption|].
  destruct Hin as [Hin|Hin]; [discriminate|].
  destruct (resolve_action h callname); cbn in Hin;
    try contradiction; destruct Hin as [Hin|[]]; discriminate.
Qed.

(** The theorem for a call with a delay of five and no priority. *)
Lemma call_with_one_of_delay_priority_raises_witness :
  snd (call "ticker" VNone (Some 5) None (process_of handle_plain accepting))
    = Raise (TypeError "enter() missing required positional argument")
  /\ scheduler (fst (call "ticker" VNone (Some 5) None
                          (process_of handle_plain accepting))) = []
  /\ forall action arg,
       ~ In (Invoked action arg)
            (trace (fst (call "ticker" VNone (Some 5) None
                              (process_of handle_plain accepting)))).
Proof.
  assert (Hone : (Some 5 = None /\ @None nat <> None)
                 \/ (Some 5 <> None /\ @None nat = None))
    by (right; split; [discriminate | reflexivity]).
  destruct (call_with_one_of_delay_priority_raises
              (process_of handle_plain accepting) handle_plain "ticker"
              VNone (Some 5) None eq_refl Hone)
    as [H1 [H2 H3]].
  split; [now rewrite H1|]. split; [exact H2|].
  intros action arg Hin. exact (H3 action arg Hin).
Defined.

(** *** Shaping failures *)

Lemma dumps_app t e :
  dumps (t ++ [e]) = dumps t + dumps [e].
Proof. unfold dumps. now rewrite filter_app, length_app. Qed.

Lemma generate_request_wraps tag request p p' e :
  request_try tag request p = (p', Raise e) ->
  _generate_request tag request p
  = (p', Raise (Exception_ (request_failure tag request))).
Proof. intros H. unfold _generate_request, try_except. now rewrite H. Qed.

Lemma generate_result_wraps callname result p p' e :
  result_try callname result p = (p', Raise e) ->
  _generate_result callname result p
  = (p', Raise (Exception_ (result_failure callname result))).
Proof. intros H. unfold _generate_result, try_except. now rewrite H. Qed.

Lemma ws_generate_result_wraps channel result p p' e :
  ws_result_try channel result p = (p', Raise e) ->
  ws_generate_result channel result p
  = (p', Raise (Exception_ (ws_result_failure channel result))).
Proof. intros H. unfold ws_generate_result, try_except. now rewrite H. Qed.

Lemma generate_request_raises_only tag request p e :
  snd (_generate_request tag request p) = Raise e ->
  e = Exception_ (request_failure tag request).
Proof.
  unfold _generate_request, try_except.
  destruct (request_try tag request p) as [p' [v|e']]; cbn; congruence.
Qed.

Lemma generate_result_raises_only callname result p e :
  snd (_generate_result callname result p) = Raise e ->
  e = Exception_ (result_failure callname result).
Proof.
  unfold _generate_result, try_except.
  destruct (result_try callname result p) as [p' [v|e']]; cbn; congruence.
Qed.

(** A dump that raises is one way for the [try] block to fail. *)
Lemma request_try_fails_with_dump tag request p h schema e :
  api (self p) = Some h ->
  request_schema h = Ok schema ->
  sch_dump schema (dict_set (sch_context schema) "callname" tag) request
    = Raise e ->
  snd (request_try tag request p) = Raise e.
Proof.
  intros Ha Hs Hd.
  unfold request_try, bind, the_api, get_self, lift, emit, bind.
  cbn. rewrite Ha. cbn. rewrite Hs. cbn. now rewrite Hd.
Qed.

(** Either shaper asks its schema to dump once at most. *)
Lemma generate_request_dumps_once tag request p :
  dumps (trace (fst (_generate_request tag request p))) <= S (dumps (trace p)).
Proof.
  unfold _generate_request, try_except, request_try, bind, the_api,
    get_self, lift, emit, raise, bind. cbn -[dumps].
  destruct (api (self p)) as [h|]; cbn -[dumps]; [|lia].
  destruct (request_schema h) as [schema|]; cbn -[dumps]; [|lia].
  destruct (sch_dump schema _ request) as [d|]; cbn -[dumps];
    [destruct (value_get _ _); cbn -[dumps]|]; rewrite dumps_app; cbn; lia.
Qed.

Lemma generate_result_dumps_once callname result p :
  dumps (trace (fst (_generate_result callname result p)))
  <= S (dumps (trace p)).
Proof.
  unfold _generate_result, try_except, result_try, call_callback, bind,
    the_api, get_self, lift, emit, raise, bind. cbn -[dumps].
  destruct (api (self p)) as [h|]; cbn -[dumps]; [|lia].
  destruct (result_schema h) as [schema|]; cbn -[dumps]; [|lia].
  destruct (sch_dump schema _ result) as [d|]; cbn -[dumps].
  - destruct (callback (self p)) as [cb|]; cbn -[dumps];
      [destruct (cb (mr_data d)); cbn -[dumps]|];
      rewrite !dumps_app; cbn; lia.
  - rewrite dumps_app; cbn; lia.
Qed.

(** [mthd] shapes the request first, and a failure there is its own. *)
Lemma mthd_stops_at_request_failure th args p p' e :
  _generate_request (request_tag th) args p = (p', Raise e) ->
  mthd th args p = (p', Raise e).
Proof.
  unfold mthd, request_tag. intros H.
  destruct (th_action th); unfold bind at 1; now rewrite H.
Qed.

Lemma invocations_app t e :
  invocations (t ++ [e]) = invocations t + invocations [e].
Proof. unfold invocations. now rewrite filter_app, length_app. Qed.

(** Neither shaper invokes an action. *)
Lemma generate_request_invokes_nothing tag request p :
  invocations (trace (fst (_generate_request tag request p)))
  = invocations (trace p).
Proof.
  unfold _generate_request, try_except, request_try, bind, the_api,
    get_self, lift, emit, raise, bind. cbn -[invocations].
  destruct (api (self p)) as [h|]; cbn -[invocations]; [|reflexivity].
  destruct (request_schema h) as [schema|]; cbn -[invocations];
    [|reflexivity].
  destruct (sch_dump schema _ request) as [d|]; cbn -[invocations];
    [destruct (value_get _ _); cbn -[invocations]|];
    rewrite invocations_app; cbn; lia.
Qed.

Lemma generate_result_invokes_nothing callname result p :
  invocations (trace (fst (_generate_result callname result p)))
  = invocations (trace p).
Proof.
  unfold _generate_result, try_except, result_try, call_callback, bind,
    the_api, get_self, lift, emit, raise, bind. cbn -[invocations].
  destruct (api (self p)) as [h|]; cbn -[invocations]; [|reflexivity].
  destruct (result_schema h) as [schema|]; cbn -[invocations];
    [|reflexivity].
  destruct (sch_dump schema _ result) as [d|]; cbn -[invocations].
  - destruct (callback (self p)) as [cb|]; cbn -[invocations];
      [destruct (cb (mr_data d)); cbn -[invocations]|];
      rewrite !invocations_app; cbn; lia.
  - rewrite invocations_app; cbn; lia.
Qed.

(** The name in the request shaper's message is the one it was handed. *)
Lemma request_failure_names tag n request :
  carries_name n (request_failure tag request) <-> tag = OStr n.
Proof.
  unfold carries_name, request_failure. cbn. split.
  - intros [[H|[H|[H|[H|[]]]]]|[H|[H|[H|[H|[]]]]]]; try discriminate H.
    now injection H.
  - intros ->. right. right. now left.
Qed.

(** [mthd] after a request that was shaped: the action is invoked once and
    its answer goes to the result shaper. *)
Lemma mthd_after_request th args p h p1 request raw :
  api (self p) = Some h ->
  _generate_request (request_tag th) args p = (p1, Ok request) ->
  action_answer h th request args = Ok raw ->
  mthd th args p
  = _generate_result (th_callname th) raw
      (fst (emit (Invoked (th_action th) (action_argument th request args))
                 p1)).
Proof.
  intros Ha Hreq Hans.
  assert (Hp1 : api (self p1) = Some h).
  { pose proof (keeps_self_generate_request (request_tag th) args p) as K.
    rewrite Hreq in K. cbn [fst] in K. now rewrite K. }
  unfold mthd, request_tag, action_answer, action_argument in *.
  destruct (th_action th) as [| s | d | repr f];
    unfold bind at 1; rewrite Hreq;
    unfold bind, the_api, get_self, emit, lift; cbn; rewrite ?Hp1; cbn;
    rewrite Hans; reflexivity.
Qed.




(** A call whose request cannot be dumped: one dump was tried, the handle
    was not reached, and the failure names [ticker] and the payload. *)
Example call_with_broken_schema :
  call "ticker" VNone None None (process_of handle_broken accepting)
  = ({| self := adapter_of handle_broken accepting; scheduler := [];
        clock := 0;
        trace := [Called "ticker"; Logged "ticker" (OStr "ticker");
                  Dumped (OStr "ticker") VNone] |},
     Raise (Exception_ (request_failure (OStr "ticker") VNone))).
Proof. reflexivity. Qed.

(** *** A callback that raises *)

(** C10.  When the result is shaped and the callback, called with it,
    raises, [_generate_result] raises its "Could not parse response"
    failure: the very exception it raises when the dump itself fails, or
    anything else in its [try] block.  The streaming adapter's wrapper does
    the same with its own message. *)
Theorem callback_failure_reads_as_parse_failure :
  forall (p : Process) (h : Handle) (schema : SchemaObj)
         (dumped : MarshalResult) (cb : value -> outcome unit)
         (callname : string) (result : value) (e : exn),
    api (self p) = Some h ->
    result_schema h = Ok schema ->
    sch_dump schema (dict_set (sch_context schema) "callname" (OStr callname))
             result = Ok dumped ->
    callback (self p) = Some cb ->
    cb (mr_data dumped) = Raise e ->
    snd (_generate_result callname result p)
      = Raise (Exception_ (result_failure callname result))
    /\ In (Delivered (mr_data dumped))
          (trace (fst (_generate_result callname result p)))
    /\ (forall q q' e',
          result_try callname result q = (q', Raise e') ->
          snd (_generate_result callname result q)
          = snd (_generate_result callname result p))
    /\ (forall q h' schema' e',
          api (self q) = Some h' ->
          result_schema h' = Ok schema' ->
          sch_dump schema'
                   (dict_set (sch_context schema') "callname" (OStr callname))
                   result = Raise e' ->
          snd (_generate_result callname result q)
          = snd (_generate_result callname result p))
    /\ (forall channel wschema wdumped,
          ws_result_schema h = Ok wschema ->
          sch_dump wschema
                   (dict_set (sch_context wschema) "channel" (OStr channel))
                   result = Ok wdumped ->
          cb (mr_data wdumped) = Raise e ->
          snd (ws_generate_result channel result p)
          = Raise (Exception_ (ws_result_failure channel result))).
Proof.
  intros p h schema dumped cb callname result e Ha Hs Hd Hcb He.
  assert (Htry : exists p',
             result_try callname result p = (p', Raise e)
             /\ In (Delivered (mr_data dumped)) (trace p')).
  { unfold result_try, call_callback, bind, the_api, get_self, lift, emit,
      bind. cbn. rewrite Ha. cbn. rewrite Hs. cbn. rewrite Hd. cbn.
    rewrite Hcb, He. eexists. split; [reflexivity|]. cbn.
    apply in_or_app. right. now left. }
  destruct Htry as [p' [Htry Hin]].
  assert (E := generate_result_wraps _ _ _ _ _ Htry).
  rewrite E. cbn [fst snd].
  split; [reflexivity|]. split; [exact Hin|]. split; [|split].
  - intros q q' e' Hq. now rewrite (generate_result_wraps _ _ _ _ _ Hq).
  - intros q h' schema' e' Ha' Hs' Hd'.
    unfold _generate_result, try_except, result_try, bind, the_api,
      get_self, lift, emit, bind. cbn. rewrite Ha'. cbn. rewrite Hs'. cbn.
    now rewrite Hd'.
  - intros channel wschema wdumped Hws Hwd Hwe.
    unfold ws_generate_result, try_except, ws_result_try, call_callback,
      bind, the_api, get_self, lift, emit, bind. cbn. rewrite Ha. cbn.
    rewrite Hws. cbn. rewrite Hwd. cbn. now rewrite Hcb, Hwe.
Qed.

(** The theorem for a callback that raises [RuntimeError] on a well-shaped
    ticker. *)
Lemma callback_failure_reads_as_parse_failure_witness :
  snd (_generate_result "ticker" (VStr "raw")
                        (process_of handle_plain rejecting))
    = Raise (Exception_ (result_failure "ticker" (VStr "raw")))
  /\ snd (_generate_result "ticker" (VStr "raw")
                           (process_of handle_broken accepting))
     = snd (_generate_result "ticker" (VStr "raw")
                             (process_of handle_plain rejecting)).
Proof.
  destruct (callback_failure_reads_as_parse_failure
              (process_of handle_plain rejecting) handle_plain
              wrapping_schema
              {| mr_data := VDict [("payload", VStr "raw")];
                 mr_errors := VDict [] |}
              rejecting "ticker" (VStr "raw")
              (RuntimeError "strategy failed")
              eq_refl eq_refl eq_refl eq_refl eq_refl)
    as [H1 [_ [_ [H4 _]]]].
  split; [exact H1|].
  exact (H4 (process_of handle_broken accepting) handle_broken broken_schema
            (TypeError "cannot serialise") eq_refl eq_refl eq_refl).
Defined.

End ApiFacts.

(** ** More on the exchange metadata loader *)

Module ExchangeMore.
Import Exchange Fanout Sample.
Local Open Scope list_scope.

Lemma str_in_cons k s l :
  str_in k (s :: l) = String.eqb k s || str_in k l.
Proof. reflexivity. Qed.

(** What the comprehension over the configured currencies builds, read
    key by key. *)
Lemma relevant_currencies_lookup avail cs :
  forall acc k,
    dict_get (relevant_currencies avail cs acc) k
    = if str_in k cs
      then match dict_get avail k with
           | Some v => Some v
           | None => dict_get acc k
           end
      else dict_get acc k.
Proof.
  induction cs as [|c cs IH]; intros acc k; [reflexivity|].
  cbn [relevant_currencies]. rewrite str_in_cons.
  destruct (dict_get avail c) as [v|] eqn:Ec; rewrite IH.
  - destruct (String.eqb_spec k c) as [->|Hne]; cbn [orb].
    + rewrite Ec, PyFacts.dict_get_set_same. now destruct (str_in c cs).
    + rewrite PyFacts.dict_get_set_other by congruence. reflexivity.
  - destruct (String.eqb_spec k c) as [->|Hne]; cbn [orb]; [|reflexivity].
    rewrite Ec. now destruct (str_in c cs).
Qed.

Lemma relevant_currencies_NoDup avail cs :
  forall acc, NoDup (dict_keys acc) ->
              NoDup (dict_keys (relevant_currencies avail cs acc)).
Proof.
  induction cs as [|c cs IH]; intros acc H; [exact H|].
  cbn [relevant_currencies]. destruct (dict_get avail c).
  - apply IH. now apply PyFacts.dict_set_NoDup.
  - now apply IH.
Qed.

(** What the comprehension over the derived symbols builds. *)
Lemma restrict_markets_lookup avail syms :
  forall acc m,
    restrict_markets avail syms acc = Ok m ->
    (forall k, dict_get m k
               = if str_in k syms then dict_get avail k else dict_get acc k)
    /\ (forall s, In s syms -> dict_get avail s <> None).
Proof.
  induction syms as [|sym syms IH]; intros acc m H.
  - injection H as <-. split; [reflexivity | intros s []].
  - cbn [restrict_markets] in H. unfold dict_getitem in H.
    destruct (dict_get avail sym) as [v|] eqn:Es; [|discriminate].
    apply IH in H. destruct H as [Hget Hall]. split.
    + intros k. rewrite Hget, str_in_cons.
      destruct (String.eqb_spec k sym) as [->|Hne]; cbn [orb].
      * rewrite PyFacts.dict_get_set_same, Es. now destruct (str_in sym syms).
      * now rewrite PyFacts.dict_get_set_other by congruence.
    + intros s [<-|Hin]; [congruence | now apply Hall].
Qed.

Lemma restrict_markets_NoDup avail syms :
  forall acc m,
    restrict_markets avail syms acc = Ok m ->
    NoDup (dict_keys acc) -> NoDup (dict_keys m).
Proof.
  induction syms as [|sym syms IH]; intros acc m H Hnd.
  - now injection H as <-.
  - cbn [restrict_markets] in H. destruct (dict_getitem avail sym); [|discriminate].
    apply IH in H; [exact H|]. now apply PyFacts.dict_set_NoDup.
Qed.

(** The first derived symbol without a market is the one [KeyError] names. *)
Lemma restrict_markets_raises avail syms :
  forall acc e,
    restrict_markets avail syms acc = Raise e ->
    exists s, e = KeyError (Some s) /\ In s syms /\ dict_get avail s = None.
Proof.
  induction syms as [|sym syms IH]; intros acc e H; [discriminate|].
  cbn [restrict_markets] in H. unfold dict_getitem in H.
  destruct (dict_get avail sym) as [v|] eqn:Es.
  - apply IH in H. destruct H as [s [He [Hin Hs]]]. exists s.
    split; [exact He|]. split; [now right | exact Hs].
  - injection H as <-. exists sym.
    split; [reflexivity|]. split; [now left | exact Es].
Qed.

(** A load that goes to the client: what it computes, step by step. *)
Lemma load_unfolds reload ex :
  markets ex = None \/ reload = true ->
  load reload ex
  = let (client, loaded) := load_markets (_ex ex) in
    match loaded with
    | Raise e => (with_client ex client, Raise e)
    | Ok mkts =>
        let avail_cur :=
          match cl_currencies client with Some d => d | None => [] end in
        let cur :=
          if no_currencies (currencies ex) then avail_cur
          else relevant_currencies avail_cur
                 (match currencies ex with Some cs => cs | None => [] end)
                 [] in
        let avail_sym :=
          match cl_symbols client with Some l => l | None => [] end in
        let syms := derive_symbols (dict_keys cur) avail_sym in
        let restricted := restrict_markets mkts syms [] in
        ({| name := name ex; currencies := currencies ex;
            rate_limit := rate_limit ex; _ex := client;
            avail_currencies := Some avail_cur;
            _currencies := Some cur;
            avail_markets := Some mkts;
            markets := match restricted with
                       | Ok m => Some m
                       | Raise _ => markets ex
                       end;
            avail_symbols := Some avail_sym;
            symbols := Some syms |},
         match restricted with
         | Ok _ => Ok tt
         | Raise e => Raise e
         end)
    end.
Proof.
  intros [H| ->]; unfold load.
  - now rewrite H.
  - now destruct (markets ex).
Qed.

(** X1.  A load that goes to the client and ends well leaves in [markets]
    exactly the derived symbols, each once, each with the market the client
    returned for it. *)
Theorem load_restricts_markets :
  forall (reload : bool) (ex ex' : CCXTExchange),
    markets ex = None \/ reload = true ->
    load reload ex = (ex', Ok tt) ->
    exists syms avail m,
      symbols ex' = Some syms /\ avail_markets ex' = Some avail
      /\ markets ex' = Some m
      /\ NoDup (dict_keys m)
      /\ (forall k, In k (dict_keys m) <-> In k syms)
      /\ (forall k, In k syms ->
            dict_get m k = dict_get avail k /\ dict_get avail k <> None).
Proof.
  intros reload ex ex' Hgo H. rewrite (load_unfolds _ _ Hgo) in H.
  destruct (load_markets (_ex ex)) as [client [mkts|e]]; [|discriminate].
  cbv zeta in H.
  destruct (restrict_markets mkts _ []) as [m|e] eqn:Hr; [|discriminate].
  injection H as <-. eexists _, mkts, m. cbn.
  split; [reflexivity|]. split; [reflexivity|]. split; [reflexivity|].
  destruct (restrict_markets_lookup _ _ _ _ Hr) as [Hget Hall].
  split; [apply (restrict_markets_NoDup _ _ _ _ Hr); constructor|].
  split.
  - intros k. rewrite <- PyFacts.dict_get_in_keys, Hget.
    destruct (str_in k _) eqn:Ek.
    + apply PyFacts.str_in_In in Ek. split; [auto | intros _; now apply Hall].
    + split; [cbn; congruence|]. intros Hin.
      apply PyFacts.str_in_In in Hin. congruence.
  - intros k Hin. split; [|now apply Hall].
    rewrite Hget. apply PyFacts.str_in_In in Hin. now rewrite Hin.
Qed.

Lemma load_restricts_markets_witness :
  exists syms avail m,
    symbols exchange_S = Some syms /\ avail_markets exchange_S = Some avail
    /\ markets exchange_S = Some m
    /\ NoDup (dict_keys m)
    /\ (forall k, In k (dict_keys m) <-> In k syms)
    /\ (forall k, In k syms ->
          dict_get m k = dict_get avail k /\ dict_get avail k <> None).
Proof.
  apply (load_restricts_markets false
           (unloaded "S" usd_btc (Some 200)
              (set_enable_rate_limit (set_rate_limit client_S 200)))
           exchange_S).
  - left. reflexivity.
  - reflexivity.
Defined.

(** X2.  A load that goes to the client and ends well takes
    [avail_currencies] from the client (empty when it has none).  With no
    currencies configured, [_currencies] is that whole mapping; with some,
    it holds each configured currency the client knows, once, with the
    client's entry, and nothing else. *)
Theorem load_selects_currencies :
  forall (reload : bool) (ex ex' : CCXTExchange),
    markets ex = None \/ reload = true ->
    load reload ex = (ex', Ok tt) ->
    exists avail cur,
      avail_currencies ex' = Some avail /\ _currencies ex' = Some cur
      /\ avail = match cl_currencies (_ex ex') with
                 | Some d => d
                 | None => []
                 end
      /\ (no_currencies (currencies ex) = true -> cur = avail)
      /\ (forall cs, currencies ex = Some cs -> cs <> [] ->
            NoDup (dict_keys cur)
            /\ forall k, dict_get cur k
                         = if str_in k cs then dict_get avail k else None).
Proof.
  intros reload ex ex' Hgo H. rewrite (load_unfolds _ _ Hgo) in H.
  destruct (load_markets (_ex ex)) as [client [mkts|e]]; [|discriminate].
  cbv zeta in H.
  destruct (restrict_markets mkts _ []) as [m|e] eqn:Hr; [|discriminate].
  injection H as <-. eexists _, _. cbn.
  split; [reflexivity|]. split; [reflexivity|]. split; [reflexivity|].
  split.
  - intros Hn. now rewrite Hn.
  - intros cs Hcs Hne. rewrite Hcs.
    destruct cs as [|c cs]; [congruence|]. cbn [no_currencies]. split.
    + apply relevant_currencies_NoDup. constructor.
    + intros k. rewrite relevant_currencies_lookup.
      destruct (str_in k (c :: cs)); [|reflexivity].
      now destruct (dict_get _ k).
Qed.

Lemma load_selects_currencies_witness :
  exists avail cur,
    avail_currencies exchange_S = Some avail
    /\ _currencies exchange_S = Some cur
    /\ avail = match cl_currencies (_ex exchange_S) with
               | Some d => d
               | None => []
               end
    /\ (no_currencies usd_btc = true -> cur = avail)
    /\ (forall cs, usd_btc = Some cs -> cs <> [] ->
          NoDup (dict_keys cur)
          /\ forall k, dict_get cur k
                       = if str_in k cs then dict_get avail k else None).
Proof.
  apply (load_selects_currencies false
           (unloaded "S" usd_btc (Some 200)
              (set_enable_rate_limit (set_rate_limit client_S 200)))
           exchange_S).
  - left. reflexivity.
  - reflexivity.
Defined.

(** X3.  A load fails in two ways only.  Either the client's
    [load_markets] raised: the exception is passed on and no metadata field
    is touched.  Or a derived symbol has no market: [KeyError] names it,
    [symbols] and the available sets are already the new ones, and
    [markets] is still what it was. *)
Theorem load_failure_modes :
  forall (reload : bool) (ex ex' : CCXTExchange) (e : exn),
    load reload ex = (ex', Raise e) ->
    (snd (load_markets (_ex ex)) = Raise e
     /\ ex' = with_client ex (fst (load_markets (_ex ex))))
    \/ (exists s syms avail,
           e = KeyError (Some s)
           /\ symbols ex' = Some syms /\ In s syms
           /\ avail_markets ex' = Some avail /\ dict_get avail s = None
           /\ markets ex' = markets ex).
Proof.
  intros reload ex ex' e H.
  assert (Hgo : markets ex = None \/ reload = true).
  { unfold load in H. destruct (markets ex); [|now left].
    destruct reload; [now right | discriminate]. }
  rewrite (load_unfolds _ _ Hgo) in H.
  destruct (load_markets (_ex ex)) as [client [mkts|e0]]; cbn [fst snd].
  - right. cbv zeta in H.
    destruct (restrict_markets mkts _ []) as [m|e1] eqn:Hr; [discriminate|].
    injection H as <- <-.
    destruct (restrict_markets_raises _ _ _ _ Hr) as [s [He [Hin Hs]]].
    eexists s, _, mkts. cbn. repeat split; eauto.
  - left. injection H as <- <-. split; reflexivity.
Qed.

(** On exchange G, whose one available symbol has no market. *)
Lemma load_failure_modes_witness :
  snd (load false (unloaded "G" usd_btc None client_G))
    = Raise (KeyError (Some "BTC/USD"))
  /\ symbols (fst (load false (unloaded "G" usd_btc None client_G)))
     = Some ["BTC/USD"]
  /\ markets (fst (load false (unloaded "G" usd_btc None client_G))) = None
  /\ ((snd (load_markets client_G) = Raise (KeyError (Some "BTC/USD"))
       /\ fst (load false (unloaded "G" usd_btc None client_G))
          = with_client (unloaded "G" usd_btc None client_G)
                        (fst (load_markets client_G)))
      \/ (exists s syms avail,
             @KeyError obj (Some "BTC/USD") = KeyError (Some s)
             /\ symbols (fst (load false (unloaded "G" usd_btc None client_G)))
                = Some syms
             /\ In s syms
             /\ avail_markets
                  (fst (load false (unloaded "G" usd_btc None client_G)))
                = Some avail
             /\ dict_get avail s = None
             /\ markets (fst (load false (unloaded "G" usd_btc None client_G)))
                = markets (unloaded "G" usd_btc None client_G))).
Proof.
  split; [reflexivity|]. split; [reflexivity|]. split; [reflexivity|].
  apply (load_failure_modes false (unloaded "G" usd_btc None client_G)).
  reflexivity.
Defined.

(** What no load changes. *)
Lemma load_keeps_frame reload ex :
  name (fst (load reload ex)) = name ex
  /\ currencies (fst (load reload ex)) = currencies ex
  /\ rate_limit (fst (load reload ex)) = rate_limit ex
  /\ cl_name (_ex (fst (load reload ex))) = cl_name (_ex ex)
  /\ cl_rate_limit (_ex (fst (load reload ex))) = cl_rate_limit (_ex ex)
  /\ cl_enable_rate_limit (_ex (fst (load reload ex)))
     = cl_enable_rate_limit (_ex ex)
  /\ cl_loads (_ex ex) <= cl_loads (_ex (fst (load reload ex))).
Proof.
  unfold load, load_markets.
  destruct (markets ex), reload;
    destruct (cl_script (_ex ex) (cl_loads (_ex ex))); cbn;
    repeat split; lia.
Qed.

Lemma load_keeps_markets_distinct reload ex :
  (forall m, markets ex = Some m -> NoDup (dict_keys m)) ->
  forall m, markets (fst (load reload ex)) = Some m -> NoDup (dict_keys m).
Proof.
  intros Hinv m. destruct (markets ex) as [m0|] eqn:Hm.
  - destruct reload.
    + rewrite (load_unfolds true ex (or_intror eq_refl)).
      destruct (load_markets (_ex ex)) as [client [mkts|e]]; cbn.
      * destruct (restrict_markets mkts _ []) as [m1|e] eqn:Hr.
        -- intros H. injection H as <-.
           apply (restrict_markets_NoDup _ _ _ _ Hr). constructor.
        -- rewrite Hm. apply Hinv.
      * rewrite Hm. apply Hinv.
    + unfold load. rewrite Hm. cbn. rewrite Hm. apply Hinv.
  - rewrite (load_unfolds reload ex (or_introl Hm)).
    destruct (load_markets (_ex ex)) as [client [mkts|e]]; cbn.
    + destruct (restrict_markets mkts _ []) as [m1|e] eqn:Hr.
      * intros H. injection H as <-.
        apply (restrict_markets_NoDup _ _ _ _ Hr). constructor.
      * rewrite Hm. discriminate.
    + rewrite Hm. discriminate.
Qed.

Lemma load_keeps_loaded reload ex :
  markets ex <> None -> markets (fst (load reload ex)) <> None.
Proof.
  intros Hm. destruct (markets ex) as [m0|] eqn:E; [|congruence].
  destruct reload.
  - rewrite (load_unfolds true ex (or_intror eq_refl)).
    destruct (load_markets (_ex ex)) as [client [mkts|e]]; cbn.
    + destruct (restrict_markets mkts _ []); congruence.
    + congruence.
  - unfold load. rewrite E. cbn. congruence.
Qed.

Lemma reachable_markets_distinct ccxt_class ex :
  reachable ccxt_class ex ->
  forall m, markets ex = Some m -> NoDup (dict_keys m).
Proof.
  intros R. induction R as [n cs rl ex H | reload ex _ IH].
  - unfold __post_init__ in H.
    destruct (ccxt_class n) as [fresh|]; [|discriminate].
    match type of H with
    | context [load false ?s] =>
        pose proof (load_keeps_markets_distinct false s) as Hd;
        destruct (load false s) as [self' [u|e]]; [|discriminate]
    end.
    injection H as <-. apply Hd. discriminate.
  - now apply load_keeps_markets_distinct.
Qed.

(** X4.  Every exchange object a program can hold has gone through a load
    that ended well: its markets are set, no symbol sits twice in them, and
    its client was asked for its markets at least once.  The client has
    rate limiting switched on, carries the exchange's rate limit when one
    was given and its own otherwise, and no later load undoes any of it. *)
Theorem constructed_exchange_is_loaded_and_limited :
  forall (ccxt_class : string -> option Client) (ex : CCXTExchange),
    reachable ccxt_class ex ->
    markets ex <> None
    /\ (forall m, markets ex = Some m -> NoDup (dict_keys m))
    /\ cl_enable_rate_limit (_ex ex) = true
    /\ (forall r, rate_limit ex = Some r -> cl_rate_limit (_ex ex) = Some r)
    /\ exists fresh,
        ccxt_class (name ex) = Some fresh
        /\ cl_name (_ex ex) = cl_name fresh
        /\ cl_loads fresh < cl_loads (_ex ex)
        /\ (rate_limit ex = None ->
            cl_rate_limit (_ex ex) = cl_rate_limit fresh).
Proof.
  intros ccxt_class ex R.
  induction R as [n cs rl ex H | reload ex _ IH].
  - unfold __post_init__ in H.
    destruct (ccxt_class n) as [fresh|] eqn:Hc; [|discriminate].
    match type of H with
    | context [load false ?s] =>
        pose proof (load_keeps_frame false s) as Hf;
        pose proof (ExchangeFacts.load_populates false s) as Hp;
        pose proof (load_keeps_markets_distinct false s) as Hd;
        assert (Hl : cl_loads (_ex (fst (load false s)))
                     = S (cl_loads (_ex s)))
          by (unfold load, load_markets; cbn [markets];
              destruct (cl_script _ _); reflexivity);
        destruct (load false s) as [self' [u|e]] eqn:Hload; [|discriminate]
    end.
    injection H as <-. destruct u. cbn [fst snd] in *.
    destruct Hf as [Hn [_ [Hr [Hcn [Hcr [Hce _]]]]]].
    split; [now apply Hp|]. split; [apply Hd; discriminate|].
    split; [now rewrite Hce|]. split.
    + intros r Hrl. rewrite Hcr. rewrite Hr in Hrl. cbn in Hrl |- *.
      now rewrite Hrl.
    + exists fresh. rewrite Hn, Hcn, Hcr, Hl, Hr. cbn.
      split; [exact Hc|]. split; [now destruct rl|].
      split; [destruct rl; cbn; lia|]. intros ->. reflexivity.
  - destruct IH as [Hm [Hd [He [Hr [fresh [Hc [Hn [Hl Hr']]]]]]]].
    destruct (load_keeps_frame reload ex)
      as [Fn [_ [Fr [Fcn [Fcr [Fce Fl]]]]]].
    split; [now apply load_keeps_loaded|].
    split; [now apply load_keeps_markets_distinct|].
    split; [now rewrite Fce|]. split.
    + intros r. rewrite Fr, Fcr. apply Hr.
    + exists fresh. rewrite Fn, Fcn, Fcr, Fr.
      split; [exact Hc|]. split; [exact Hn|]. split; [lia | exact Hr'].
Qed.

(** Exchange S, built with a rate limit of 200 and reloaded once. *)
Lemma constructed_exchange_is_loaded_and_limited_witness :
  cl_rate_limit (_ex (fst (load true exchange_S))) = Some 200
  /\ cl_loads (_ex (fst (load true exchange_S))) = 2
  /\ (markets (fst (load true exchange_S)) <> None
      /\ (forall m, markets (fst (load true exchange_S)) = Some m ->
                    NoDup (dict_keys m))
      /\ cl_enable_rate_limit (_ex (fst (load true exchange_S))) = true
      /\ (forall r, rate_limit (fst (load true exchange_S)) = Some r ->
                    cl_rate_limit (_ex (fst (load true exchange_S))) = Some r)
      /\ exists fresh,
          ccxt_class_more (name (fst (load true exchange_S))) = Some fresh
          /\ cl_name (_ex (fst (load true exchange_S))) = cl_name fresh
          /\ cl_loads fresh < cl_loads (_ex (fst (load true exchange_S)))
          /\ (rate_limit (fst (load true exchange_S)) = None ->
              cl_rate_limit (_ex (fst (load true exchange_S)))
              = cl_rate_limit fresh)).
Proof.
  split; [reflexivity|]. split; [reflexivity|].
  apply (constructed_exchange_is_loaded_and_limited ccxt_class_more).
  apply reach_load.
  apply (reach_new ccxt_class_more "S" usd_btc (Some 200)). reflexivity.
Defined.

Section PerSymbol.
Variable ex : CCXTExchange.
Variable callname : string.
Variable args : list value.

(** When every symbol's call answers or is unavailable, the loop ends well
    with one new entry per answering symbol, in order. *)
Lemma over_syms_partial syms :
  forall results,
    NoDup syms ->
    (forall s, In s syms -> ~ In s (dict_keys results)) ->
    (forall s, In s syms ->
       symbol_answers ex callname args s
       || symbol_unavailable ex callname args s = true) ->
    exists results',
      over_syms ex callname args syms results = Ok results'
      /\ dict_keys results'
         = dict_keys results ++ filter (symbol_answers ex callname args) syms
      /\ (forall k, In k (dict_keys results) -> ~ In k syms ->
            dict_get results' k = dict_get results k)
      /\ (forall s, In s syms -> symbol_answers ex callname args s = true ->
            exists r, dict_get results' s = Some r
                      /\ Exchange.call ex callname (VStr s :: args) = Ok r).
Proof.
  induction syms as [|sym syms IH]; intros results Hnd Hfresh Hsoft.
  - exists results. cbn. rewrite app_nil_r.
    refine (conj eq_refl (conj eq_refl (conj (fun _ _ _ => eq_refl) _))).
    intros s [].
  - inversion Hnd as [|? ? Hnot Hnd']; subst.
    assert (Hs := Hsoft sym (or_introl eq_refl)).
    cbn [over_syms filter]. unfold symbol_answers, symbol_unavailable in Hs.
    unfold symbol_answers at 1.
    destruct (Exchange.call ex callname (VStr sym :: args)) as [r|e] eqn:Hc.
    + destruct (IH (dict_set results sym r)) as [res' [H1 [H2 [H3 H4]]]].
      * assumption.
      * intros s Hin Hk. apply PyFacts.dict_keys_set_inv in Hk.
        destruct Hk as [->|Hk]; [contradiction|].
        apply (Hfresh s); [now right | assumption].
      * intros s Hin. apply Hsoft. now right.
      * exists res'. split; [assumption|]. split; [|split].
        -- rewrite H2, PyFacts.dict_keys_set_new
             by (apply Hfresh; now left).
           now rewrite <- app_assoc.
        -- intros k Hk Hnk. rewrite H3.
           ++ apply PyFacts.dict_get_set_other. intros E. apply Hnk.
              now left.
           ++ now apply PyFacts.dict_keys_set_incl.
           ++ intros Hin. apply Hnk. now right.
        -- intros s [<-|Hin] Ha; [|now apply H4].
           exists r. split; [|exact Hc].
           rewrite H3, PyFacts.dict_get_set_same;
             [reflexivity | apply PyFacts.dict_keys_set_key | assumption].
    + cbn [orb] in Hs. rewrite Hs.
      destruct (IH results) as [res' [H1 [H2 [H3 H4]]]].
      * assumption.
      * intros s Hin. apply Hfresh. now right.
      * intros s Hin. apply Hsoft. now right.
      * exists res'. split; [assumption|]. split; [assumption|]. split.
        -- intros k Hk Hnk. apply H3; [assumption|].
           intros Hin. apply Hnk. now right.
        -- intros s [<-|Hin] Ha; [|now apply H4].
           unfold symbol_answers in Ha. rewrite Hc in Ha. discriminate.
Qed.

Lemma over_syms_raises syms :
  forall results e,
    over_syms ex callname args syms results = Raise e ->
    is_exchange_failure e = false
    /\ exists s, In s syms
                 /\ Exchange.call ex callname (VStr s :: args) = Raise e.
Proof.
  induction syms as [|sym syms IH]; cbn [over_syms]; intros results e H;
    [discriminate|].
  destruct (Exchange.call ex callname (VStr sym :: args)) as [r|e'] eqn:Hc.
  - apply IH in H. destruct H as [H1 [s [H2 H3]]].
    split; [exact H1|]. exists s. split; [now right | exact H3].
  - destruct (is_exchange_failure e') eqn:Hf.
    + apply IH in H. destruct H as [H1 [s [H2 H3]]].
      split; [exact H1|]. exists s. split; [now right | exact H3].
    + injection H as <-. split; [exact Hf|]. exists sym.
      split; [now left | exact Hc].
Qed.

Lemma over_syms_aborts syms :
  forall results s,
    In s syms ->
    symbol_answers ex callname args s = false ->
    symbol_unavailable ex callname args s = false ->
    exists e, over_syms ex callname args syms results = Raise e.
Proof.
  induction syms as [|sym syms IH]; cbn [over_syms];
    intros results s Hin Ha Hu; [contradiction|].
  destruct (Exchange.call ex callname (VStr sym :: args)) as [r|e'] eqn:Hc.
  - destruct Hin as [->|Hin]; [|now apply (IH _ s)].
    unfold symbol_answers in Ha. rewrite Hc in Ha. discriminate.
  - destruct (is_exchange_failure e') eqn:Hf.
    + destruct Hin as [->|Hin]; [|now apply (IH _ s)].
      unfold symbol_unavailable in Hu. rewrite Hc in Hu. congruence.
    + eauto.
Qed.

Lemma symbols_split_length syms :
  (forall s, In s syms ->
     symbol_answers ex callname args s
     || symbol_unavailable ex callname args s = true) ->
  List.length (filter (symbol_answers ex callname args) syms)
  = List.length syms
    - List.length (filter (symbol_unavailable ex callname args) syms).
Proof.
  induction syms as [|sym syms IH]; intros H; [reflexivity|].
  assert (Hs := H sym (or_introl eq_refl)).
  assert (IH' := IH (fun s Hin => H s (or_intror Hin))).
  assert (Hle := filter_length_le (symbol_unavailable ex callname args) syms).
  cbn [filter].
  destruct (symbol_answers ex callname args sym) eqn:Ea.
  - assert (Eu : symbol_unavailable ex callname args sym = false).
    { unfold symbol_answers in Ea. unfold symbol_unavailable.
      now destruct (Exchange.call ex callname (VStr sym :: args)). }
    rewrite Eu. cbn [List.length]. rewrite IH'. lia.
  - cbn [orb] in Hs. rewrite Hs. cbn [List.length]. rewrite IH'. lia.
Qed.

End PerSymbol.

(** X5.  [call_over_syms] on an exchange object a program can hold makes
    one call per symbol of its markets, the symbol first among the
    arguments.  When each call answers or fails with
    [ExchangeNotAvailable] or [ExchangeError], it returns the answers under
    their symbols, in the order of the markets, as many as there are
    symbols less the failing ones.  An exception that leaves it is none of
    those two kinds, and a symbol failing in any other way makes it fail. *)
Theorem call_over_syms_omits_failing_symbols :
  forall (ccxt_class : string -> option Client) (ex : CCXTExchange)
         (callname : string) (args : list value) (m : dict value),
    reachable ccxt_class ex ->
    markets ex = Some m ->
    ((forall s, In s (dict_keys m) ->
        symbol_answers ex callname args s
        || symbol_unavailable ex callname args s = true) ->
     exists results,
       Exchange.call_over_syms ex callname args = Ok results
       /\ dict_keys results
          = filter (symbol_answers ex callname args) (dict_keys m)
       /\ List.length results
          = List.length m
            - List.length (filter (symbol_unavailable ex callname args)
                                  (dict_keys m))
       /\ forall s, In s (dict_keys m) ->
            symbol_answers ex callname args s = true ->
            exists r, dict_get results s = Some r
                      /\ Exchange.call ex callname (VStr s :: args) = Ok r)
    /\ (forall e, Exchange.call_over_syms ex callname args = Raise e ->
          is_exchange_failure e = false
          /\ exists s, In s (dict_keys m)
                       /\ Exchange.call ex callname (VStr s :: args)
                          = Raise e)
    /\ (forall s, In s (dict_keys m) ->
          symbol_answers ex callname args s = false ->
          symbol_unavailable ex callname args s = false ->
          exists e, Exchange.call_over_syms ex callname args = Raise e).
Proof.
  intros ccxt_class ex callname args m R Hm.
  pose proof (reachable_markets_distinct _ _ R m Hm) as Hd. unfold Exchange.call_over_syms. rewrite Hm.
  split; [|split].
  - intros Hsoft.
    destruct (over_syms_partial ex callname args (dict_keys m) []
                Hd (fun _ _ K => K) Hsoft) as [results [H1 [H2 [_ H4]]]].
    exists results. cbn [dict_keys map app] in H2.
    split; [exact H1|]. split; [exact H2|]. split; [|exact H4].
    rewrite <- (length_map fst results). fold (dict_keys results).
    rewrite H2, (symbols_split_length ex callname args _ Hsoft).
    unfold dict_keys. now rewrite length_map.
  - intros e H. exact (over_syms_raises ex callname args _ _ _ H).
  - intros s Hin Ha Hu.
    exact (over_syms_aborts ex callname args _ [] s Hin Ha Hu).
Qed.

(** On exchange S, which answers for [BTC/USD] but not for [USD/USD]. *)
Lemma call_over_syms_omits_failing_symbols_witness :
  Exchange.call_over_syms exchange_S "fetch_order_book" []
    = Ok [("BTC/USD", VStr "book of BTC/USD")]
  /\ exists results,
      Exchange.call_over_syms exchange_S "fetch_order_book" [] = Ok results
      /\ dict_keys results
         = filter (symbol_answers exchange_S "fetch_order_book" [])
                  ["USD/USD"; "BTC/USD"]
      /\ List.length results
         = List.length [("USD/USD", VStr "usd-usd");
                        ("BTC/USD", VStr "btc-usd")]
           - List.length
               (filter (symbol_unavailable exchange_S "fetch_order_book" [])
                       ["USD/USD"; "BTC/USD"])
      /\ forall s, In s ["USD/USD"; "BTC/USD"] ->
           symbol_answers exchange_S "fetch_order_book" [] s = true ->
           exists r, dict_get results s = Some r
                     /\ Exchange.call exchange_S "fetch_order_book"
                                      (VStr s :: []) = Ok r.
Proof.
  split; [reflexivity|].
  apply (call_over_syms_omits_failing_symbols ccxt_class_more exchange_S
           "fetch_order_book" []
           [("USD/USD", VStr "usd-usd"); ("BTC/USD", VStr "btc-usd")]).
  - apply (reach_new ccxt_class_more "S" usd_btc (Some 200)). reflexivity.
  - reflexivity.
  - intros s [<-|[<-|[]]]; reflexivity.
Defined.

End ExchangeMore.

(** ** More on the fan-out layer *)

Module CCXTMore.
Import Exchange CCXT Fanout Sample.
Local Open Scope list_scope.

Section Construction.
Variable ccxt_class : string -> option Client.
Variable ccxt_exchanges : list string.
Variable symbols : option (list string).
Variable rate_limit : option nat.

(** What the loop of [__init__] has done to the class mapping by the time
    it ends, well or not: [done] are the exchanges it got through. *)
Lemma init_loop_effect exchanges :
  forall cls self' cls' r,
    init_loop ccxt_class exchanges symbols rate_limit
              {| own_ex := None |} cls = (self', cls', r) ->
    exists done,
      ((r = Ok tt /\ done = exchanges)
       \/ (exists exch rest e,
             exchanges = done ++ exch :: rest /\ r = Raise e
             /\ __post_init__ ccxt_class exch symbols rate_limit = Raise e))
      /\ (forall n, In n done ->
            exists ex,
              __post_init__ ccxt_class n symbols rate_limit = Ok ex
              /\ dict_get (CCXT._ex cls') n = Some ex)
      /\ (forall n, ~ In n done ->
            dict_get (CCXT._ex cls') n = dict_get (CCXT._ex cls) n)
      /\ (incl done (dict_keys (CCXT._ex cls)) ->
          dict_keys (CCXT._ex cls') = dict_keys (CCXT._ex cls)).
Proof.
  induction exchanges as [|exch rest IH]; cbn [init_loop];
    intros cls self' cls' r H.
  - injection H as <- <- <-. exists [].
    split; [left; split; reflexivity|].
    split; [intros n []|]. split; reflexivity.
  - destruct (__post_init__ ccxt_class exch symbols rate_limit)
      as [ex|e] eqn:Hp.
    + cbn in H. apply IH in H.
      destruct H as [done [Hend [Hin [Hout Hkeys]]]].
      cbn [CCXT._ex] in Hout, Hkeys.
      exists (exch :: done). split; [|split; [|split]].
      * destruct Hend as [[-> ->]|[x [rest' [e [-> [-> Hx]]]]]].
        -- left. split; reflexivity.
        -- right. exists x, rest', e. repeat split; auto.
      * intros n Hn.
        destruct (in_dec string_dec n done) as [Hd|Hd]; [now apply Hin|].
        destruct Hn as [<-|Hn]; [|contradiction].
        exists ex. split; [exact Hp|].
        rewrite (Hout _ Hd). apply PyFacts.dict_get_set_same.
      * intros n Hn. rewrite Hout by (intros K; apply Hn; now right).
        apply PyFacts.dict_get_set_other. intros E. apply Hn. now left.
      * intros Hincl.
        assert (He : In exch (dict_keys (CCXT._ex cls)))
          by (apply Hincl; now left).
        rewrite Hkeys.
        -- now apply PyFacts.dict_keys_set_old.
        -- intros n Hn. rewrite PyFacts.dict_keys_set_old by exact He.
           apply Hincl. now right.
      
    + injection H as <- <- <-. exists [].
      split; [right; exists exch, rest, e; repeat split; auto|].
      split; [intros n []|]. split; reflexivity.
Qed.

(** X6.  A construction that fails leaves in the class mapping every
    exchange it had constructed before the failing one, under its name, and
    changes nothing else in it: no instance is returned, but every
    instance reads those exchanges from then on. *)
Theorem failed_construction_keeps_earlier_exchanges :
  forall (exchanges : option (list string)) (cls cls' : Class) (e : exn),
    __init__ ccxt_class ccxt_exchanges exchanges symbols rate_limit cls
      = (cls', Raise e) ->
    exists done exch rest,
      exchanges_or_all ccxt_exchanges exchanges = done ++ exch :: rest
      /\ __post_init__ ccxt_class exch symbols rate_limit = Raise e
      /\ (forall n, In n done ->
            exists ex,
              __post_init__ ccxt_class n symbols rate_limit = Ok ex
              /\ dict_get (CCXT._ex cls') n = Some ex)
      /\ (forall n, ~ In n done ->
            dict_get (CCXT._ex cls') n = dict_get (CCXT._ex cls) n)
      /\ (forall (self : Instance) n,
            own_ex self = None -> In n done ->
            In n (dict_keys (self_ex self cls'))).
Proof.
  intros exchanges cls cls' e H. unfold __init__ in H.
  destruct (init_loop _ _ _ _ _ _) as [[self0 cls0] [u|e0]] eqn:Hl;
    [discriminate|].
  injection H as <- <-. apply init_loop_effect in Hl.
  destruct Hl as [done [Hend [Hin [Hout _]]]].
  destruct Hend as [[Hr _]|[exch [rest [e1 [Hsplit [Hr Hp]]]]]];
    [discriminate|].
  injection Hr as <-. exists done, exch, rest.
  split; [exact Hsplit|]. split; [exact Hp|]. split; [exact Hin|].
  split; [exact Hout|].
  intros self n Hown Hn. unfold self_ex. rewrite Hown.
  apply PyFacts.dict_get_in_keys. destruct (Hin n Hn) as [ex [_ Hg]].
  congruence.
Qed.

(** X7.  A construction that ends well puts under each of its exchange
    names the exchange object it has just constructed, replacing the one
    that sat there, and leaves every other entry alone; when all its names
    were in the mapping already, the mapping keeps its keys and their
    order. *)
Theorem construction_replaces_named_exchanges :
  forall (exchanges : option (list string)) (cls cls' : Class)
         (self : Instance),
    __init__ ccxt_class ccxt_exchanges exchanges symbols rate_limit cls
      = (cls', Ok self) ->
    (forall n, In n (exchanges_or_all ccxt_exchanges exchanges) ->
       exists ex,
         __post_init__ ccxt_class n symbols rate_limit = Ok ex
         /\ dict_get (CCXT._ex cls') n = Some ex)
    /\ (forall n, ~ In n (exchanges_or_all ccxt_exchanges exchanges) ->
          dict_get (CCXT._ex cls') n = dict_get (CCXT._ex cls) n)
    /\ (incl (exchanges_or_all ccxt_exchanges exchanges)
             (dict_keys (CCXT._ex cls)) ->
        dict_keys (CCXT._ex cls') = dict_keys (CCXT._ex cls)).
Proof.
  intros exchanges cls cls' self H. unfold __init__ in H.
  destruct (init_loop _ _ _ _ _ _) as [[self0 cls0] [u|e0]] eqn:Hl;
    [|discriminate].
  injection H as <- <-. apply init_loop_effect in Hl.
  destruct Hl as [done [Hend [Hin [Hout Hkeys]]]].
  destruct Hend as [[_ ->]|[exch [rest [e1 [_ [Hr _]]]]]]; [|discriminate].
  split; [exact Hin|]. split; [exact Hout | exact Hkeys].
Qed.

End Construction.

(** Asked for B, the unknown exchange Z and A: B is registered, A is not
    reached. *)
Lemma failed_construction_keeps_earlier_exchanges_witness :
  dict_keys (CCXT._ex (fst (__init__ ccxt_class_more ccxt_exchanges
                                     (Some ["B"; "Z"; "A"]) usd_btc None
                                     class_body))) = ["B"]
  /\ exists done exch rest,
      exchanges_or_all ccxt_exchanges (Some ["B"; "Z"; "A"])
        = done ++ exch :: rest
      /\ __post_init__ ccxt_class_more exch usd_btc None
         = Raise (AttributeError "Z")
      /\ (forall n, In n done ->
            exists ex,
              __post_init__ ccxt_class_more n usd_btc None = Ok ex
              /\ dict_get
                   (CCXT._ex (fst (__init__ ccxt_class_more ccxt_exchanges
                                            (Some ["B"; "Z"; "A"]) usd_btc
                                            None class_body))) n
                 = Some ex)
      /\ (forall n, ~ In n done ->
            dict_get
              (CCXT._ex (fst (__init__ ccxt_class_more ccxt_exchanges
                                       (Some ["B"; "Z"; "A"]) usd_btc None
                                       class_body))) n
            = dict_get (CCXT._ex class_body) n)
      /\ (forall (self : Instance) n,
            own_ex self = None -> In n done ->
            In n (dict_keys
                    (self_ex self
                       (fst (__init__ ccxt_class_more ccxt_exchanges
                                      (Some ["B"; "Z"; "A"]) usd_btc None
                                      class_body))))).
Proof.
  split; [reflexivity|].
  apply (failed_construction_keeps_earlier_exchanges
           ccxt_class_more ccxt_exchanges usd_btc None
           (Some ["B"; "Z"; "A"]) class_body).
  reflexivity.
Defined.

(** B constructed a second time, now without configured currencies: the
    mapping keeps its one key, and holds the new object. *)
Lemma construction_replaces_named_exchanges_witness :
  (forall ex, dict_get (CCXT._ex class_with_B) "B" = Some ex ->
              currencies ex = usd_btc)
  /\ (forall n, In n (exchanges_or_all ccxt_exchanges (Some ["B"])) ->
        exists ex,
          __post_init__ ccxt_class_more n None None = Ok ex
          /\ dict_get
               (CCXT._ex (fst (__init__ ccxt_class_more ccxt_exchanges
                                        (Some ["B"]) None None class_with_B)))
               n = Some ex)
  /\ (forall n, ~ In n (exchanges_or_all ccxt_exchanges (Some ["B"])) ->
        dict_get
          (CCXT._ex (fst (__init__ ccxt_class_more ccxt_exchanges
                                   (Some ["B"]) None None class_with_B))) n
        = dict_get (CCXT._ex class_with_B) n)
  /\ (incl (exchanges_or_all ccxt_exchanges (Some ["B"]))
           (dict_keys (CCXT._ex class_with_B)) ->
      dict_keys
        (CCXT._ex (fst (__init__ ccxt_class_more ccxt_exchanges
                                 (Some ["B"]) None None class_with_B)))
      = dict_keys (CCXT._ex class_with_B)).
Proof.
  split.
  - intros ex H. vm_compute in H. injection H as <-. reflexivity.
  - apply (construction_replaces_named_exchanges
             ccxt_class_more ccxt_exchanges None None (Some ["B"])
             class_with_B _ an_instance).
    reflexivity.
Defined.

Section TwoLevels.
Variable callname : string.
Variable args : list value.

(** Symbols that all settle make the per-symbol loop end well. *)
Lemma over_syms_settles ex syms :
  forall results,
    (forall s, In s syms ->
       symbol_answers ex callname args s
       || symbol_unavailable ex callname args s = true) ->
    exists results', over_syms ex callname args syms results = Ok results'.
Proof.
  induction syms as [|sym syms IH]; intros results H; cbn [over_syms].
  - eauto.
  - assert (Hs := H sym (or_introl eq_refl)).
    unfold symbol_answers, symbol_unavailable in Hs.
    destruct (Exchange.call ex callname (VStr sym :: args)) as [r|e].
    + apply IH. intros s Hin. apply H. now right.
    + cbn [orb] in Hs. rewrite Hs. apply IH. intros s Hin. apply H.
      now right.
Qed.

Lemma call_over_syms_settles ex :
  symbols_settle callname args ex ->
  exists inner, Exchange.call_over_syms ex callname args = Ok inner.
Proof.
  intros [m [Hm H]]. unfold Exchange.call_over_syms. rewrite Hm.
  now apply over_syms_settles.
Qed.

(** The per-symbol dispatch of one exchange passes on none of the two
    exchange-error kinds. *)
Lemma call_over_syms_contains ex e :
  Exchange.call_over_syms ex callname args = Raise e ->
  is_exchange_failure e = false.
Proof.
  unfold Exchange.call_over_syms. destruct (markets ex) as [m|].
  - intros H. exact (proj1 (ExchangeMore.over_syms_raises _ _ _ _ _ _ H)).
  - intros H. injection H as <-. reflexivity.
Qed.

(** Exchanges that all return get one entry each, in order. *)
Lemma over_exchanges_all exs :
  forall results,
    NoDup (map name exs) ->
    (forall ex, In ex exs -> ~ In (name ex) (dict_keys results)) ->
    (forall ex, In ex exs ->
       exists inner, Exchange.call_over_syms ex callname args = Ok inner) ->
    exists results',
      over_exchanges exs callname args results = Ok results'
      /\ dict_keys results' = dict_keys results ++ map name exs
      /\ (forall k, In k (dict_keys results) -> ~ In k (map name exs) ->
            dict_get results' k = dict_get results k)
      /\ (forall ex, In ex exs ->
            exists inner,
              dict_get results' (name ex) = Some inner
              /\ Exchange.call_over_syms ex callname args = Ok inner).
Proof.
  induction exs as [|ex exs IH]; intros results Hnd Hfresh Hall.
  - exists results. cbn. rewrite app_nil_r.
    refine (conj eq_refl (conj eq_refl (conj (fun _ _ _ => eq_refl) _))).
    intros ex0 [].
  - cbn [map] in Hnd. inversion Hnd as [|? ? Hnot Hnd']; subst.
    destruct (Hall ex (or_introl eq_refl)) as [inner Hc].
    cbn [over_exchanges map]. rewrite Hc.
    destruct (IH (dict_set results (name ex) inner))
      as [res' [H1 [H2 [H3 H4]]]].
    + assumption.
    + intros ex' Hin Hk. apply PyFacts.dict_keys_set_inv in Hk.
      destruct Hk as [Hk|Hk].
      * apply Hnot. rewrite <- Hk. now apply in_map.
      * apply (Hfresh ex'); [now right | assumption].
    + intros ex' Hin. apply Hall. now right.
    + exists res'. split; [assumption|]. split; [|split].
      * rewrite H2, PyFacts.dict_keys_set_new by (apply Hfresh; now left).
        now rewrite <- app_assoc.
      * intros k Hk Hnk. rewrite H3.
        -- apply PyFacts.dict_get_set_other. intros E. apply Hnk. now left.
        -- now apply PyFacts.dict_keys_set_incl.
        -- intros Hin. apply Hnk. now right.
      * intros ex' [<-|Hin]; [|now apply H4].
        exists inner. split; [|exact Hc].
        rewrite H3, PyFacts.dict_get_set_same;
          [reflexivity | apply PyFacts.dict_keys_set_key | assumption].
Qed.

(** What leaves the two-level loop is what one exchange's per-symbol
    dispatch raised, and so none of the two exchange-error kinds. *)
Lemma over_exchanges_raises exs :
  forall results e,
    over_exchanges exs callname args results = Raise e ->
    is_exchange_failure e = false
    /\ exists ex, In ex exs
                  /\ Exchange.call_over_syms ex callname args = Raise e.
Proof.
  induction exs as [|ex exs IH]; cbn [over_exchanges]; intros results e H;
    [discriminate|].
  destruct (Exchange.call_over_syms ex callname args) as [r|e'] eqn:Hc.
  - apply IH in H. destruct H as [H1 [ex' [H2 H3]]].
    split; [exact H1|]. exists ex'. split; [now right | exact H3].
  - rewrite (call_over_syms_contains _ _ Hc) in H. injection H as <-.
    split; [exact (call_over_syms_contains _ _ Hc)|].
    exists ex. split; [now left | exact Hc].
Qed.

End TwoLevels.

(** X8.  [CCXT.call_over_syms] over exchanges with distinct names whose
    per-symbol calls all answer or fail with one of the two exchange-error
    kinds returns one entry for every exchange, in order, holding what that
    exchange's own [call_over_syms] returned: an exchange none of whose
    symbols answered is there with an empty mapping, not left out. *)
Theorem call_over_syms_keeps_every_exchange :
  forall (self : Instance) (cls : Class) (callname : string)
         (args : list value),
    NoDup (map name (dict_values (self_ex self cls))) ->
    (forall ex, In ex (dict_values (self_ex self cls)) ->
                symbols_settle callname args ex) ->
    exists results,
      CCXT.call_over_syms self cls callname args = Ok results
      /\ dict_keys results = map name (dict_values (self_ex self cls))
      /\ (forall ex, In ex (dict_values (self_ex self cls)) ->
            exists inner,
              dict_get results (name ex) = Some inner
              /\ Exchange.call_over_syms ex callname args = Ok inner)
      /\ (forall ex m, In ex (dict_values (self_ex self cls)) ->
            markets ex = Some m ->
            (forall s, In s (dict_keys m) ->
                       symbol_answers ex callname args s = false) ->
            dict_get results (name ex) = Some []).
Proof.
  intros self cls callname args Hnd Hall. unfold CCXT.call_over_syms.
  destruct (over_exchanges_all callname args _ [] Hnd (fun _ _ K => K)
              (fun ex Hin => call_over_syms_settles _ _ _ (Hall ex Hin)))
    as [results [H1 [H2 [_ H4]]]].
  exists results. split; [exact H1|]. split; [exact H2|].
  split; [exact H4|].
  intros ex m Hin Hm Hnone. destruct (H4 ex Hin) as [inner [Hg Hc]].
  rewrite Hg. f_equal.
  unfold Exchange.call_over_syms in Hc. rewrite Hm in Hc.
  destruct (Hall ex Hin) as [m' [Hm' Hs]].
  rewrite Hm in Hm'. injection Hm' as <-.
  clear - Hc Hnone Hs. revert inner Hc.
  generalize (@nil (string * value)).
  induction (dict_keys m) as [|s syms IH]; intros acc inner Hc.
  - cbn in Hc. now injection Hc as <-.
  - cbn [over_syms] in Hc.
    assert (Ha := Hnone s (or_introl eq_refl)).
    assert (Hu := Hs s (or_introl eq_refl)).
    rewrite Ha in Hu. cbn [orb] in Hu.
    unfold symbol_answers in Ha. unfold symbol_unavailable in Hu.
    destruct (Exchange.call ex callname (VStr s :: args)) as [r|e];
      [discriminate|].
    rewrite Hu in Hc. apply IH; auto.
    + intros s' Hin'. apply Hnone. now right.
    + intros s' Hin'. apply Hs. now right.
Qed.

(** With S, which answers for one of its two symbols, and A, which
    answers for none. *)
Lemma call_over_syms_keeps_every_exchange_witness :
  CCXT.call_over_syms an_instance class_S_A "fetch_order_book" []
    = Ok [("S", [("BTC/USD", VStr "book of BTC/USD")]); ("A", [])]
  /\ exists results,
      CCXT.call_over_syms an_instance class_S_A "fetch_order_book" []
        = Ok results
      /\ dict_keys results
         = map name (dict_values (self_ex an_instance class_S_A))
      /\ (forall ex, In ex (dict_values (self_ex an_instance class_S_A)) ->
            exists inner,
              dict_get results (name ex) = Some inner
              /\ Exchange.call_over_syms ex "fetch_order_book" []
                 = Ok inner)
      /\ (forall ex m,
            In ex (dict_values (self_ex an_instance class_S_A)) ->
            markets ex = Some m ->
            (forall s, In s (dict_keys m) ->
                       symbol_answers ex "fetch_order_book" [] s = false) ->
            dict_get results (name ex) = Some []).
Proof.
  split; [reflexivity|].
  apply (call_over_syms_keeps_every_exchange an_instance class_S_A
           "fetch_order_book" []).
  - vm_compute. constructor.
    + intros [H|[]]. discriminate H.
    + constructor; [intros [] | constructor].
  - intros ex H. vm_compute in H. destruct H as [<-|[<-|[]]];
      eexists; (split; [reflexivity|]);
      intros s [<-|[<-|[]]]; reflexivity.
Defined.

End CCXTMore.

(** ** The operation facade and teardown *)

Module FacadeFacts.
Import Exchange CCXT Fanout Sample.
Local Open Scope list_scope.

(** [CCXTExchange.call] raises no [TypeError]: it has turned the client's
    into an [AttributeError]. *)
Lemma call_no_type_error ex callname args msg :
  Exchange.call ex callname args <> Raise (TypeError msg).
Proof.
  unfold Exchange.call.
  destruct (cl_invoke (Exchange._ex ex) callname args) as [r|[]];
    discriminate.
Qed.

Lemma call_over_syms_no_type_error ex callname args msg :
  Exchange.call_over_syms ex callname args <> Raise (TypeError msg).
Proof.
  unfold Exchange.call_over_syms. destruct (markets ex) as [m|];
    [|discriminate].
  intros H. apply ExchangeMore.over_syms_raises in H.
  destruct H as [_ [s [_ H]]]. exact (call_no_type_error _ _ _ _ H).
Qed.

(** X9.  [CCXTApi.call] sends [fetch_order_book] through the per-symbol
    dispatch and every other operation name, [default] included, through
    the per-exchange one.  Whatever the name, what it raises is neither one
    of the two exchange-error kinds nor a [TypeError]. *)
Theorem facade_routes_and_contains :
  forall (ccxt : Instance) (cls : Class) (callname : string)
         (args : list value),
    (callname = "fetch_order_book" ->
     CCXTApi.call ccxt cls callname args
     = match CCXT.call_over_syms ccxt cls callname args with
       | Ok r => Ok (CCXTApi.BySymbol r)
       | Raise e => Raise e
       end)
    /\ (callname <> "fetch_order_book" ->
        CCXTApi.call ccxt cls callname args
        = match CCXT.call_on_exchanges ccxt cls callname args with
          | Ok r => Ok (CCXTApi.ByExchange r)
          | Raise e => Raise e
          end)
    /\ (forall e, CCXTApi.call ccxt cls callname args = Raise e ->
          is_exchange_failure e = false /\ forall msg, e <> TypeError msg).
Proof.
  intros ccxt cls callname args.
  assert (Hbook : callname = "fetch_order_book" ->
                  CCXTApi.call ccxt cls callname args
                  = match CCXT.call_over_syms ccxt cls callname args with
                    | Ok r => Ok (CCXTApi.BySymbol r)
                    | Raise e => Raise e
                    end) by (intros ->; reflexivity).
  assert (Hother : callname <> "fetch_order_book" ->
                   CCXTApi.call ccxt cls callname args
                   = match CCXT.call_on_exchanges ccxt cls callname args with
                     | Ok r => Ok (CCXTApi.ByExchange r)
                     | Raise e => Raise e
                     end).
  { intros Hne. unfold CCXTApi.call.
    change (dict_getitem CCXTApi.local_overrides "default")
      with (Ok (O:=obj) "call_on_exchanges").
    change (dict_get CCXTApi.local_overrides callname)
      with (if String.eqb "fetch_order_book" callname
            then Some "call_over_syms"
            else if String.eqb "default" callname
                 then Some "call_on_exchanges" else None).
    destruct (String.eqb_spec "fetch_order_book" callname) as [E|_];
      [congruence|].
    now destruct (String.eqb "default" callname). }
  split; [exact Hbook|]. split; [exact Hother|].
  intros e. destruct (string_dec callname "fetch_order_book") as [E|E].
  - rewrite (Hbook E). unfold CCXT.call_over_syms.
    destruct (over_exchanges _ _ _ _) as [r|e'] eqn:Ho; [discriminate|].
    intros H. injection H as <-.
    apply CCXTMore.over_exchanges_raises in Ho.
    destruct Ho as [Hf [ex [_ Hc]]]. split; [exact Hf|].
    intros msg ->. exact (call_over_syms_no_type_error _ _ _ _ Hc).
  - rewrite (Hother E). unfold CCXT.call_on_exchanges.
    destruct (on_exchanges _ _ _ _) as [r|e'] eqn:Ho; [discriminate|].
    intros H. injection H as <-.
    apply CCXTFacts.on_exchanges_raises in Ho.
    destruct Ho as [Hf [ex [_ Hc]]]. split; [exact Hf|].
    intros msg ->. exact (call_no_type_error _ _ _ _ Hc).
Qed.

Section Closing.
Variable client_close : Client -> outcome unit.

(** On a closed loop nothing more is closed: the first exchange met, if
    there is one, fails. *)
Lemma shutdown_all_on_closed_loop exs w :
  Teardown.loop_closed w = true ->
  Teardown.shutdown_all client_close exs w
  = (w, match exs with
        | [] => Ok tt
        | _ :: _ => Raise (RuntimeError "Event loop is closed")
        end).
Proof.
  intros Hc. destruct exs as [|ex rest]; [reflexivity|].
  cbn [Teardown.shutdown_all].
  unfold Teardown.exchange_shutdown, Teardown.run_until_complete.
  now rewrite Hc.
Qed.

(** X10.  All exchange objects share the one event loop that the first
    [CCXTExchange.shutdown] closes, so [CCXT.shutdown] closes the
    connection of the first exchange of the mapping and of no other: with
    one exchange it ends well; with two or more, the first closed well, it
    fails on the second with [RuntimeError], the loop closed and every
    other connection as it was.  Whatever happens, at most one connection
    is closed. *)
Theorem shutdown_closes_first_exchange_only :
  forall (self : Instance) (cls : Class) (w : Teardown.World),
    Teardown.loop_closed w = false ->
    (forall ex,
        dict_values (self_ex self cls) = [ex] ->
        client_close (Exchange._ex ex) = Ok tt ->
        Teardown.shutdown client_close self cls w
        = ({| Teardown.loop_closed := true;
              Teardown.closed := Teardown.closed w ++ [name ex] |}, Ok tt))
    /\ (forall ex1 ex2 rest,
          dict_values (self_ex self cls) = ex1 :: ex2 :: rest ->
          client_close (Exchange._ex ex1) = Ok tt ->
          Teardown.shutdown client_close self cls w
          = ({| Teardown.loop_closed := true;
                Teardown.closed := Teardown.closed w ++ [name ex1] |},
             Raise (RuntimeError "Event loop is closed")))
    /\ (forall ex1 rest e,
          dict_values (self_ex self cls) = ex1 :: rest ->
          client_close (Exchange._ex ex1) = Raise e ->
          Teardown.shutdown client_close self cls w = (w, Raise e))
    /\ List.length
         (Teardown.closed (fst (Teardown.shutdown client_close self cls w)))
       <= S (List.length (Teardown.closed w)).
Proof.
  intros self cls w Hopen. unfold Teardown.shutdown.
  assert (Hfirst : forall ex1 rest,
             client_close (Exchange._ex ex1) = Ok tt ->
             Teardown.shutdown_all client_close (ex1 :: rest) w
             = ({| Teardown.loop_closed := true;
                   Teardown.closed := Teardown.closed w ++ [name ex1] |},
                match rest with
                | [] => Ok tt
                | _ :: _ => Raise (RuntimeError "Event loop is closed")
                end)).
  { intros ex1 rest Hok. cbn [Teardown.shutdown_all].
    unfold Teardown.exchange_shutdown, Teardown.run_until_complete,
      Teardown.close. rewrite Hopen, Hok. cbn.
    now rewrite shutdown_all_on_closed_loop. }
  assert (Hraise : forall ex1 rest e,
             client_close (Exchange._ex ex1) = Raise e ->
             Teardown.shutdown_all client_close (ex1 :: rest) w
             = (w, Raise e)).
  { intros ex1 rest e Hr. cbn [Teardown.shutdown_all].
    unfold Teardown.exchange_shutdown, Teardown.run_until_complete,
      Teardown.close. now rewrite Hopen, Hr. }
  split; [|split; [|split]].
  - intros ex -> Hok. now rewrite Hfirst.
  - intros ex1 ex2 rest -> Hok. now rewrite Hfirst.
  - intros ex1 rest e -> Hr. now apply Hraise.
  - destruct (dict_values (self_ex self cls)) as [|ex1 rest]; [cbn; lia|].
    destruct (client_close (Exchange._ex ex1)) as [[]|e] eqn:Hc.
    + rewrite (Hfirst _ _ Hc). cbn. rewrite length_app. cbn. lia.
    + rewrite (Hraise _ _ _ Hc). cbn. lia.
Qed.

End Closing.

(** With S and A in the mapping, both closing well: S is closed, A is not,
    and the call fails. *)
Lemma shutdown_closes_first_exchange_only_witness :
  Teardown.shutdown closes_well an_instance class_S_A open_world
    = ({| Teardown.loop_closed := true; Teardown.closed := ["S"] |},
       Raise (RuntimeError "Event loop is closed"))
  /\ List.length
       (Teardown.closed
          (fst (Teardown.shutdown closes_well an_instance class_S_A
                                  open_world)))
     <= S (List.length (Teardown.closed open_world)).
Proof.
  split; [reflexivity|].
  exact (proj2 (proj2 (proj2
           (shutdown_closes_first_exchange_only closes_well an_instance
              class_S_A open_world eq_refl)))).
Defined.

End FacadeFacts.

(** ** More on the scheduled call adapter *)

Module ApiMore.
Import Response Api Schedule Sample.
Local Open Scope list_scope.

(** *** What ignores the queue and the clock *)

Lemma reschedule_same p : reschedule (scheduler p) (clock p) p = p.
Proof. now destruct p. Qed.

Lemma ignores_ret {A} (a : A) : ignores_schedule (ret a).
Proof. intros q c p. reflexivity. Qed.

Lemma ignores_raise {A} (e : exn) : ignores_schedule (raise (A:=A) e).
Proof. intros q c p. reflexivity. Qed.

Lemma ignores_lift {A} (o : outcome A) : ignores_schedule (lift o).
Proof. intros q c p. reflexivity. Qed.

Lemma ignores_emit (e : event) : ignores_schedule (emit e).
Proof. intros q c p. reflexivity. Qed.

Lemma ignores_get : ignores_schedule get_self.
Proof. intros q c p. reflexivity. Qed.

Lemma ignores_bind {A B} (m : M A) (k : A -> M B) :
  ignores_schedule m -> (forall a, ignores_schedule (k a)) ->
  ignores_schedule (bind m k).
Proof.
  intros Hm Hk q c p. unfold bind. rewrite Hm.
  destruct (m p) as [p' [a|e]]; cbn [fst snd]; [apply Hk | reflexivity].
Qed.

Lemma ignores_try {A} (m : M A) (h : exn -> M A) :
  ignores_schedule m -> (forall e, ignores_schedule (h e)) ->
  ignores_schedule (try_except m h).
Proof.
  intros Hm Hh q c p. unfold try_except. rewrite Hm.
  destruct (m p) as [p' [a|e]]; cbn [fst snd]; [reflexivity | apply Hh].
Qed.

Create HintDb ignores.
#[local] Hint Resolve ignores_ret ignores_raise ignores_lift ignores_emit
  ignores_get : ignores.

Ltac ignores :=
  repeat first
    [ apply ignores_bind; [|intros ?]
    | apply ignores_try; [|intros ?]
    | solve [auto with ignores]
    | match goal with
      | |- ignores_schedule (match ?x with _ => _ end) => destruct x
      end ].

Lemma ignores_the_api : ignores_schedule the_api.
Proof. unfold the_api. ignores. Qed.
#[local] Hint Resolve ignores_the_api : ignores.

Lemma ignores_callback data : ignores_schedule (call_callback data).
Proof. unfold call_callback. ignores. Qed.
#[local] Hint Resolve ignores_callback : ignores.

Lemma ignores_generate_request tag request :
  ignores_schedule (_generate_request tag request).
Proof. unfold _generate_request, request_try. ignores. Qed.

Lemma ignores_generate_result callname result :
  ignores_schedule (_generate_result callname result).
Proof. unfold _generate_result, result_try. ignores. Qed.
#[local] Hint Resolve ignores_generate_request
  ignores_generate_result : ignores.

Lemma ignores_mthd th args : ignores_schedule (mthd th args).
Proof. unfold mthd. ignores. Qed.

Lemma mthd_keeps_schedule th args p :
  scheduler (fst (mthd th args p)) = scheduler p
  /\ clock (fst (mthd th args p)) = clock p.
Proof.
  pose proof (ignores_mthd th args (scheduler p) (clock p) p) as H.
  rewrite reschedule_same in H.
  destruct (mthd th args p) as [p' r]. cbn [fst snd] in *.
  injection H as H. rewrite H. split; reflexivity.
Qed.

(** *** A queued call and the same call made in place *)

(** X11.  On an empty queue, a call given a delay and a priority and then
    [scheduler.run()] end as the same call made in place ends: same
    outcome, same trace, same adapter; only the clock has moved on by the
    delay, and the queue is empty again. *)
Theorem deferred_call_is_the_inline_call :
  forall (p : Process) (h : Handle) (callname : string) (arguments : value)
         (delay priority : nat),
    api (self p) = Some h ->
    scheduler p = [] ->
    (call callname arguments (Some delay) (Some priority) ;;;
     scheduler_run) p
    = (reschedule [] (clock p + delay)
                  (fst (call callname arguments None None p)),
       snd (call callname arguments None None p)).
Proof.
  intros p h callname arguments delay priority Hapi Hq.
  rewrite (ApiFacts.call_with_neither_is_inline _ _ _ _ Hapi).
  unfold bind at 1.
  rewrite (ApiFacts.call_with_both_is_queued _ _ _ _ _ _ Hapi), Hq.
  unfold scheduler_run. cbn [scheduler enqueue run_events ev_action
                             ev_argument ev_time].
  unfold bind at 1. cbn [self scheduler clock trace].
  replace (Nat.max (clock p) (clock p + delay)) with (clock p + delay)
    by lia.
  set (th := {| th_callname := callname;
                th_action := resolve_action h callname |}).
  assert (Ha : apply_mthd th match arguments with
                             | VNone => []
                             | _ => [arguments]
                             end = mthd th arguments)
    by now destruct arguments.
  rewrite Ha. unfold bind.
  change {| self := self p; scheduler := []; clock := clock p + delay;
            trace := trace p ++ announced callname (resolve_action h callname)
         |}
    with (reschedule [] (clock p + delay)
            (after_announcing callname (resolve_action h callname) p)).
  rewrite ignores_mthd.
  destruct (mthd th arguments (after_announcing callname _ p))
    as [p' [[]|e]]; reflexivity.
Qed.

Lemma deferred_call_is_the_inline_call_witness :
  (call "ticker" (VInt 3) (Some 5) (Some 1) ;;; scheduler_run)
    (process_of handle_plain accepting)
  = (reschedule [] (0 + 5)
       (fst (call "ticker" (VInt 3) None None
                  (process_of handle_plain accepting))),
     snd (call "ticker" (VInt 3) None None
               (process_of handle_plain accepting))).
Proof.
  apply (deferred_call_is_the_inline_call
           (process_of handle_plain accepting) handle_plain);
    reflexivity.
Defined.

(** *** The path of one call *)

(** X12.  When both schemas dump, the action answers and the callback
    returns, [mthd] ends well after exactly four steps, in this order:
    the request is dumped under the tag [mthd] hands the shaper, the action
    is invoked, the raw answer is dumped under the operation name, and the
    dumped data is delivered to the callback.  A callable action is given
    the [payload] of the dumped request; the handle's [call] is given the
    arguments as they came, whatever the request schema made of them. *)
Theorem mthd_success_path :
  forall (p : Process) (h : Handle) (th : Thunk) (args payload raw : value)
         (rschema sschema : SchemaObj) (rdumped sdumped : MarshalResult)
         (cb : value -> outcome unit),
    api (self p) = Some h ->
    request_schema h = Ok rschema ->
    sch_dump rschema
             (dict_set (sch_context rschema) "callname" (request_tag th))
             args = Ok rdumped ->
    value_get (mr_data rdumped) "payload" = Ok payload ->
    match th_action th with
    | OCallable _ f => f payload
    | action => api_call h action args
    end = Ok raw ->
    result_schema h = Ok sschema ->
    sch_dump sschema
             (dict_set (sch_context sschema) "callname"
                       (OStr (th_callname th)))
             raw = Ok sdumped ->
    callback (self p) = Some cb ->
    cb (mr_data sdumped) = Ok tt ->
    mthd th args p
    = ({| self := self p; scheduler := scheduler p; clock := clock p;
          trace := trace p ++
                   [Dumped (request_tag th) args;
                    Invoked (th_action th)
                            match th_action th with
                            | OCallable _ _ => payload
                            | _ => args
                            end;
                    Dumped (OStr (th_callname th)) raw;
                    Delivered (mr_data sdumped)] |},
       Ok tt).
Proof.
  intros p h th args payload raw rschema sschema rdumped sdumped cb
         Ha Hrs Hrd Hpay Hact Hss Hsd Hcb Hok.
  assert (Hreq : _generate_request (request_tag th) args p
                 = ({| self := self p; scheduler := scheduler p;
                       clock := clock p;
                       trace := trace p ++ [Dumped (request_tag th) args] |},
                    Ok payload)).
  { unfold _generate_request, try_except, request_try, bind, the_api,
      get_self, lift, emit, bind. cbn. rewrite Ha. cbn. rewrite Hrs. cbn.
    rewrite Hrd. cbn. now rewrite Hpay. }
  assert (Hres : forall q,
             self q = self p ->
             _generate_result (th_callname th) raw q
             = ({| self := self q; scheduler := scheduler q;
                   clock := clock q;
                   trace := (trace q ++ [Dumped (OStr (th_callname th)) raw])
                            ++ [Delivered (mr_data sdumped)] |},
                Ok tt)).
  { intros q Hq.
    unfold _generate_result, try_except, result_try, call_callback, bind,
      the_api, get_self, lift, emit, bind. cbn. rewrite Hq, Ha. cbn.
    rewrite Hss. cbn. rewrite Hsd. cbn. rewrite ?Hq, Hcb. cbn.
    now rewrite Hok. }
  unfold mthd. unfold request_tag in Hreq.
  destruct (th_action th) as [| s | d | repr f] eqn:Eact;
    unfold bind at 1; rewrite Hreq; cbn [fst snd];
    unfold bind, the_api, get_self, emit, lift; cbn; rewrite ?Ha; cbn;
    rewrite Hact; rewrite Hres by reflexivity; cbn;
    rewrite <- !app_assoc; unfold request_tag; rewrite Eact; reflexivity.
Qed.

(** Through a method of the handle, and through the handle's [call]. *)
Lemma mthd_success_path_witness :
  mthd {| th_callname := "ticker";
          th_action := OCallable "<bound method ticker>" ticker_method |}
       (VInt 3) (process_of handle_with_method accepting)
  = ({| self := adapter_of handle_with_method accepting; scheduler := [];
        clock := 0;
        trace := [] ++
          [Dumped (OStr "ticker") (VInt 3);
           Invoked (OCallable "<bound method ticker>" ticker_method)
                   (VInt 3);
           Dumped (OStr "ticker") (VList [VStr "tick"; VInt 3]);
           Delivered (VDict [("payload", VList [VStr "tick"; VInt 3])])] |},
     Ok tt).
Proof.
  apply (mthd_success_path
           (process_of handle_with_method accepting) handle_with_method
           {| th_callname := "ticker";
              th_action := OCallable "<bound method ticker>" ticker_method |}
           (VInt 3) (VInt 3) (VList [VStr "tick"; VInt 3])
           wrapping_schema wrapping_schema
           {| mr_data := VDict [("payload", VInt 3)];
              mr_errors := VDict [] |}
           {| mr_data := VDict [("payload", VList [VStr "tick"; VInt 3])];
              mr_errors := VDict [] |}
           accepting); reflexivity.
Defined.

(** X13.  Of a request that its schema has dumped, [_generate_request]
    returns the entry [payload] of the dumped data, and [None] when the
    data has no such entry; dumped data that is no dictionary ends in the
    diagnostic failure. *)
Theorem generate_request_returns_payload :
  forall (p : Process) (h : Handle) (schema : SchemaObj)
         (dumped : MarshalResult) (tag : obj) (request : value),
    api (self p) = Some h ->
    request_schema h = Ok schema ->
    sch_dump schema (dict_set (sch_context schema) "callname" tag) request
      = Ok dumped ->
    (forall d, mr_data dumped = VDict d ->
       _generate_request tag request p
       = (fst (emit (Dumped tag request) p),
          Ok match dict_get d "payload" with
             | Some v => v
             | None => VNone
             end))
    /\ ((forall d, mr_data dumped <> VDict d) ->
        _generate_request tag request p
        = (fst (emit (Dumped tag request) p),
           Raise (Exception_ (request_failure tag request)))).
Proof.
  intros p h schema dumped tag request Ha Hs Hd.
  assert (E : _generate_request tag request p
              = (fst (emit (Dumped tag request) p),
                 match value_get (mr_data dumped) "payload" with
                 | Ok v => Ok v
                 | Raise _ =>
                     Raise (Exception_ (request_failure tag request))
                 end)).
  { unfold _generate_request, try_except, request_try, bind, the_api,
      get_self, lift, emit, raise, bind. cbn. rewrite Ha. cbn. rewrite Hs.
    cbn. rewrite Hd. cbn.
    now destruct (value_get (mr_data dumped) "payload"). }
  rewrite E. split.
  - intros d ->. reflexivity.
  - intros Hn. destruct (mr_data dumped) as [| | | | |d]; try reflexivity.
    now destruct (Hn d).
Qed.

Lemma generate_request_returns_payload_witness :
  _generate_request (OStr "ticker") (VInt 3)
                    (process_of handle_plain accepting)
  = (fst (emit (Dumped (OStr "ticker") (VInt 3))
               (process_of handle_plain accepting)),
     Ok (VInt 3)).
Proof.
  exact (proj1 (generate_request_returns_payload
                  (process_of handle_plain accepting) handle_plain
                  wrapping_schema
                  {| mr_data := VDict [("payload", VInt 3)];
                     mr_errors := VDict [] |}
                  (OStr "ticker") (VInt 3) eq_refl eq_refl eq_refl)
               [("payload", VInt 3)] eq_refl).
Defined.

(** *** Shutdown *)

(** With a handle whose own [shutdown] leaves the adapter alone, the state
    after [ApiProduct.shutdown] is the state before with the flag
    cleared. *)
Lemma shutdown_post_state p :
  fst (shutdown p)
  = {| self := set_keep_going (self p) false;
       scheduler := scheduler p; clock := clock p; trace := trace p |}.
Proof.
  unfold shutdown, bind, get_self, put_self. cbn.
  destruct (api (self p)) as [h|]; [|reflexivity].
  destruct (dict_get (attrs h) "shutdown") as [[| | |repr f]|];
    try reflexivity.
  cbn. unfold bind, lift. now destruct (f VNone).
Qed.

(** *** Passes of the loop *)

Lemma dispatch_calls_app cs1 cs2 p :
  dispatch_calls (cs1 ++ cs2) p
  = (dispatch_calls cs1 ;;; dispatch_calls cs2) p.
Proof.
  revert p. induction cs1 as [|[c cd] cs1 IH]; intros p; [reflexivity|].
  cbn [app dispatch_calls]. unfold bind.
  destruct (call c _ _ _ p) as [p' [u|e]]; [|reflexivity].
  rewrite IH. reflexivity.
Qed.

Lemma loop_is_pass_then_loop passes p :
  keep_going (self p) = true ->
  loop (S passes) p = (pass ;;; loop passes) p.
Proof.
  intros Hk. cbn [loop]. rewrite Hk. unfold pass, bind.
  destruct (dispatch_calls (calls (self p)) p) as [p1 [u|e]];
    [|reflexivity].
  now destruct (scheduler_run p1) as [p2 [u'|e]].
Qed.

(** X15.  A call that raises ends the loop with it: the calls configured
    after it are not made, the scheduler is not run, no further pass
    starts, and the process is left as the failing call left it. *)
Theorem failing_call_ends_loop :
  forall (p p1 p2 : Process) (passes : nat)
         (before after : list (string * CallData))
         (callname : string) (calldata : CallData) (e : exn),
    keep_going (self p) = true ->
    calls (self p) = before ++ (callname, calldata) :: after ->
    dispatch_calls before p = (p1, Ok tt) ->
    call callname (cd_arguments calldata) (cd_delay calldata)
         (cd_priority calldata) p1 = (p2, Raise e) ->
    loop (S passes) p = (p2, Raise e).
Proof.
  intros p p1 p2 passes before after callname calldata e Hk Hc Hb Hf.
  cbn [loop]. rewrite Hk, Hc. unfold bind at 1.
  rewrite dispatch_calls_app. unfold bind at 1. rewrite Hb.
  cbn [dispatch_calls]. unfold bind at 1. now rewrite Hf.
Qed.

(** On a handle whose schemas cannot dump: [ticker] fails, and [balances]
    is never called. *)
Lemma failing_call_ends_loop_witness :
  loop 4 process_broken
  = (fst (call "ticker" VNone None None process_broken),
     Raise (Exception_ (request_failure (OStr "ticker") VNone)))
  /\ ~ In (Called "balances") (trace (fst (loop 4 process_broken))).
Proof.
  assert (H : loop 4 process_broken
              = (fst (call "ticker" VNone None None process_broken),
                 Raise (Exception_ (request_failure (OStr "ticker") VNone)))).
  { apply (failing_call_ends_loop process_broken process_broken _ 3
             [] [("balances", plain_call)] "ticker" plain_call);
      reflexivity. }
  split; [exact H|]. rewrite H. vm_compute.
  intros [K|[K|[K|[]]]]; discriminate K.
Defined.

Lemma run_events_drains evs :
  forall p p',
    run_events evs p = (p', Ok tt) ->
    scheduler p' = match evs with
                   | [] => scheduler p
                   | _ :: _ => []
                   end.
Proof.
  induction evs as [|ev rest IH]; intros p p' H.
  - now injection H as <-.
  - cbn [run_events] in H. unfold bind at 1 in H. cbn [fst snd] in H.
    unfold bind at 1 in H.
    match type of H with
    | context [apply_mthd ?th ?a ?q] =>
        assert (Hq : scheduler (fst (apply_mthd th a q)) = rest);
        [ unfold apply_mthd; destruct a as [|x [|y l]];
          try reflexivity; apply mthd_keeps_schedule
        | destruct (apply_mthd th a q) as [p1 [u|e]]; [|discriminate] ]
    end.
    cbn [fst] in Hq. apply IH in H. rewrite H, Hq. now destruct rest.
Qed.

(** X16.  When a pass of the loop ends well, no scheduled call is left
    waiting: what the pass has queued, [scheduler.run()] has made before
    the next test of the flag; and the loop goes on, with that test, from
    the state the pass has left. *)
Theorem pass_leaves_queue_empty :
  forall (p p' : Process),
    pass p = (p', Ok tt) ->
    scheduler p' = []
    /\ forall passes, keep_going (self p) = true ->
                      loop (S passes) p = loop passes p'.
Proof.
  intros p p' H. split.
  - unfold pass, bind in H.
    destruct (dispatch_calls (calls (self p)) p) as [p1 [u|e]];
      [|discriminate].
    unfold scheduler_run in H. apply run_events_drains in H.
    rewrite H. now destruct (scheduler p1).
  - intros passes Hk. rewrite (loop_is_pass_then_loop _ _ Hk).
    unfold bind. now rewrite H.
Qed.

(** With a call due in five time units and a plain one. *)
Lemma pass_leaves_queue_empty_witness :
  clock (fst (pass process_scheduled)) = 5
  /\ (scheduler (fst (pass process_scheduled)) = []
      /\ forall passes,
          keep_going (self process_scheduled) = true ->
          loop (S passes) process_scheduled
          = loop passes (fst (pass process_scheduled))).
Proof.
  split; [reflexivity|].
  apply (pass_leaves_queue_empty process_scheduled). reflexivity.
Defined.

End ApiMore.

(** ** The orchestrator of adapters *)

Module MetaFacts.
Import Api Meta Sample.
Local Open Scope list_scope.

Lemma init_loop_spec contexts :
  forall self,
    init_loop contexts self
    = {| apis := apis self ++ map (fun nc => interface (snd nc)) contexts;
         wsocks := wsocks self
                   ++ map (fun nc => ws_interface (snd nc)) contexts |}.
Proof.
  induction contexts as [|[n c] rest IH]; intros self.
  - cbn. rewrite !app_nil_r. now destruct self.
  - cbn [init_loop map snd]. rewrite IH. cbn [apis wsocks].
    now rewrite <- !app_assoc.
Qed.

Lemma init_lists contexts :
  wsocks (__init__ contexts) = map (fun nc => ws_interface (snd nc)) contexts
  /\ apis (__init__ contexts) = map (fun nc => interface (snd nc)) contexts.
Proof.
  unfold __init__. rewrite init_loop_spec. split; reflexivity.
Qed.

(** X17.  [ApiMetaAdapter] holds one streaming adapter and one scheduled
    adapter for each context, in the order of the contexts; each reads the
    calls and the callback of its context, has no handle yet, has its flag
    set and has started nothing. *)
Theorem meta_builds_one_pair_per_context :
  forall (contexts : dict Context),
    wsocks (__init__ contexts)
      = map (fun nc => ws_interface (snd nc)) contexts
    /\ apis (__init__ contexts)
       = map (fun nc => interface (snd nc)) contexts
    /\ List.length (wsocks (__init__ contexts)) = List.length contexts
    /\ List.length (apis (__init__ contexts)) = List.length contexts
    /\ Forall (fun a => api a = None /\ keep_going a = true
                        /\ thread a = None)
              (apis (__init__ contexts))
    /\ Forall (fun w => api (product w) = None
                        /\ keep_going (product w) = true
                        /\ thread (product w) = None)
              (wsocks (__init__ contexts)).
Proof.
  intros contexts. destruct (init_lists contexts) as [-> ->].
  split; [reflexivity|]. split; [reflexivity|].
  rewrite !length_map. split; [reflexivity|]. split; [reflexivity|].
  split; apply Forall_forall; intros x Hx; apply in_map_iff in Hx;
    destruct Hx as [[n c] [<- _]]; repeat split.
Qed.

(** What [WsAdapter.run] does with the adapter of a context. *)
Lemma ws_run_streams c n :
  streams c = true ->
  exists h subs,
    ctx_cls c = Ok h /\ ctx_subscriptions c = Some subs
    /\ ws_run (ws_interface c) n
       = ({| product := with_api (interface c) h (Some n);
             subscriptions := Some subs |},
          Ok {| ws_handle := h; ws_channels := subs |}).
Proof.
  unfold streams, ws_run, ws_interface. cbn [product subscriptions cls interface].
  destruct (ctx_cls c) as [h|e]; [|discriminate].
  destruct (ctx_subscriptions c) as [subs|]; [|discriminate].
  destruct (dict_get (attrs h) "connect_ws"); [|discriminate].
  destruct (dict_get (attrs h) "on_ws_connect"); [|discriminate].
  intros _. exists h, subs. repeat split.
Qed.

Lemma ws_run_fails c n :
  streams c = false ->
  exists e, snd (ws_run (ws_interface c) n) = Raise e
            /\ thread (product (fst (ws_run (ws_interface c) n))) = None.
Proof.
  unfold streams, ws_run, ws_interface. cbn [product subscriptions cls interface].
  destruct (ctx_cls c) as [h|e]; [|intros _; eexists; split; reflexivity].
  destruct (dict_get (attrs h) "connect_ws");
    [|intros _; eexists; split; reflexivity].
  destruct (dict_get (attrs h) "on_ws_connect").
  - destruct (ctx_subscriptions c); [discriminate|].
    intros _. eexists. split; reflexivity.
  - destruct (ctx_subscriptions c); intros _; eexists; split; reflexivity.
Qed.

(** One adapter that cannot start stops the first loop of [run]. *)
Lemma run_wsocks_stops cs :
  forall kept workers,
    (exists c, In c cs /\ streams c = false) ->
    exists ws' workers' e,
      run_wsocks (map ws_interface cs) kept workers
      = (ws', workers', Raise e)
      /\ List.length workers' < List.length workers + List.length cs.
Proof.
  induction cs as [|c cs IH]; intros kept workers [c0 [Hin Hs]];
    [contradiction|].
  cbn [map run_wsocks]. destruct (streams c) eqn:Hc.
  - destruct (ws_run_streams c (List.length workers) Hc)
      as [h [subs [_ [_ Hrun]]]].
    rewrite Hrun. destruct Hin as [->|Hin]; [congruence|].
    destruct (IH (kept ++ [{| product := with_api (interface c) h
                                                   (Some (List.length workers));
                              subscriptions := Some subs |}])
                 (workers ++ [{| ws_handle := h; ws_channels := subs |}])
                 (ex_intro _ c0 (conj Hin Hs)))
      as [ws' [workers' [e [H Hl]]]].
    exists ws', workers', e. split; [exact H|].
    rewrite length_app in Hl. cbn in Hl |- *. lia.
  - destruct (ws_run_fails c (List.length workers) Hc) as [e [He _]].
    destruct (ws_run (ws_interface c) (List.length workers)) as [w' r].
    cbn [snd] in He. subst r.
    eexists _, _, e. split; [reflexivity|]. cbn. lia.
Qed.

(** X18.  When the streaming adapter of one context cannot start (its
    handle cannot be built, or has no [connect_ws] or no [on_ws_connect],
    or the context has no subscriptions), [ApiMetaAdapter.run] raises while
    it is still starting the streaming adapters: not one scheduled adapter
    is run, whatever its context, and not every context has a streaming
    process. *)
Theorem meta_run_needs_every_stream :
  forall (contexts : dict Context),
    (exists nc, In nc contexts /\ streams (snd nc) = false) ->
    exists e,
      snd (run (boot (__init__ contexts))) = Raise e
      /\ api_workers (fst (run (boot (__init__ contexts)))) = []
      /\ apis (meta (fst (run (boot (__init__ contexts)))))
         = map (fun nc => interface (snd nc)) contexts
      /\ List.length (ws_workers (fst (run (boot (__init__ contexts)))))
         < List.length contexts.
Proof.
  intros contexts [nc [Hin Hs]].
  destruct (init_lists contexts) as [Hw Ha].
  unfold run, boot. cbn [meta ws_workers api_workers scheduler clock].
  rewrite Hw, Ha, <- (map_map snd ws_interface).
  destruct (run_wsocks_stops (map snd contexts) [] []) as [ws' [workers' [e [H Hl]]]].
  { exists (snd nc). split; [now apply in_map | exact Hs]. }
  rewrite H. exists e. cbn. rewrite length_map in Hl. cbn in Hl.
  repeat split; auto.
Qed.

(** A context for a handle without the streaming entry points, after one
    that streams. *)
Lemma meta_run_needs_every_stream_witness :
  exists e,
    snd (run (boot (__init__ [("ws", context_streaming);
                              ("rest", context_rest)]))) = Raise e
    /\ api_workers (fst (run (boot (__init__ [("ws", context_streaming);
                                              ("rest", context_rest)]))))
       = []
    /\ apis (meta (fst (run (boot (__init__ [("ws", context_streaming);
                                             ("rest", context_rest)])))))
       = map (fun nc => interface (snd nc))
             [("ws", context_streaming); ("rest", context_rest)]
    /\ List.length
         (ws_workers (fst (run (boot (__init__ [("ws", context_streaming);
                                                ("rest", context_rest)])))))
       < List.length [("ws", context_streaming); ("rest", context_rest)].
Proof.
  apply (meta_run_needs_every_stream
           [("ws", context_streaming); ("rest", context_rest)]).
  exists ("rest", context_rest). split; [right; now left | reflexivity].
Defined.

Lemma run_wsocks_all contexts :
  forall kept workers,
    (forall nc, In nc contexts -> streams (snd nc) = true) ->
    exists ws' new,
      run_wsocks (map (fun nc => ws_interface (snd nc)) contexts)
                 kept workers
      = (kept ++ ws', workers ++ new, Ok tt)
      /\ List.length ws' = List.length contexts
      /\ Forall2 (fun (nc : string * Context) w =>
                    ctx_cls (snd nc) = Ok (ws_handle w)
                    /\ ctx_subscriptions (snd nc) = Some (ws_channels w))
                 contexts new.
Proof.
  induction contexts as [|[n c] rest IH]; intros kept workers Hall.
  - exists [], []. cbn. rewrite !app_nil_r. repeat split. constructor.
  - cbn [map snd run_wsocks].
    destruct (ws_run_streams c (List.length workers)
                (Hall (n, c) (or_introl eq_refl)))
      as [h [subs [Hc [Hsub Hrun]]]].
    rewrite Hrun.
    destruct (IH (kept ++ [{| product := with_api (interface c) h
                                                   (Some (List.length workers));
                              subscriptions := Some subs |}])
                 (workers ++ [{| ws_handle := h; ws_channels := subs |}])
                 (fun nc Hin => Hall nc (or_intror Hin)))
      as [ws' [new [H [Hl Hf]]]].
    rewrite H, <- !app_assoc. eexists (_ :: ws'), (_ :: new).
    split; [reflexivity|]. split; [cbn; now rewrite Hl|].
    constructor; [split; assumption | exact Hf].
Qed.

Lemma run_apis_all m contexts :
  forall kept workers,
    (forall nc, In nc contexts -> exists h, ctx_cls (snd nc) = Ok h) ->
    exists adapters new,
      run_apis m (map (fun nc => interface (snd nc)) contexts) kept workers
      = (kept ++ adapters, workers ++ new, Ok tt)
      /\ Forall (fun a => api a <> None /\ thread a <> None
                          /\ keep_going a = true) adapters
      /\ Forall2 (fun (nc : string * Context) p =>
                    (exists h, ctx_cls (snd nc) = Ok h
                               /\ api (Api.self p) = Some h)
                    /\ calls (Api.self p) = ctx_calls (snd nc)
                    /\ callback (Api.self p) = ctx_callback (snd nc)
                    /\ keep_going (Api.self p) = true
                    /\ Api.scheduler p = scheduler m
                    /\ Api.trace p = [])
                 contexts new.
Proof.
  induction contexts as [|[n c] rest IH]; intros kept workers Hall.
  - exists [], []. cbn. rewrite !app_nil_r. repeat split; constructor.
  - cbn [map snd run_apis].
    destruct (Hall (n, c) (or_introl eq_refl)) as [h Hc]. cbn [snd] in Hc.
    unfold Api.run. cbn [parent in_parent Api.self interface cls].
    rewrite Hc. cbn [Api.workers parent Api.self].
    match goal with
    | |- context [run_apis m _ (kept ++ [?a]) (workers ++ [?w])] =>
        destruct (IH (kept ++ [a]) (workers ++ [w])
                     (fun nc Hin => Hall nc (or_intror Hin)))
          as [adapters [new [H [Hf Hf2]]]];
        rewrite H, <- !app_assoc;
        exists (a :: adapters), (w :: new)
    end.
    split; [reflexivity|]. split.
    + constructor; [|exact Hf]. cbn. repeat split; discriminate.
    + constructor; [|exact Hf2]. cbn.
      split; [exists h; split; [exact Hc | reflexivity]|]. repeat split.
Qed.

(** X19.  When every context streams, [ApiMetaAdapter.run] ends well with
    one streaming process and one scheduled process per context, in the
    order of the contexts.  A streaming process has a handle of its own,
    built from the context, and the context's subscriptions; a scheduled
    process has another handle built from the same context, the context's
    calls and callback, the flag set and has done nothing yet. *)
Theorem meta_run_starts_two_processes_per_context :
  forall (contexts : dict Context),
    (forall nc, In nc contexts -> streams (snd nc) = true) ->
    exists m',
      run (boot (__init__ contexts)) = (m', Ok tt)
      /\ Forall2 (fun (nc : string * Context) w =>
                    ctx_cls (snd nc) = Ok (ws_handle w)
                    /\ ctx_subscriptions (snd nc) = Some (ws_channels w))
                 contexts (ws_workers m')
      /\ Forall2 (fun (nc : string * Context) p =>
                    (exists h, ctx_cls (snd nc) = Ok h
                               /\ api (Api.self p) = Some h)
                    /\ calls (Api.self p) = ctx_calls (snd nc)
                    /\ callback (Api.self p) = ctx_callback (snd nc)
                    /\ keep_going (Api.self p) = true
                    /\ Api.scheduler p = []
                    /\ Api.trace p = [])
                 contexts (api_workers m')
      /\ Forall (fun a => api a <> None /\ thread a <> None
                          /\ keep_going a = true) (apis (meta m')).
Proof.
  intros contexts Hall.
  destruct (init_lists contexts) as [Hw Ha].
  unfold run. cbn [boot meta ws_workers api_workers scheduler clock].
  rewrite Hw, Ha.
  destruct (run_wsocks_all contexts [] [] Hall) as [ws' [new [H [_ Hf]]]].
  rewrite H.
  destruct (run_apis_all (boot (__init__ contexts)) contexts [] [])
    as [adapters [anew [H2 [Hfa Hf2]]]].
  { intros nc Hin. specialize (Hall nc Hin). unfold streams in Hall.
    destruct (ctx_cls (snd nc)) as [h|]; [eauto | discriminate]. }
  rewrite H2. eexists. split; [reflexivity|]. cbn.
  split; [exact Hf|]. split; [exact Hf2 | exact Hfa].
Qed.

Lemma meta_run_starts_two_processes_per_context_witness :
  exists m',
    run (boot (__init__ [("ws", context_streaming)])) = (m', Ok tt)
    /\ Forall2 (fun (nc : string * Context) w =>
                  ctx_cls (snd nc) = Ok (ws_handle w)
                  /\ ctx_subscriptions (snd nc) = Some (ws_channels w))
               [("ws", context_streaming)] (ws_workers m')
    /\ Forall2 (fun (nc : string * Context) p =>
                  (exists h, ctx_cls (snd nc) = Ok h
                             /\ api (Api.self p) = Some h)
                  /\ calls (Api.self p) = ctx_calls (snd nc)
                  /\ callback (Api.self p) = ctx_callback (snd nc)
                  /\ keep_going (Api.self p) = true
                  /\ Api.scheduler p = []
                  /\ Api.trace p = [])
               [("ws", context_streaming)] (api_workers m')
    /\ Forall (fun a => api a <> None /\ thread a <> None
                        /\ keep_going a = true) (apis (meta m')).
Proof.
  apply (meta_run_starts_two_processes_per_context
           [("ws", context_streaming)]).
  intros nc [<-|[]]. reflexivity.
Defined.

(** What [run] leaves when every context streams. *)
Lemma run_all_stream_workers contexts :
  (forall nc, In nc contexts -> streams (snd nc) = true) ->
  snd (run (boot (__init__ contexts))) = Ok tt
  /\ Forall2 (fun (nc : string * Context) p =>
                calls (Api.self p) = ctx_calls (snd nc)
                /\ keep_going (Api.self p) = true)
             contexts (api_workers (fst (run (boot (__init__ contexts))))).
Proof.
  intros Hall. destruct (init_lists contexts) as [Hw Ha].
  unfold run. cbn [boot meta ws_workers api_workers scheduler clock].
  rewrite Hw, Ha.
  destruct (run_wsocks_all contexts [] [] Hall) as [ws' [new [H _]]].
  rewrite H.
  destruct (run_apis_all (boot (__init__ contexts)) contexts [] [])
    as [adapters [anew [H2 [_ Hf2]]]].
  { intros nc Hin. specialize (Hall nc Hin). unfold streams in Hall.
    destruct (ctx_cls (snd nc)) as [h|]; [eauto | discriminate]. }
  rewrite H2. cbn. split; [reflexivity|].
  clear - Hf2. induction Hf2 as [|nc p l l' Hp _ IH]; constructor;
    [|exact IH].
  split; [exact (proj1 (proj2 Hp))
         | exact (proj1 (proj2 (proj2 (proj2 Hp))))].
Qed.

Lemma shutdown_each_length m todo :
  forall kept adapters r,
    shutdown_each m todo kept = (adapters, r) ->
    List.length adapters = List.length kept + List.length todo.
Proof.
  induction todo as [|a rest IH]; intros kept adapters r H.
  - injection H as <- _. cbn. lia.
  - cbn [shutdown_each] in H.
    destruct (Api.shutdown (in_parent m a)) as [p [u|e]].
    + apply IH in H. rewrite H, length_app. cbn. lia.
    + injection H as <- _. rewrite length_app. cbn. lia.
Qed.

Lemma shutdown_each_clears m todo :
  forall kept adapters,
    shutdown_each m todo kept = (adapters, Ok tt) ->
    Forall (fun a => keep_going a = false) kept ->
    Forall (fun a => keep_going a = false) adapters.
Proof.
  induction todo as [|a rest IH]; intros kept adapters H Hk.
  - now injection H as <-.
  - cbn [shutdown_each] in H.
    pose proof (ApiFacts.shutdown_clears_flag (in_parent m a)) as Hc.
    destruct (Api.shutdown (in_parent m a)) as [p [u|e]]; [|discriminate].
    apply IH in H; [exact H|]. apply Forall_app. split; [exact Hk|].
    constructor; [exact Hc | constructor].
Qed.

(** A loop of shutdowns ends with the first that raises, and keeps the
    adapters after it as they were. *)
Lemma shutdown_each_first_failure m before a after e :
  forall kept,
    Forall (fun b => snd (Api.shutdown (in_parent m b)) = Ok tt) before ->
    snd (Api.shutdown (in_parent m a)) = Raise e ->
    shutdown_each m (before ++ a :: after) kept
    = (kept ++ map (fun b => set_keep_going b false) (before ++ [a]) ++ after,
       Raise e).
Proof.
  induction before as [|b before IH]; intros kept Hb Ha.
  - cbn [app shutdown_each map].
    pose proof (ApiMore.shutdown_post_state (in_parent m a)) as Hst.
    destruct (Api.shutdown (in_parent m a)) as [p r]. cbn [fst snd] in *.
    subst r. now rewrite Hst.
  - inversion Hb as [|? ? Hb1 Hb2]; subst. cbn [app shutdown_each].
    pose proof (ApiMore.shutdown_post_state (in_parent m b)) as Hst.
    destruct (Api.shutdown (in_parent m b)) as [p r]. cbn [fst snd] in *.
    subst r. rewrite Hst, (IH _ Hb2 Ha). cbn [map app].
    now rewrite <- app_assoc.
Qed.

Lemma with_products_cleared ws :
  forall products,
    List.length products = List.length ws ->
    Forall (fun a => keep_going a = false) products ->
    Forall (fun w => keep_going (product w) = false)
           (map (fun wa => with_product (fst wa) (snd wa))
                (combine ws products)).
Proof.
  induction ws as [|w ws IH]; intros [|a products] Hl Hf;
    try discriminate; [constructor|].
  inversion Hf; subst. cbn. constructor; [assumption|].
  apply IH; [now injection Hl | assumption].
Qed.

Lemma shutdown_keeps_workers m :
  ws_workers (fst (shutdown m)) = ws_workers m
  /\ api_workers (fst (shutdown m)) = api_workers m.
Proof.
  unfold shutdown.
  destruct (shutdown_each m (map product (wsocks (meta m))) [])
    as [products [[]|e]]; [|split; reflexivity].
  destruct (shutdown_each m (apis (meta m)) []) as [adapters r].
  split; reflexivity.
Qed.

Lemma shutdown_ok_clears m :
  snd (shutdown m) = Ok tt ->
  Forall (fun a => keep_going a = false) (apis (meta (fst (shutdown m))))
  /\ Forall (fun w => keep_going (product w) = false)
            (wsocks (meta (fst (shutdown m)))).
Proof.
  unfold shutdown.
  destruct (shutdown_each m (map product (wsocks (meta m))) [])
    as [products [[]|e]] eqn:Hw; [|discriminate].
  destruct (shutdown_each m (apis (meta m)) []) as [adapters r] eqn:Ha.
  cbn [fst snd meta apis wsocks]. intros ->. split.
  - apply (shutdown_each_clears _ _ _ _ Ha). constructor.
  - apply with_products_cleared.
    + rewrite (shutdown_each_length _ _ _ _ _ Hw), length_map. reflexivity.
    + apply (shutdown_each_clears _ _ _ _ Hw). constructor.
Qed.

Lemma shutdown_keeps_count m :
  List.length (apis (meta (fst (shutdown m)))) = List.length (apis (meta m))
  /\ List.length (wsocks (meta (fst (shutdown m))))
     = List.length (wsocks (meta m)).
Proof.
  unfold shutdown.
  destruct (shutdown_each m (map product (wsocks (meta m))) [])
    as [products r] eqn:Hw.
  pose proof (shutdown_each_length _ _ _ _ _ Hw) as Hl.
  rewrite length_map in Hl. cbn in Hl.
  assert (Hc : List.length
                 (map (fun wa => with_product (fst wa) (snd wa))
                      (combine (wsocks (meta m)) products))
               = List.length (wsocks (meta m))).
  { rewrite length_map, length_combine, Hl. apply Nat.min_id. }
  destruct r as [[]|e].
  - destruct (shutdown_each m (apis (meta m)) []) as [adapters r] eqn:Ha.
    cbn [fst meta apis wsocks]. split; [|exact Hc].
    now rewrite (shutdown_each_length _ _ _ _ _ Ha).
  - cbn [fst meta apis wsocks]. split; [reflexivity | exact Hc].
Qed.

(** X20.  [ApiMetaAdapter.shutdown] works on the adapters held in the memory
    of the process it is called in: it starts and ends no process, the
    processes started by [run] are as they were, and it holds as many
    adapters as before.  When it ends well, every adapter it holds,
    streaming or scheduled, has its flag cleared. *)
Theorem meta_shutdown_reaches_held_adapters :
  forall (m m' : Machine) (r : outcome unit),
    shutdown m = (m', r) ->
    ws_workers m' = ws_workers m
    /\ api_workers m' = api_workers m
    /\ List.length (apis (meta m')) = List.length (apis (meta m))
    /\ List.length (wsocks (meta m')) = List.length (wsocks (meta m))
    /\ (r = Ok tt ->
        Forall (fun a => keep_going a = false) (apis (meta m'))
        /\ Forall (fun w => keep_going (product w) = false)
                  (wsocks (meta m'))).
Proof.
  intros m m' r H.
  pose proof (shutdown_keeps_workers m) as [Hw Ha].
  pose proof (shutdown_keeps_count m) as [Hla Hlw].
  pose proof (shutdown_ok_clears m) as Hok.
  rewrite H in *. cbn [fst snd] in *.
  repeat (split; [assumption|]). exact Hok.
Qed.

Lemma meta_shutdown_reaches_held_adapters_witness :
  ws_workers (fst (shutdown machine_running)) = ws_workers machine_running
  /\ api_workers (fst (shutdown machine_running))
     = api_workers machine_running
  /\ List.length (apis (meta (fst (shutdown machine_running))))
     = List.length (apis (meta machine_running))
  /\ List.length (wsocks (meta (fst (shutdown machine_running))))
     = List.length (wsocks (meta machine_running))
  /\ (snd (shutdown machine_running) = Ok tt ->
      Forall (fun a => keep_going a = false)
             (apis (meta (fst (shutdown machine_running))))
      /\ Forall (fun w => keep_going (product w) = false)
                (wsocks (meta (fst (shutdown machine_running))))).
Proof.
  apply (meta_shutdown_reaches_held_adapters
           machine_running (fst (shutdown machine_running))
           (snd (shutdown machine_running))).
  reflexivity.
Defined.

(** X21.  [ApiMetaAdapter.shutdown] ends with the first streaming adapter
    whose handle raises in its own [shutdown]: the adapters up to and
    including that one have their flags cleared, the streaming adapters
    after it and every scheduled adapter are left as they were, flags
    included. *)
Theorem meta_shutdown_stops_at_failing_handle :
  forall (m : Machine) (before after : list WsAdapter) (w : WsAdapter)
         (e : exn),
    wsocks (meta m) = before ++ w :: after ->
    Forall (fun b => snd (Api.shutdown (in_parent m (product b))) = Ok tt)
           before ->
    snd (Api.shutdown (in_parent m (product w))) = Raise e ->
    snd (shutdown m) = Raise e
    /\ apis (meta (fst (shutdown m))) = apis (meta m)
    /\ wsocks (meta (fst (shutdown m)))
       = map (fun b => with_product b (set_keep_going (product b) false))
             (before ++ [w])
         ++ after.
Proof.
  intros m before after w e Hsplit Hb Hw. unfold shutdown.
  rewrite Hsplit, map_app. cbn [map].
  rewrite (shutdown_each_first_failure m (map product before) (product w)
             (map product after) e []).
  - cbn [fst snd meta apis wsocks app]. split; [reflexivity|].
    split; [reflexivity|]. clear.
    induction before as [|b before IH].
    + cbn. f_equal. induction after as [|a after IH]; [reflexivity|].
      cbn. rewrite IH. now destruct a.
    + cbn [app map combine fst snd]. now rewrite <- IH.
  - apply Forall_map. exact Hb.
  - exact Hw.
Qed.

Lemma meta_shutdown_stops_at_failing_handle_witness :
  snd (shutdown machine_failing)
  = Raise (RuntimeError "Event loop is closed")
  /\ apis (meta (fst (shutdown machine_failing)))
     = apis (meta machine_failing)
  /\ wsocks (meta (fst (shutdown machine_failing)))
     = map (fun b => with_product b (set_keep_going (product b) false))
           ([ws_running context_streaming]
            ++ [ws_running context_failing])
       ++ [ws_running context_streaming].
Proof.
  apply (meta_shutdown_stops_at_failing_handle
           machine_failing [ws_running context_streaming]
           [ws_running context_streaming] (ws_running context_failing)
           (RuntimeError "Event loop is closed")).
  - reflexivity.
  - constructor; [reflexivity | constructor].
  - reflexivity.
Defined.

(** X22.  After [run] and then [shutdown] on an orchestrator whose contexts
    all stream, both ended well, the adapters the orchestrator holds have
    their flags cleared, yet every scheduled process, one per context and
    in their order, is as [run] started it: its flag is set, so that at the
    next test its loop goes into a pass and dispatches the calls of its
    context. *)
Theorem meta_shutdown_stops_no_scheduled_process :
  forall (contexts : dict Context) (m1 m2 : Machine),
    (forall nc, In nc contexts -> streams (snd nc) = true) ->
    run (boot (__init__ contexts)) = (m1, Ok tt) ->
    shutdown m1 = (m2, Ok tt) ->
    Forall (fun a => keep_going a = false) (apis (meta m2))
    /\ api_workers m2 = api_workers m1
    /\ Forall2 (fun (nc : string * Context) p =>
                  keep_going (Api.self p) = true
                  /\ forall passes,
                       loop (S passes) p
                       = (dispatch_calls (ctx_calls (snd nc)) ;;;
                          scheduler_run ;;;
                          loop passes) p)
               contexts (api_workers m2).
Proof.
  intros contexts m1 m2 Hall Hrun Hsh.
  destruct (run_all_stream_workers contexts Hall) as [_ Hf2].
  rewrite Hrun in Hf2. cbn [fst] in Hf2.
  pose proof (shutdown_keeps_workers m1) as [_ Hw].
  pose proof (shutdown_ok_clears m1) as Hok.
  rewrite Hsh in Hw, Hok. cbn [fst snd] in Hw, Hok.
  split; [exact (proj1 (Hok eq_refl))|]. split; [exact Hw|]. rewrite Hw.
  clear - Hf2. induction Hf2 as [|nc p l l' [Hc Hk] _ IH];
    constructor; [|exact IH].
  split; [exact Hk|]. intros passes. cbn [loop]. now rewrite Hk, Hc.
Qed.

Lemma meta_shutdown_stops_no_scheduled_process_witness :
  Forall (fun a => keep_going a = false)
         (apis (meta (fst (shutdown machine_running))))
  /\ api_workers (fst (shutdown machine_running))
     = api_workers machine_running
  /\ Forall2 (fun (nc : string * Context) p =>
                keep_going (Api.self p) = true
                /\ forall passes,
                     loop (S passes) p
                     = (dispatch_calls (ctx_calls (snd nc)) ;;;
                        scheduler_run ;;;
                        loop passes) p)
             [("ws", context_streaming)]
             (api_workers (fst (shutdown machine_running))).
Proof.
  apply (meta_shutdown_stops_no_scheduled_process
           [("ws", context_streaming)] machine_running);
    [intros nc [<-|[]]; reflexivity | reflexivity | reflexivity].
Defined.

End MetaFacts.
